(** * The request handler of serverless-auth-app

    A shallow embedding of [backend/src/index.ts] together with the parts of
    the JavaScript runtime the handler calls: [JSON.parse], [JSON.stringify],
    [Number::toString], [Date.prototype.toISOString] and [console.log].

    JavaScript strings are sequences of UTF-16 code units, numbers are IEEE 754
    binary64 values, objects keep their own properties in the order
    [OrdinaryOwnPropertyKeys] enumerates them. [JSON.stringify] is recursive
    and ends with a RangeError when a value is nested deeper than the call
    stack has room for; that room is a parameter of the handler. *)

From Stdlib Require Import String Ascii ZArith NArith List Bool Lia.
Import ListNotations.

Local Open Scope Z_scope.

(** ** Strings *)

Module JsString.

(** A code unit; a JavaScript string only holds values below 65536. *)
Definition code_unit := N.

Definition jsstring := list code_unit.

Definition ch (a : ascii) : code_unit := N_of_ascii a.

Definition js (s : string) : jsstring := map ch (list_ascii_of_string s).

Definition jsstring_eq_dec (a b : jsstring) : {a = b} + {a <> b} :=
  list_eq_dec N.eq_dec a b.

Definition jsstring_eqb (a b : jsstring) : bool :=
  if jsstring_eq_dec a b then true else false.

Lemma jsstring_eqb_refl s : jsstring_eqb s s = true.
Proof. unfold jsstring_eqb. destruct (jsstring_eq_dec s s); congruence. Qed.

Lemma jsstring_eqb_eq a b : jsstring_eqb a b = true <-> a = b.
Proof.
  unfold jsstring_eqb. destruct (jsstring_eq_dec a b); split; congruence.
Qed.

Lemma jsstring_eqb_neq a b : jsstring_eqb a b = false <-> a <> b.
Proof.
  unfold jsstring_eqb. destruct (jsstring_eq_dec a b); split; congruence.
Qed.

End JsString.
Export JsString.

Arguments js _%_string.
Arguments ch _%_char.

(** ** Decimal digits *)

Module Digits.

Definition is_digit (c : code_unit) : bool := (48 <=? c)%N && (c <=? 57)%N.

Definition digit_val (c : code_unit) : Z := Z.of_N c - 48.

Definition digit_char (d : Z) : code_unit := Z.to_N (d + 48).

(** Horner evaluation of a digit string, most significant digit first. *)
Definition digits_val_from (acc : Z) (ds : jsstring) : Z :=
  fold_left (fun a c => a * 10 + digit_val c) ds acc.

Definition digits_val (ds : jsstring) : Z := digits_val_from 0 ds.

Fixpoint to_digits_aux (fuel : nat) (z : Z) (acc : jsstring) : jsstring :=
  match fuel with
  | O => acc
  | S f =>
      if z <? 10 then digit_char z :: acc
      else to_digits_aux f (z / 10) (digit_char (z mod 10) :: acc)
  end.

(** The decimal digits of a non-negative integer, without leading zeros
    (["0"] for zero). *)
Definition to_digits (z : Z) : jsstring :=
  to_digits_aux (S (Z.to_nat (Z.log2 z))) z [].

(** The longest prefix of digits and what follows it. *)
Fixpoint span_digits (s : jsstring) : jsstring * jsstring :=
  match s with
  | c :: s' =>
      if is_digit c then let (ds, r) := span_digits s' in (c :: ds, r)
      else ([], s)
  | [] => ([], [])
  end.

End Digits.
Export Digits.

(** ** Numbers: IEEE 754 binary64 *)

Module Number.

(** [Fin neg m e] is (-1)^neg * m * 2^e. *)
Inductive Number : Type :=
  | NaN
  | Inf (neg : bool)
  | Zero (neg : bool)
  | Fin (neg : bool) (m e : Z).

(** The representation binary64 allows: 53 bits of mantissa, exponents from
    -1074 to 971, and a mantissa below 2^52 only at the least exponent. *)
Definition canonical (m e : Z) : Prop :=
  0 < m < 2 ^ 53 /\ -1074 <= e <= 971 /\ (2 ^ 52 <= m \/ e = -1074).

Definition wf_number (x : Number) : Prop :=
  match x with
  | Fin _ m e => canonical m e
  | _ => True
  end.

Definition is_finite (x : Number) : bool :=
  match x with
  | Zero _ | Fin _ _ _ => true
  | NaN | Inf _ => false
  end.

(** Equality of numbers as [===] has it: the two zeros are equal and NaN
    is equal to nothing. *)
Definition number_eqb (x y : Number) : bool :=
  match x, y with
  | Zero _, Zero _ => true
  | Inf a, Inf b => Bool.eqb a b
  | Fin a m e, Fin b m' e' => Bool.eqb a b && (m =? m') && (e =? e')
  | _, _ => false
  end.

(** floor (log2 (n / d)) for [d <= n]. *)
Definition ilog2_frac (n d : Z) : Z :=
  let k := Z.log2 n - Z.log2 d in
  if d * 2 ^ k <=? n then k else k - 1.

(** Round to nearest, ties to even, given quotient, remainder and divisor. *)
Definition round_nearest_even (q r b : Z) : Z :=
  if 2 * r <? b then q
  else if 2 * r =? b then (if Z.even q then q else q + 1)
  else q + 1.

(** The binary64 value nearest to the positive rational [num / den]. *)
Definition round_frac (neg : bool) (num den : Z) : Number :=
  let n := num * 2 ^ 1074 in
  let l := if n <? den then -1 else ilog2_frac n den in
  let e := Z.max 0 (l - 52) in
  let b := den * 2 ^ e in
  let q := round_nearest_even (n / b) (n mod b) b in
  if q =? 0 then Zero neg
  else
    let '(m, e') := if q =? 2 ^ 53 then (2 ^ 52, e + 1) else (q, e) in
    if e' - 1074 >? 971 then Inf neg else Fin neg m (e' - 1074).

(** The binary64 value nearest to [mant * 10^expo]. *)
Definition round_dec (neg : bool) (mant expo : Z) : Number :=
  if mant =? 0 then Zero neg
  else if 0 <=? expo then round_frac neg (mant * 10 ^ expo) 1
  else round_frac neg mant (10 ^ (- expo)).

(** *** Number::toString *)

Fixpoint strip_zeros (fuel : nat) (d t : Z) : Z * Z :=
  match fuel with
  | O => (d, t)
  | S f => if d mod 10 =? 0 then strip_zeros f (d / 10) (t + 1) else (d, t)
  end.

(** The exact decimal expansion of m * 2^e: the integer [s], not divisible
    by ten, and the exponent [t] with m * 2^e = s * 10^t. *)
Definition exact_decimal (m e : Z) : Z * Z :=
  let '(d, t) := if 0 <=? e then (m * 2 ^ e, 0) else (m * 5 ^ (- e), e) in
  strip_zeros (S (Z.to_nat (Z.log2 d))) d t.

(** [represents m e s n]: the digits of [s], scaled so that the decimal point
    stands after the n-th digit, denote a real number that rounds to
    m * 2^e. *)
Definition represents (m e s n : Z) : bool :=
  match round_dec false s (n - Z.of_nat (length (to_digits s))) with
  | Fin _ m' e' => (m' =? m) && (e' =? e)
  | _ => false
  end.

(** The search for the least number of digits [k]: the exact expansion
    [sx] (of [kx] digits, point after the nx-th) is cut to its first [k]
    digits and the two neighbours are tried, the nearer one first. *)
Fixpoint shortest_search (fuel : nat) (k m e sx nx kx : Z) : Z * Z :=
  match fuel with
  | O => (sx, nx)
  | S f =>
      let w := 10 ^ (kx - k) in
      let lo := sx / w in
      let r := sx mod w in
      let c_lo := (lo, nx) in
      let c_hi := if lo + 1 =? 10 ^ k then (10 ^ (k - 1), nx + 1)
                  else (lo + 1, nx) in
      let lo_first := (2 * r <? w) || ((2 * r =? w) && Z.even lo) in
      let '(c1, c2) := if lo_first then (c_lo, c_hi) else (c_hi, c_lo) in
      if represents m e (fst c1) (snd c1) then c1
      else if represents m e (fst c2) (snd c2) then c2
      else shortest_search f (k + 1) m e sx nx kx
  end.

(** The integers [s] and [n] of Number::toString, step 5. *)
Definition shortest (m e : Z) : Z * Z :=
  let '(sx, tx) := exact_decimal m e in
  let kx := Z.of_nat (length (to_digits sx)) in
  shortest_search (Z.to_nat (kx - 1)) 1 m e sx (kx + tx) kx.

(** Number::toString, steps 6 to 10: the four layouts. *)
Definition format_decimal (ds : jsstring) (n : Z) : jsstring :=
  let k := Z.of_nat (length ds) in
  if (k <=? n) && (n <=? 21) then
    ds ++ repeat (ch "0") (Z.to_nat (n - k))
  else if (0 <? n) && (n <=? 21) then
    firstn (Z.to_nat n) ds ++ ch "." :: skipn (Z.to_nat n) ds
  else if (-6 <? n) && (n <=? 0) then
    ch "0" :: ch "." :: repeat (ch "0") (Z.to_nat (- n)) ++ ds
  else
    let e := n - 1 in
    let sign := if e <? 0 then ch "-" else ch "+" in
    match ds with
    | [] => []
    | d :: [] => d :: ch "e" :: sign :: to_digits (Z.abs e)
    | d :: rest => d :: ch "." :: rest ++ ch "e" :: sign :: to_digits (Z.abs e)
    end.

Definition Number_toString (x : Number) : jsstring :=
  match x with
  | NaN => js "NaN"
  | Inf false => js "Infinity"
  | Inf true => js "-Infinity"
  | Zero _ => js "0"
  | Fin neg m e =>
      let '(s, n) := shortest m e in
      (if neg then [ch "-"] else []) ++ format_decimal (to_digits s) n
  end.

End Number.
Export Number.

(** ** JSON text: strings *)

Module JsonString.

Definition c_quote : code_unit := 34%N.
Definition c_backslash : code_unit := 92%N.

(** JSON texts are written below with an apostrophe where the text has a
    quotation mark. *)
Definition jsq (s : string) : jsstring :=
  map (fun c => if (c =? ch "'")%N then c_quote else c) (js s).

Definition hex_digit (d : N) : code_unit :=
  (if d <? 10 then 48 + d else 87 + d)%N.

Definition hex_val (c : code_unit) : option N :=
  (if is_digit c then Some (c - 48)
   else if (97 <=? c) && (c <=? 102) then Some (c - 87)
   else if (65 <=? c) && (c <=? 70) then Some (c - 55)
   else None)%N.

(** UnicodeEscape: a backslash, [u] and four lower-case hexadecimal digits. *)
Definition unicode_escape (c : code_unit) : jsstring :=
  [c_backslash; ch "u";
   hex_digit (c / 4096 mod 16); hex_digit (c / 256 mod 16);
   hex_digit (c / 16 mod 16); hex_digit (c mod 16)]%N.

Definition hex4 (h1 h2 h3 h4 : code_unit) : option code_unit :=
  match hex_val h1, hex_val h2, hex_val h3, hex_val h4 with
  | Some a, Some b, Some c, Some d => Some (a * 4096 + b * 256 + c * 16 + d)%N
  | _, _, _, _ => None
  end.

Definition is_high_surrogate (c : code_unit) : bool :=
  (55296 <=? c)%N && (c <=? 56319)%N.

Definition is_low_surrogate (c : code_unit) : bool :=
  (56320 <=? c)%N && (c <=? 57343)%N.

(** One code unit that is not a surrogate, as QuoteJSONString writes it. *)
Definition quote_unit (c : code_unit) : jsstring :=
  (if c =? 8 then [c_backslash; ch "b"]
   else if c =? 9 then [c_backslash; ch "t"]
   else if c =? 10 then [c_backslash; ch "n"]
   else if c =? 12 then [c_backslash; ch "f"]
   else if c =? 13 then [c_backslash; ch "r"]
   else if c =? c_quote then [c_backslash; c_quote]
   else if c =? c_backslash then [c_backslash; c_backslash]
   else if c <? 32 then unicode_escape c
   else [c])%N.

(** The code points of the string are walked: a surrogate pair is copied,
    a surrogate on its own is escaped. *)
Fixpoint quote_units (s : jsstring) : jsstring :=
  match s with
  | [] => []
  | c :: s' =>
      if is_high_surrogate c then
        match s' with
        | c2 :: s'' =>
            if is_low_surrogate c2 then c :: c2 :: quote_units s''
            else unicode_escape c ++ quote_units s'
        | [] => unicode_escape c
        end
      else if is_low_surrogate c then unicode_escape c ++ quote_units s'
      else quote_unit c ++ quote_units s'
  end.

Definition QuoteJSONString (s : jsstring) : jsstring :=
  c_quote :: quote_units s ++ [c_quote].

(** The character an escape letter stands for. *)
Definition unescape (e : code_unit) : option code_unit :=
  (if e =? c_quote then Some c_quote
   else if e =? c_backslash then Some c_backslash
   else if e =? ch "/" then Some (ch "/")
   else if e =? ch "b" then Some 8
   else if e =? ch "f" then Some 12
   else if e =? ch "n" then Some 10
   else if e =? ch "r" then Some 13
   else if e =? ch "t" then Some 9
   else None)%N.

(** The characters of a JSON string after its opening quotation mark, up to
    and including the closing one; the rest of the text is returned too. *)
Fixpoint parse_string_chars (s : jsstring) : option (jsstring * jsstring) :=
  match s with
  | [] => None
  | c :: s' =>
      if (c =? c_quote)%N then Some ([], s')
      else if (c =? c_backslash)%N then
        match s' with
        | [] => None
        | e :: s'' =>
            if (e =? ch "u")%N then
              match s'' with
              | h1 :: h2 :: h3 :: h4 :: s3 =>
                  match hex4 h1 h2 h3 h4 with
                  | Some u =>
                      match parse_string_chars s3 with
                      | Some (r, rest) => Some (u :: r, rest)
                      | None => None
                      end
                  | None => None
                  end
              | _ => None
              end
            else
              match unescape e with
              | Some u =>
                  match parse_string_chars s'' with
                  | Some (r, rest) => Some (u :: r, rest)
                  | None => None
                  end
              | None => None
              end
        end
      else if (c <? 32)%N then None
      else
        match parse_string_chars s' with
        | Some (r, rest) => Some (c :: r, rest)
        | None => None
        end
  end.

End JsonString.
Export JsonString.

Arguments jsq _%_string.

(** ** JSON text: numbers *)

Module JsonNumber.

(** The integer part of a JSON number: a single zero, or digits that do not
    start with zero. *)
Definition span_int (s : jsstring) : option (jsstring * jsstring) :=
  match s with
  | c :: r =>
      if (c =? ch "0")%N then Some ([c], r)
      else if is_digit c then Some (span_digits s)
      else None
  | [] => None
  end.

Definition span_frac (s : jsstring) : option (jsstring * jsstring) :=
  match s with
  | c :: r =>
      if (c =? ch ".")%N then
        match span_digits r with
        | ([], _) => None
        | (fd, r') => Some (fd, r')
        end
      else Some ([], s)
  | [] => Some ([], s)
  end.

Definition span_exp (s : jsstring) : option (Z * jsstring) :=
  match s with
  | c :: r =>
      if (c =? ch "e")%N || (c =? ch "E")%N then
        let '(neg, r1) :=
          match r with
          | c1 :: r' =>
              if (c1 =? ch "-")%N then (true, r')
              else if (c1 =? ch "+")%N then (false, r')
              else (false, r)
          | [] => (false, r)
          end in
        match span_digits r1 with
        | ([], _) => None
        | (ed, r2) =>
            Some (if neg then - digits_val ed else digits_val ed, r2)
        end
      else Some (0, s)
  | [] => Some (0, s)
  end.

Definition parse_number (s : jsstring) : option (Number * jsstring) :=
  let '(neg, s1) :=
    match s with
    | c :: r => if (c =? ch "-")%N then (true, r) else (false, s)
    | [] => (false, s)
    end in
  match span_int s1 with
  | None => None
  | Some (ip, s2) =>
      match span_frac s2 with
      | None => None
      | Some (fd, s3) =>
          match span_exp s3 with
          | None => None
          | Some (ex, s4) =>
              Some (round_dec neg (digits_val (ip ++ fd))
                      (ex - Z.of_nat (length fd)), s4)
          end
      end
  end.

End JsonNumber.
Export JsonNumber.

(** ** Values and objects *)

Module Value.

(** The values JSON text denotes. An object is the list of its own
    properties in enumeration order. *)
#[local] Unset Elimination Schemes.
Inductive value : Type :=
  | JNull
  | JBool (b : bool)
  | JNum (x : Number)
  | JStr (s : jsstring)
  | JArr (l : list value)
  | JObj (l : list (jsstring * value)).
#[local] Set Elimination Schemes.

Section Objects.
Context {A : Type}.

Definition object := list (jsstring * A).

Fixpoint obj_get (k : jsstring) (o : object) : option A :=
  match o with
  | [] => None
  | (k', v) :: o' => if jsstring_eqb k k' then Some v else obj_get k o'
  end.

Definition has_key (k : jsstring) (o : object) : bool :=
  match obj_get k o with Some _ => true | None => false end.

(** An array index is the canonical decimal form of an integer from 0 to
    2^32 - 2. *)
Definition array_index (k : jsstring) : option Z :=
  match k with
  | [] => None
  | _ :: _ =>
      if forallb is_digit k && jsstring_eqb (to_digits (digits_val k)) k
         && (digits_val k <=? 4294967294)
      then Some (digits_val k) else None
  end.

(** [key_before a b]: a new key [a] is enumerated before the present key
    [b]: array indices come first, in ascending order; the other keys
    follow in the order of their creation. *)
Definition key_before (a b : jsstring) : bool :=
  match array_index a, array_index b with
  | Some i, Some j => i <? j
  | Some _, None => true
  | None, _ => false
  end.

Fixpoint obj_replace (k : jsstring) (v : A) (o : object) : object :=
  match o with
  | [] => []
  | (k', v') :: o' =>
      if jsstring_eqb k k' then (k', v) :: o'
      else (k', v') :: obj_replace k v o'
  end.

Fixpoint obj_insert (k : jsstring) (v : A) (o : object) : object :=
  match o with
  | [] => [(k, v)]
  | (k', v') :: o' =>
      if key_before k k' then (k, v) :: o
      else (k', v') :: obj_insert k v o'
  end.

(** CreateDataProperty: a present key keeps its place and takes the new
    value, a new key is put where enumeration will find it. *)
Definition obj_set (k : jsstring) (v : A) (o : object) : object :=
  if has_key k o then obj_replace k v o else obj_insert k v o.

(** The object a list of (key, value) pairs builds, the pairs being
    defined from left to right. *)
Definition obj_of_list (l : list (jsstring * A)) : object :=
  fold_left (fun o kv => obj_set (fst kv) (snd kv) o) l [].

End Objects.

Arguments object : clear implicits.

End Value.
Export Value.

(** ** JSON.parse and JSON.stringify *)

Module Json.

Definition is_ws (c : code_unit) : bool :=
  ((c =? 9) || (c =? 10) || (c =? 13) || (c =? 32))%N.

Fixpoint skip_ws (s : jsstring) : jsstring :=
  match s with
  | c :: s' => if is_ws c then skip_ws s' else s
  | [] => []
  end.

(** [expect w s]: the text [s] without its prefix [w]. *)
Fixpoint expect (w s : jsstring) : option jsstring :=
  match w, s with
  | [], _ => Some s
  | a :: w', c :: s' => if (a =? c)%N then expect w' s' else None
  | _ :: _, [] => None
  end.

Fixpoint parse_value (fuel : nat) (s : jsstring) : option (value * jsstring) :=
  match fuel with
  | O => None
  | S f =>
      match s with
      | [] => None
      | c :: s' =>
          if (c =? ch "[")%N then
            match skip_ws s' with
            | c2 :: s2 =>
                if (c2 =? ch "]")%N then Some (JArr [], s2)
                else
                  match parse_elements f (c2 :: s2) with
                  | Some (l, r) => Some (JArr l, r)
                  | None => None
                  end
            | [] => None
            end
          else if (c =? ch "{")%N then
            match skip_ws s' with
            | c2 :: s2 =>
                if (c2 =? ch "}")%N then Some (JObj [], s2)
                else
                  match parse_members f (c2 :: s2) with
                  | Some (l, r) => Some (JObj (obj_of_list l), r)
                  | None => None
                  end
            | [] => None
            end
          else if (c =? c_quote)%N then
            match parse_string_chars s' with
            | Some (str, r) => Some (JStr str, r)
            | None => None
            end
          else if (c =? ch "t")%N then
            match expect (js "rue") s' with
            | Some r => Some (JBool true, r)
            | None => None
            end
          else if (c =? ch "f")%N then
            match expect (js "alse") s' with
            | Some r => Some (JBool false, r)
            | None => None
            end
          else if (c =? ch "n")%N then
            match expect (js "ull") s' with
            | Some r => Some (JNull, r)
            | None => None
            end
          else
            match parse_number s with
            | Some (x, r) => Some (JNum x, r)
            | None => None
            end
      end
  end

(** The elements of a non-empty array, from the first value to the closing
    bracket. *)
with parse_elements (fuel : nat) (s : jsstring)
  : option (list value * jsstring) :=
  match fuel with
  | O => None
  | S f =>
      match parse_value f s with
      | Some (v, r) =>
          match skip_ws r with
          | c :: r' =>
              if (c =? ch ",")%N then
                match parse_elements f (skip_ws r') with
                | Some (l, r'') => Some (v :: l, r'')
                | None => None
                end
              else if (c =? ch "]")%N then Some ([v], r')
              else None
          | [] => None
          end
      | None => None
      end
  end

(** The members of a non-empty object, from the first key to the closing
    brace, in the order of the text. *)
with parse_members (fuel : nat) (s : jsstring)
  : option (list (jsstring * value) * jsstring) :=
  match fuel with
  | O => None
  | S f =>
      match s with
      | c :: s' =>
          if (c =? c_quote)%N then
            match parse_string_chars s' with
            | Some (k, r) =>
                match skip_ws r with
                | c1 :: r1 =>
                    if (c1 =? ch ":")%N then
                      match parse_value f (skip_ws r1) with
                      | Some (v, r2) =>
                          match skip_ws r2 with
                          | c3 :: r3 =>
                              if (c3 =? ch ",")%N then
                                match parse_members f (skip_ws r3) with
                                | Some (l, r4) => Some ((k, v) :: l, r4)
                                | None => None
                                end
                              else if (c3 =? ch "}")%N then Some ([(k, v)], r3)
                              else None
                          | [] => None
                          end
                      | None => None
                      end
                    else None
                | [] => None
                end
            | None => None
            end
          else None
      | [] => None
      end
  end.

(** JSON.parse without a reviver: [None] is the SyntaxError it throws. *)
Definition JSON_parse (s : jsstring) : option value :=
  match parse_value (2 * length s + 2) (skip_ws s) with
  | Some (v, r) =>
      match skip_ws r with
      | [] => Some v
      | _ :: _ => None
      end
  | None => None
  end.

Fixpoint join_comma (l : list jsstring) : jsstring :=
  match l with
  | [] => []
  | [a] => a
  | a :: l' => a ++ ch "," :: join_comma l'
  end.

(** The text JSON.stringify returns, without replacer and gap, when it
    returns. *)
Fixpoint json_text (v : value) : jsstring :=
  match v with
  | JNull => js "null"
  | JBool true => js "true"
  | JBool false => js "false"
  | JNum x => if is_finite x then Number_toString x else js "null"
  | JStr s => QuoteJSONString s
  | JArr l => ch "[" :: join_comma (map json_text l) ++ [ch "]"]
  | JObj l =>
      ch "{"
        :: join_comma
             (map (fun kv =>
                     QuoteJSONString (fst kv) ++ ch ":" :: json_text (snd kv))
                l)
        ++ [ch "}"]
  end.

(** The text with a gap: [gap] is the unit of indentation, [ind] the
    indentation reached. *)
Fixpoint join_with (sep : jsstring) (l : list jsstring) : jsstring :=
  match l with
  | [] => []
  | [a] => a
  | a :: l' => a ++ sep ++ join_with sep l'
  end.

Fixpoint stringify_gap (gap ind : jsstring) (v : value) : jsstring :=
  let ind' := ind ++ gap in
  let sep := ch "," :: 10%N :: ind' in
  match v with
  | JArr [] => js "[]"
  | JArr l =>
      ch "[" :: 10%N :: ind'
        ++ join_with sep (map (stringify_gap gap ind') l)
        ++ 10%N :: ind ++ [ch "]"]
  | JObj [] => js "{}"
  | JObj l =>
      ch "{" :: 10%N :: ind'
        ++ join_with sep
             (map (fun kv =>
                     QuoteJSONString (fst kv)
                       ++ ch ":" :: ch " " :: stringify_gap gap ind' (snd kv))
                l)
        ++ 10%N :: ind ++ [ch "}"]
  | _ => json_text v
  end.

(** The text [JSON.stringify(v, null, n)] returns for a number of spaces
    [n] (at most 10), when it returns. *)
Definition json_text_spaces (n : nat) (v : value) : jsstring :=
  match Nat.min n 10 with
  | O => json_text v
  | S k => stringify_gap (repeat (ch " ") (S k)) [] v
  end.

(** The nesting of a value: how many arrays and objects, one inside the
    other, the serializer has entered at once when it is deepest. *)
Fixpoint depth (v : value) : nat :=
  match v with
  | JArr l => S (list_max (map depth l))
  | JObj l => S (list_max (map (fun kv => depth (snd kv)) l))
  | _ => 0
  end.

End Json.
Export Json.

(** ** Date.prototype.toISOString *)

Module Date.

Definition msPerDay : Z := 86400000.

(** A time value: milliseconds since the epoch, within the range TimeClip
    keeps. The clock never reads outside of it. *)
Record TimeValue : Type := {
  ms : Z;
  ms_range : (Z.abs ms <=? 8640000000000000) = true
}.

Definition Day (t : Z) : Z := t / msPerDay.

Definition TimeWithinDay (t : Z) : Z := t mod msPerDay.

Definition DayFromYear (y : Z) : Z :=
  365 * (y - 1970) + (y - 1969) / 4 - (y - 1901) / 100 + (y - 1601) / 400.

(** The year [y] with DayFromYear y <= Day t < DayFromYear (y + 1). *)
Definition YearFromTime (t : Z) : Z :=
  let d := Day t in
  let y := 1970 + d * 400 / 146097 in
  if DayFromYear (y + 1) <=? d then y + 1
  else if d <? DayFromYear y then y - 1
  else y.

Definition InLeapYear (t : Z) : Z :=
  let y := YearFromTime t in
  if (y mod 4 =? 0) && (negb (y mod 100 =? 0) || (y mod 400 =? 0)) then 1
  else 0.

Definition DayWithinYear (t : Z) : Z := Day t - DayFromYear (YearFromTime t).

(** The first day of each month but January, in a year that is not leap. *)
Definition month_starts : list Z :=
  [31; 59; 90; 120; 151; 181; 212; 243; 273; 304; 334].

(** The day within the year a month starts on. *)
Definition month_start (t : Z) (m : nat) : Z :=
  match m with
  | O => 0
  | S O => 31
  | S (S k) => nth (S k) month_starts 0 + InLeapYear t
  end.

(** MonthFromTime, from 0 for January. *)
Definition MonthFromTime (t : Z) : nat :=
  let d := DayWithinYear t in
  length (filter (fun m => month_start t m <=? d) (seq 1 11)).

Definition DateFromTime (t : Z) : Z :=
  DayWithinYear t - month_start t (MonthFromTime t) + 1.

Definition HourFromTime (t : Z) : Z := (t / 3600000) mod 24.
Definition MinFromTime (t : Z) : Z := (t / 60000) mod 60.
Definition SecFromTime (t : Z) : Z := (t / 1000) mod 60.
Definition msFromTime (t : Z) : Z := t mod 1000.

(** The last [k] decimal digits of [z], with leading zeros. *)
Fixpoint pad (k : nat) (z : Z) : jsstring :=
  match k with
  | O => []
  | S k' => pad k' (z / 10) ++ [digit_char (z mod 10)]
  end.

Definition year_string (y : Z) : jsstring :=
  if (0 <=? y) && (y <=? 9999) then pad 4 y
  else (if y <? 0 then ch "-" else ch "+") :: pad 6 (Z.abs y).

Definition Date_toISOString (t : Z) : jsstring :=
  year_string (YearFromTime t)
    ++ ch "-" :: pad 2 (Z.of_nat (MonthFromTime t) + 1)
    ++ ch "-" :: pad 2 (DateFromTime t)
    ++ ch "T" :: pad 2 (HourFromTime t)
    ++ ch ":" :: pad 2 (MinFromTime t)
    ++ ch ":" :: pad 2 (SecFromTime t)
    ++ ch "." :: pad 3 (msFromTime t)
    ++ [ch "Z"].

End Date.
Export Date.

(** ** The Lambda interface *)

(** The event: the object the runtime hands over, as it has read it from
    the JSON text of the invocation, its own properties in enumeration
    order. APIGatewayProxyEvent, the type of the handler's parameter, gives
    [body] the type [string | null]; an event that was made by hand may have
    no [body] at all, and any other property or none. *)
Module Event.

(** The [body] property is a string, is null or is missing. *)
Definition body_typed (o : object value) : bool :=
  match obj_get (js "body") o with
  | None | Some JNull | Some (JStr _) => true
  | Some _ => false
  end.

Record t : Type := {
  properties : object value;
  body_type : body_typed properties = true
}.

(** [event.body] where it is a string; [None] where it is null or
    undefined. *)
Definition body (e : t) : option jsstring :=
  match obj_get (js "body") (properties e) with
  | Some (JStr s) => Some s
  | _ => None
  end.

(** The event as a value. *)
Definition to_value (e : t) : value := JObj (properties e).

(** What API Gateway puts into an event: maps of strings, maps of lists of
    strings, and null for what a request does not have. *)
Definition strings_value (o : object jsstring) : value :=
  JObj (map (fun kv => (fst kv, JStr (snd kv))) o).

Definition lists_value (o : object (list jsstring)) : value :=
  JObj (map (fun kv => (fst kv, JArr (map JStr (snd kv)))) o).

Definition nullable {A : Type} (f : A -> value) (o : option A) : value :=
  match o with
  | Some a => f a
  | None => JNull
  end.

End Event.

(** Context. *)
Module Context.
Record t : Type := {
  callbackWaitsForEmptyEventLoop : bool;
  functionName : jsstring;
  functionVersion : jsstring;
  invokedFunctionArn : jsstring;
  memoryLimitInMB : jsstring;
  awsRequestId : jsstring;
  logGroupName : jsstring;
  logStreamName : jsstring
}.
End Context.

(** APIGatewayProxyResult. *)
Module Result.
Record t : Type := {
  statusCode : Z;
  headers : object jsstring;
  body : jsstring
}.
End Result.

(** ** Effects: the console and exceptions *)

Module Run.

(** The exceptions the handler can meet: the one of [JSON.parse] and the
    one of a call stack that is used up. *)
Inductive JsError : Type :=
  | SyntaxError
  | RangeError.

(** How the promise of an async function settles. *)
Inductive Settled (A : Type) : Type :=
  | Fulfilled (a : A)
  | Rejected (e : JsError).

Arguments Fulfilled {A} a.
Arguments Rejected {A} e.

(** A computation: the lines it writes to the console and how it ends. *)
Definition Run (A : Type) : Type := list jsstring * Settled A.

Definition ret {A : Type} (a : A) : Run A := ([], Fulfilled a).

Definition throw {A : Type} (e : JsError) : Run A := ([], Rejected e).

Definition bind {A B : Type} (m : Run A) (k : A -> Run B) : Run B :=
  match m with
  | (out, Fulfilled a) => let (out', r) := k a in (out ++ out', r)
  | (out, Rejected e) => (out, Rejected e)
  end.

(** [console.log(a, b)] for two strings: one line, the arguments separated by
    a space. *)
Definition console_log (a b : jsstring) : Run unit :=
  ([a ++ ch " " :: b], Fulfilled tt).

Definition console {A : Type} (m : Run A) : list jsstring := fst m.

Definition settled {A : Type} (m : Run A) : Settled A := snd m.

End Run.
Export Run.

Notation "x <- m ;; k" := (bind m (fun x => k))
  (at level 61, m at next level, right associativity).
Notation "m ;;; k" := (bind m (fun _ => k))
  (at level 61, right associativity).

(** ** backend/src/index.ts *)

Module Index.

(** ToBoolean of a string or null: only the non-empty string is true. *)
Definition truthy (b : option jsstring) : bool :=
  match b with
  | Some (_ :: _) => true
  | Some [] | None => false
  end.

(** [JSON.parse(s)] as a computation: the value, or the SyntaxError thrown. *)
Definition JSON_parse_run (s : jsstring) : Run value :=
  match JSON_parse s with
  | Some v => ret v
  | None => throw SyntaxError
  end.

(** [JSON.stringify(v)] as a computation. The serializer calls itself for
    every array and object inside another and checks the call stack before
    it enters one: [stack] is the number of them the stack has room for,
    one inside the other, when the handler calls. A value nested deeper
    ends the call with a RangeError. *)
Definition JSON_stringify (stack : nat) (v : value) : Run jsstring :=
  if (depth v <=? stack)%nat then ret (json_text v) else throw RangeError.

(** [JSON.stringify(v, null, n)] as a computation. *)
Definition JSON_stringify_spaces (stack n : nat) (v : value) : Run jsstring :=
  if (depth v <=? stack)%nat then ret (json_text_spaces n v)
  else throw RangeError.

(** Line 8: [const body = event.body ? JSON.parse(event.body) : {};] *)
Definition parse_body (event : Event.t) : Run value :=
  match Event.body event with
  | Some s => if truthy (Some s) then JSON_parse_run s else ret (JObj [])
  | None => ret (JObj [])
  end.

(** Lines 3 to 24: the exported [handler]. It writes the event as a text
    and logs it (line 5), parses the body (line 8), writes the response
    object as a text and returns the response (lines 11 to 23); [stack] is
    the room of the call stack, [now] the time value [new Date()] reads on
    line 19. Nothing is caught: an exception of [JSON.stringify] or of
    [JSON.parse] rejects the promise of the async function, and what
    follows the call is not run. *)
Definition handler (stack : nat) (event : Event.t) (context : Context.t)
  (now : TimeValue) : Run Result.t :=
  text <- JSON_stringify_spaces stack 2 (Event.to_value event) ;;
  console_log (js "Event:") text ;;;
  body <- parse_body event ;;
  encoded <-
    JSON_stringify stack
      (JObj
         (obj_of_list
            [ (js "message", JStr (js "Hello, World!"));
              (js "timestamp", JStr (Date_toISOString (ms now)));
              (js "requestId", JStr (Context.awsRequestId context));
              (js "body", body) ])) ;;
  ret {|
    Result.statusCode := 200;
    Result.headers :=
      obj_of_list
        [ (js "Content-Type", js "application/json");
          (js "Access-Control-Allow-Origin", js "*") ];
    Result.body := encoded
  |}.

End Index.
Export Index.

(** ** The vocabulary of the statements *)

Module Spec.

(** A text that does not go on with a digit. *)
Definition no_digit_ahead (s : jsstring) : Prop :=
  match s with
  | [] => True
  | c :: _ => is_digit c = false
  end.

Definition keys {A : Type} (o : object A) : list jsstring := map fst o.

(** The keys stand in an order enumeration can give: no key twice, and no
    key that would have been put before an earlier one. *)
Definition enumeration_order (ks : list jsstring) : Prop :=
  NoDup ks /\ ForallOrdPairs (fun a b => key_before b a = false) ks.

(** [good m e s n]: the digits of [s] with the point after the n-th denote
    the number. *)
Definition good (m e s n : Z) : Prop :=
  0 < s /\
  round_dec false s (n - Z.of_nat (length (to_digits s))) = Fin false m e.

(** Comparisons of known characters are evaluated. *)
Ltac ground_chars :=
  repeat match goal with
  | |- context [N.eqb ?a ?b] =>
      let v := eval vm_compute in (N.eqb a b) in
      lazymatch v with
      | true => change (N.eqb a b) with true
      | false => change (N.eqb a b) with false
      end
  | |- context [is_digit ?a] =>
      let v := eval vm_compute in (is_digit a) in
      lazymatch v with
      | true => change (is_digit a) with true
      | false => change (is_digit a) with false
      end
  | |- context [is_ws ?a] =>
      let v := eval vm_compute in (is_ws a) in
      lazymatch v with
      | true => change (is_ws a) with true
      | false => change (is_ws a) with false
      end
  end;
  cbv beta iota; cbn [orb andb negb].

(** A text that does not go on as a number would. *)
Definition number_end (rest : jsstring) : Prop :=
  match rest with
  | [] => True
  | c :: _ => is_digit c = false /\ c <> ch "." /\ c <> ch "e" /\ c <> ch "E"
  end.

(** The sign of a number text. *)
Definition sign_text (neg : bool) : jsstring := if neg then [ch "-"] else [].

(** The number [JSON.parse] reads from the text of a finite number: the
    number itself, but for the negative zero, whose text has no sign. *)
Definition reparsed_number (x : Number) : Number :=
  match x with
  | Zero _ => Zero false
  | _ => x
  end.

(** The values [JSON.parse] can return: numbers are binary64 values and the
    properties of every object stand in enumeration order. *)
Fixpoint wf_value (v : value) : Prop :=
  match v with
  | JNum x => wf_number x
  | JArr l => fold_right (fun v acc => wf_value v /\ acc) True l
  | JObj l =>
      enumeration_order (keys l)
      /\ fold_right (fun kv acc => wf_value (snd kv) /\ acc) True l
  | _ => True
  end.

(** The value read back from the text of a value: a number that is not
    finite is written as null, and the negative zero without its sign. *)
Fixpoint reparsed (v : value) : value :=
  match v with
  | JNum x => if is_finite x then JNum (reparsed_number x) else JNull
  | JArr l => JArr (map reparsed l)
  | JObj l => JObj (map (fun kv => (fst kv, reparsed (snd kv))) l)
  | _ => v
  end.

(** Fuel that is enough to parse the text of a value. *)
Fixpoint fuel_of (v : value) : nat :=
  match v with
  | JArr l => S (length l + list_sum (map fuel_of l))
  | JObj l => S (length l + list_sum (map (fun kv => fuel_of (snd kv)) l))
  | _ => 1
  end.

(** The first character of a value text: no white space, no closing
    bracket, so a parser that stands before it goes into the value. *)
Definition value_start (c : code_unit) : Prop :=
  is_ws c = false /\ (c =? ch "]")%N = false /\ (c =? ch "}")%N = false.

(** What the induction gives for a value: its text, whatever follows that
    no number could go on with, is parsed to the value as read back. *)
Definition parses_back (v : value) : Prop :=
  forall fuel rest,
    (fuel_of v <= fuel)%nat -> number_end rest ->
    parse_value fuel (json_text v ++ rest) = Some (reparsed v, rest).

Definition member_text (kv : jsstring * value) : jsstring :=
  QuoteJSONString (fst kv) ++ ch ":" :: json_text (snd kv).

(** Deep equality of two values: numbers are compared as [===] compares
    them, arrays element by element, objects property by property whatever
    the order of their keys. *)
Fixpoint deep_equal (a b : value) : bool :=
  match a, b with
  | JNull, JNull => true
  | JBool x, JBool y => Bool.eqb x y
  | JNum x, JNum y => number_eqb x y
  | JStr s, JStr t => jsstring_eqb s t
  | JArr l, JArr m =>
      (fix each (l m : list value) : bool :=
         match l, m with
         | [], [] => true
         | x :: l', y :: m' => deep_equal x y && each l' m'
         | _, _ => false
         end) l m
  | JObj l, JObj m =>
      (length l =? length m)%nat
      && forallb (fun kv =>
                    match obj_get (fst kv) m with
                    | Some w => deep_equal (snd kv) w
                    | None => false
                    end) l
  | _, _ => false
  end.

(** No number of the value is an infinity or NaN. *)
Fixpoint all_finite (v : value) : bool :=
  match v with
  | JNum x => is_finite x
  | JArr l => forallb all_finite l
  | JObj l => forallb (fun kv => all_finite (snd kv)) l
  | _ => true
  end.

(** The field [k] of the JSON-encoded body of a response. *)
Definition field (k : string) (r : Result.t) : option value :=
  match JSON_parse (Result.body r) with
  | Some (JObj o) => obj_get (js k) o
  | _ => None
  end.

(** The object the handler serializes, for the value [v] of the request
    body. *)
Definition payload (context : Context.t) (now : TimeValue) (v : value)
  : object value :=
  [ (js "message", JStr (js "Hello, World!"));
    (js "timestamp", JStr (Date_toISOString (ms now)));
    (js "requestId", JStr (Context.awsRequestId context));
    (js "body", v) ].

(** The response the handler returns, for the value [v] of the request
    body. *)
Definition response (context : Context.t) (now : TimeValue) (v : value)
  : Result.t :=
  {| Result.statusCode := 200;
     Result.headers :=
       [ (js "Content-Type", js "application/json");
         (js "Access-Control-Allow-Origin", js "*") ];
     Result.body := json_text (JObj (payload context now v)) |}.

(** A code unit QuoteJSONString copies as it is. *)
Definition plain (c : code_unit) : bool :=
  ((32 <=? c) && (c <? 55296) && negb (c =? c_quote)
   && negb (c =? c_backslash))%N.

End Spec.
Export Spec.

(** ** Requests, contexts and values to evaluate the handler on *)

Module Samples.

(** The event of a GET request to the root with the body [b], as API Gateway
    makes it. *)
Definition get_properties (b : option jsstring) : object value :=
  [ (js "resource", JStr (js "/"));
    (js "path", JStr (js "/"));
    (js "httpMethod", JStr (js "GET"));
    (js "headers", Event.strings_value [(js "Accept", js "*/*")]);
    (js "multiValueHeaders", Event.lists_value [(js "Accept", [js "*/*"])]);
    (js "queryStringParameters", JNull);
    (js "multiValueQueryStringParameters", JNull);
    (js "pathParameters", JNull);
    (js "stageVariables", JNull);
    (js "requestContext", JObj []);
    (js "body", Event.nullable JStr b);
    (js "isBase64Encoded", JBool false) ].

Definition get_event (b : option jsstring) : Event.t :=
  {| Event.properties := get_properties b;
     Event.body_type :=
       match b with Some _ => eq_refl | None => eq_refl end |}.

(** A POST request to another path, with a query and other headers. *)
Definition post_properties (b : option jsstring) : object value :=
  [ (js "resource", JStr (js "/items"));
    (js "path", JStr (js "/items"));
    (js "httpMethod", JStr (js "POST"));
    (js "headers", Event.strings_value [(js "Content-Type", js "text/plain")]);
    (js "multiValueHeaders",
      Event.lists_value [(js "Content-Type", [js "text/plain"])]);
    (js "queryStringParameters", Event.strings_value [(js "q", js "1")]);
    (js "multiValueQueryStringParameters",
      Event.lists_value [(js "q", [js "1"])]);
    (js "pathParameters", JNull);
    (js "stageVariables", Event.strings_value [(js "stage", js "prod")]);
    (js "requestContext", JObj [(js "stage", JStr (js "prod"))]);
    (js "body", Event.nullable JStr b);
    (js "isBase64Encoded", JBool true) ].

Definition post_event (b : option jsstring) : Event.t :=
  {| Event.properties := post_properties b;
     Event.body_type :=
       match b with Some _ => eq_refl | None => eq_refl end |}.

(** An event made by hand, as the scenarios of the specification have it:
    the object [{"body": b}]. *)
Definition body_event (b : jsstring) : Event.t :=
  {| Event.properties := [(js "body", JStr b)]; Event.body_type := eq_refl |}.

(** The object [{}]: an event with no [body] field. *)
Definition empty_event : Event.t :=
  {| Event.properties := []; Event.body_type := eq_refl |}.

(** The value [v] inside [n] arrays, and the text [s] inside [n] pairs of
    brackets. *)
Fixpoint nest (n : nat) (v : value) : value :=
  match n with
  | O => v
  | S k => JArr [nest k v]
  end.

Definition nest_text (n : nat) (s : jsstring) : jsstring :=
  repeat (ch "[") n ++ s ++ repeat (ch "]") n.

(** An event whose [requestContext] is null inside [n] arrays, with the
    body [b]. *)
Definition deep_event (n : nat) (b : option jsstring) : Event.t :=
  {| Event.properties :=
       [(js "requestContext", nest n JNull);
        (js "body", Event.nullable JStr b)];
     Event.body_type :=
       match b with Some _ => eq_refl | None => eq_refl end |}.

(** A call stack with room for 2048 arrays and objects, one inside the
    other. *)
Definition room : nat := 2048.

Definition context_of (name requestId : jsstring) : Context.t :=
  {| Context.callbackWaitsForEmptyEventLoop := true;
     Context.functionName := name;
     Context.functionVersion := js "$LATEST";
     Context.invokedFunctionArn := js "arn:aws:lambda:us-east-1:0:function:hello";
     Context.memoryLimitInMB := js "128";
     Context.awsRequestId := requestId;
     Context.logGroupName := js "/aws/lambda/hello";
     Context.logStreamName := js "2026/11/02/[$LATEST]0" |}.

(** 2026-11-02T19:00:00.123Z *)
Definition evening : TimeValue :=
  {| ms := 1793646000123; ms_range := eq_refl |}.

(** The number 1. *)
Definition one : Number := Fin false (2 ^ 52) (-52).

(** The value of the text [{"x":[1.5,-2e3,"a"]}]. *)
Definition nested_text : jsstring := jsq "{'x':[1.5,-2e3,'a']}".

Definition nested : value :=
  JObj [(js "x", JArr [JNum (Fin false (3 * 2 ^ 51) (-52));
                       JNum (Fin true (125 * 2 ^ 46) (-42));
                       JStr (js "a")])].

Definition hello_context : Context.t := context_of (js "hello") (js "abc-123").

End Samples.
Export Samples.

(** ** More vocabulary *)

(** *** Indented JSON text *)

Module Gap.

(** What the induction gives for a value written with a gap: its text, at
    any indentation of white space, is parsed to the value as read back. *)
Definition parses_back_gap (gap : jsstring) (v : value) : Prop :=
  forall ind fuel rest,
    forallb is_ws ind = true ->
    (fuel_of v <= fuel)%nat -> number_end rest ->
    parse_value fuel (stringify_gap gap ind v ++ rest) = Some (reparsed v, rest).

(** One property of an object written with a gap. *)
Definition member_text_gap (gap ind : jsstring) (kv : jsstring * value)
  : jsstring :=
  QuoteJSONString (fst kv) ++ ch ":" :: ch " " :: stringify_gap gap ind (snd kv).

End Gap.
Export Gap.

(** *** Lines and padding *)

Module Lines.

(** A code unit from 32 on: none of the control characters U+0000 to
    U+001F, among them the line feed and the carriage return. *)
Definition visible (c : code_unit) : bool := (32 <=? c)%N.

(** What a parser returns when the text [w] is put after its input, if it
    does not look at [w]. *)
Definition followed_by {A : Type} (w : jsstring) (p : option (A * jsstring))
  : option (A * jsstring) :=
  match p with
  | Some (x, r) => Some (x, r ++ w)
  | None => None
  end.

End Lines.
Export Lines.

(** *** The date-time string format, read *)

Module Iso.

(** DaysInYear y - 365. *)
Definition leap_days (y : Z) : Z :=
  if (y mod 4 =? 0) && (negb (y mod 100 =? 0) || (y mod 400 =? 0)) then 1
  else 0.

(** The day within the year [y] its month [m] starts on, from 0 for
    January. *)
Definition month_first (y : Z) (m : nat) : Z :=
  match m with
  | O => 0
  | S O => 31
  | S (S k) => nth (S k) month_starts 0 + leap_days y
  end.

Definition days_in_month (y : Z) (m : nat) : Z :=
  (if (m =? 11)%nat then 365 + leap_days y else month_first y (S m))
  - month_first y m.

Definition MakeTime (hour min sec milli : Z) : Z :=
  hour * 3600000 + min * 60000 + sec * 1000 + milli.

(** MakeDay for a month from 0 to 11. *)
Definition MakeDay (year : Z) (month : nat) (date : Z) : Z :=
  DayFromYear year + month_first year month + date - 1.

Definition MakeDate (day time : Z) : Z := day * msPerDay + time.

Definition TimeClip (t : Z) : option Z :=
  if Z.abs t <=? 8640000000000000 then Some t else None.

(** Exactly [k] decimal digits. *)
Definition fixed_digits (k : nat) (s : jsstring) : option (Z * jsstring) :=
  let ds := firstn k s in
  if (length ds =? k)%nat && forallb is_digit ds
  then Some (digits_val ds, skipn k s)
  else None.

(** A year of four digits, or an expanded year: a sign and six digits, the
    year 0 never with the sign [-]. *)
Definition read_year (s : jsstring) : option (Z * jsstring) :=
  match s with
  | c :: r =>
      if (c =? ch "+")%N then fixed_digits 6 r
      else if (c =? ch "-")%N then
        match fixed_digits 6 r with
        | Some (y, r') => if y =? 0 then None else Some (- y, r')
        | None => None
        end
      else fixed_digits 4 s
  | [] => None
  end.

(** [k] digits after the character [c]. *)
Definition field_after (c : ascii) (k : nat) (s : jsstring)
  : option (Z * jsstring) :=
  match expect [ch c] s with
  | Some r => fixed_digits k r
  | None => None
  end.

(** The time value a text of the date-time string format denotes:
    [YYYY-MM-DDTHH:mm:ss.sssZ], the year possibly expanded, with a month
    from 01 to 12, a day the month has, an hour from 00 to 23, minutes and
    seconds from 00 to 59. [None] for every other text. *)
Definition iso_instant (s : jsstring) : option Z :=
  match read_year s with
  | Some (y, s1) =>
  match field_after "-" 2 s1 with
  | Some (mo, s2) =>
  match field_after "-" 2 s2 with
  | Some (d, s3) =>
  match field_after "T" 2 s3 with
  | Some (h, s4) =>
  match field_after ":" 2 s4 with
  | Some (mi, s5) =>
  match field_after ":" 2 s5 with
  | Some (sec, s6) =>
  match field_after "." 3 s6 with
  | Some (milli, s7) =>
      if jsstring_eqb s7 (js "Z")
         && (1 <=? mo) && (mo <=? 12)
         && (1 <=? d) && (d <=? days_in_month y (Z.to_nat (mo - 1)))
         && (h <=? 23) && (mi <=? 59) && (sec <=? 59)
      then TimeClip (MakeDate (MakeDay y (Z.to_nat (mo - 1)) d)
                              (MakeTime h mi sec milli))
      else None
  | None => None end
  | None => None end
  | None => None end
  | None => None end
  | None => None end
  | None => None end
  | None => None end.


(** The day a month starts on and the month a day falls in, for a year of
    365 + [leap] days: month_start and MonthFromTime with the leap day and
    the day as arguments. *)
Definition first_of (leap : Z) (m : nat) : Z :=
  match m with
  | O => 0
  | S O => 31
  | S (S k) => nth (S k) month_starts 0 + leap
  end.

Definition month_of (leap d : Z) : nat :=
  length (filter (fun m => first_of leap m <=? d) (seq 1 11)).

(** What holds of the month of every day of a year. *)
Definition month_ok (leap d : Z) : bool :=
  let m := month_of leap d in
  (m <=? 11)%nat
  && (first_of leap m <=? d)
  && (d <? (if (m =? 11)%nat then 365 + leap else first_of leap (S m)))
  && (d - first_of leap m <? 31).

End Iso.
Export Iso.

(** *** The order of strings *)

Module Order.

(** The comparison of two strings by their code units, as [<] compares
    strings. *)
Fixpoint compare_units (a b : jsstring) : comparison :=
  match a, b with
  | [], [] => Eq
  | [], _ :: _ => Lt
  | _ :: _, [] => Gt
  | x :: a', y :: b' =>
      match (x ?= y)%N with
      | Eq => compare_units a' b'
      | c => c
      end
  end.

(** The first comparison, or the second where the first finds no
    difference. *)
Definition then_compare (c d : comparison) : comparison :=
  match c with
  | Eq => d
  | _ => c
  end.

End Order.
Export Order.

(** * Proofs *)

(** ** Decimal digits *)

Module DigitFacts.

Lemma digit_char_val d : 0 <= d < 10 -> digit_val (digit_char d) = d.
Proof. unfold digit_val, digit_char. lia. Qed.

Lemma digit_char_is_digit d : 0 <= d < 10 -> is_digit (digit_char d) = true.
Proof.
  unfold is_digit, digit_char. intros H.
  apply andb_true_intro. split; apply N.leb_le; lia.
Qed.

Lemma is_digit_range c : is_digit c = true -> 0 <= digit_val c < 10.
Proof.
  unfold is_digit, digit_val. intros H.
  apply andb_prop in H. destruct H as [H1 H2].
  apply N.leb_le in H1. apply N.leb_le in H2. lia.
Qed.

Lemma digits_val_from_app a ds es :
  digits_val_from a (ds ++ es) = digits_val_from (digits_val_from a ds) es.
Proof. unfold digits_val_from. apply fold_left_app. Qed.

Lemma digits_val_from_shift ds : forall a,
  digits_val_from a ds = a * 10 ^ Z.of_nat (length ds) + digits_val ds.
Proof.
  unfold digits_val.
  induction ds as [|c ds IH]; intros a.
  - simpl. lia.
  - cbn [digits_val_from fold_left length].
    fold (digits_val_from (a * 10 + digit_val c) ds).
    fold (digits_val_from (0 * 10 + digit_val c) ds).
    rewrite (IH (a * 10 + digit_val c)), (IH (0 * 10 + digit_val c)).
    rewrite Nat2Z.inj_succ, Z.pow_succ_r by lia. ring.
Qed.

Lemma digits_val_snoc ds c : digits_val (ds ++ [c]) = digits_val ds * 10 + digit_val c.
Proof. unfold digits_val. rewrite digits_val_from_app. reflexivity. Qed.

Lemma digits_val_app ds es :
  digits_val (ds ++ es) = digits_val ds * 10 ^ Z.of_nat (length es) + digits_val es.
Proof.
  unfold digits_val at 1. rewrite digits_val_from_app.
  fold (digits_val ds). apply digits_val_from_shift.
Qed.

Lemma digits_val_nonneg ds : forallb is_digit ds = true -> 0 <= digits_val ds.
Proof.
  induction ds as [|c ds IH] using rev_ind; intros H.
  - reflexivity.
  - rewrite forallb_app in H. apply andb_prop in H. destruct H as [H1 H2].
    simpl in H2. rewrite andb_true_r in H2. apply is_digit_range in H2.
    rewrite digits_val_snoc. specialize (IH H1). lia.
Qed.

Lemma to_digits_aux_acc fuel : forall z acc,
  to_digits_aux fuel z acc = to_digits_aux fuel z [] ++ acc.
Proof.
  induction fuel as [|f IH]; intros z acc; simpl.
  - reflexivity.
  - destruct (z <? 10).
    + reflexivity.
    + rewrite (IH _ (_ :: acc)), (IH _ [_]). rewrite <- app_assoc. reflexivity.
Qed.

Lemma to_digits_aux_step f z :
  to_digits_aux (S f) z [] =
    if z <? 10 then [digit_char z]
    else to_digits_aux f (z / 10) [] ++ [digit_char (z mod 10)].
Proof. simpl. destruct (z <? 10); [reflexivity | apply to_digits_aux_acc]. Qed.

Lemma to_digits_aux_val f : forall z,
  0 <= z < 10 ^ Z.of_nat f -> digits_val (to_digits_aux f z []) = z.
Proof.
  induction f as [|f IH]; intros z Hz.
  - simpl in Hz. assert (z = 0) by lia. subst. reflexivity.
  - rewrite to_digits_aux_step. destruct (Z.ltb_spec z 10) as [Hlt|Hge].
    + unfold digits_val. simpl. rewrite digit_char_val; lia.
    + rewrite digits_val_snoc, IH.
      * rewrite digit_char_val by (apply Z.mod_pos_bound; lia).
        pose proof (Z.div_mod z 10). lia.
      * rewrite Nat2Z.inj_succ, Z.pow_succ_r in Hz by lia.
        split; [apply Z.div_pos; lia | apply Z.div_lt_upper_bound; lia].
Qed.

Lemma to_digits_aux_digits f : forall z,
  0 <= z -> forallb is_digit (to_digits_aux f z []) = true.
Proof.
  induction f as [|f IH]; intros z Hz.
  - reflexivity.
  - rewrite to_digits_aux_step. destruct (Z.ltb_spec z 10) as [Hlt|Hge].
    + simpl. rewrite digit_char_is_digit; [reflexivity | lia].
    + rewrite forallb_app, IH by (apply Z.div_pos; lia).
      simpl. rewrite digit_char_is_digit; [reflexivity|].
      apply Z.mod_pos_bound; lia.
Qed.

(** The first digit is not zero unless the number is. *)
Lemma to_digits_aux_head f : forall z,
  0 < z < 10 ^ Z.of_nat (S f) ->
  exists d ds, to_digits_aux (S f) z [] = d :: ds /\ d <> ch "0".
Proof.
  induction f as [|f IH]; intros z Hz; rewrite to_digits_aux_step.
  - change (10 ^ Z.of_nat 1) with 10 in Hz.
    destruct (Z.ltb_spec z 10) as [Hlt|Hge]; [|lia].
    exists (digit_char z), []. split; [reflexivity|].
    unfold digit_char, ch. simpl. lia.
  - destruct (Z.ltb_spec z 10) as [Hlt|Hge].
    + exists (digit_char z), []. split; [reflexivity|].
      unfold digit_char, ch. simpl. lia.
    + destruct (IH (z / 10)) as (d & ds & E & Hd).
      * rewrite (Nat2Z.inj_succ (S f)), Z.pow_succ_r in Hz by lia.
        split; [apply Z.div_str_pos; lia | apply Z.div_lt_upper_bound; lia].
      * rewrite E. exists d, (ds ++ [digit_char (z mod 10)]). split; [reflexivity | exact Hd].
Qed.

Lemma to_digits_fuel z : 0 <= z -> z < 10 ^ Z.of_nat (S (Z.to_nat (Z.log2 z))).
Proof.
  intros Hz. rewrite Nat2Z.inj_succ, Z2Nat.id by apply Z.log2_nonneg.
  destruct (Z.eq_dec z 0) as [->|Hnz]; [reflexivity|].
  pose proof (Z.log2_spec z ltac:(lia)) as [_ Hlt].
  eapply Z.lt_le_trans; [exact Hlt|].
  apply Z.pow_le_mono_l. lia.
Qed.

Lemma to_digits_val z : 0 <= z -> digits_val (to_digits z) = z.
Proof.
  intros Hz. unfold to_digits. apply to_digits_aux_val.
  split; [exact Hz | apply to_digits_fuel; exact Hz].
Qed.

Lemma to_digits_digits z : 0 <= z -> forallb is_digit (to_digits z) = true.
Proof. intros Hz. apply to_digits_aux_digits. exact Hz. Qed.

Lemma to_digits_head z :
  0 < z -> exists d ds, to_digits z = d :: ds /\ d <> ch "0".
Proof.
  intros Hz. apply to_digits_aux_head.
  split; [exact Hz | apply to_digits_fuel; lia].
Qed.

Lemma to_digits_nonempty z : to_digits z <> [].
Proof.
  unfold to_digits. rewrite to_digits_aux_step.
  destruct (z <? 10); [discriminate|].
  destruct (to_digits_aux _ _ _); discriminate.
Qed.

Lemma span_digits_app ds : forall rest,
  forallb is_digit ds = true -> no_digit_ahead rest ->
  span_digits (ds ++ rest) = (ds, rest).
Proof.
  induction ds as [|c ds IH]; intros rest Hds Hrest.
  - simpl. destruct rest as [|c r]; [reflexivity|].
    simpl in *. rewrite Hrest. reflexivity.
  - simpl in *. apply andb_prop in Hds. destruct Hds as [Hc Hds].
    rewrite Hc, (IH rest Hds Hrest). reflexivity.
Qed.

End DigitFacts.
Export DigitFacts.

(** ** QuoteJSONString and the string grammar *)

Module StringFacts.

Lemma hex_val_digit d : (d < 16)%N -> hex_val (hex_digit d) = Some d.
Proof.
  intros H. unfold hex_digit, hex_val, is_digit.
  destruct (N.ltb_spec d 10) as [Hlt|Hge].
  - replace ((48 <=? 48 + d)%N) with true by (symmetry; apply N.leb_le; lia).
    replace ((48 + d <=? 57)%N) with true by (symmetry; apply N.leb_le; lia).
    cbn [andb]. f_equal. lia.
  - replace ((87 + d <=? 57)%N) with false by (symmetry; apply N.leb_gt; lia).
    rewrite andb_false_r.
    replace ((97 <=? 87 + d)%N) with true by (symmetry; apply N.leb_le; lia).
    replace ((87 + d <=? 102)%N) with true by (symmetry; apply N.leb_le; lia).
    cbn [andb]. f_equal. lia.
Qed.

Lemma hex4_sum c :
  (c < 65536)%N ->
  ((c / 4096 mod 16) * 4096 + (c / 256 mod 16) * 256
   + (c / 16 mod 16) * 16 + c mod 16 = c)%N.
Proof. intros H. zify. Z.to_euclidean_division_equations. lia. Qed.

Lemma hex4_escape c :
  (c < 65536)%N ->
  hex4 (hex_digit (c / 4096 mod 16)) (hex_digit (c / 256 mod 16))
       (hex_digit (c / 16 mod 16)) (hex_digit (c mod 16)) = Some c.
Proof.
  intros H. unfold hex4.
  rewrite !hex_val_digit by (apply N.mod_upper_bound; discriminate).
  f_equal. apply hex4_sum. exact H.
Qed.

(** Reading back an escape of four hexadecimal digits. *)
Lemma parse_unicode_escape c t :
  (c < 65536)%N ->
  parse_string_chars (unicode_escape c ++ t) =
    match parse_string_chars t with
    | Some (r, rest) => Some (c :: r, rest)
    | None => None
    end.
Proof.
  intros H. unfold unicode_escape.
  cbn [app parse_string_chars].
  change ((c_backslash =? c_quote)%N) with false.
  change ((c_backslash =? c_backslash)%N) with true.
  change ((ch "u" =? ch "u")%N) with true. cbv iota.
  rewrite hex4_escape by exact H. reflexivity.
Qed.

Lemma parse_quote_unit c t :
  is_high_surrogate c = false -> is_low_surrogate c = false ->
  parse_string_chars (quote_unit c ++ t) =
    match parse_string_chars t with
    | Some (r, rest) => Some (c :: r, rest)
    | None => None
    end.
Proof.
  intros _ _. unfold quote_unit.
  repeat match goal with
  | |- context [if (c =? ?k)%N then _ else _] =>
      destruct (N.eqb_spec c k) as [->|?]; [reflexivity|]
  end.
  destruct (N.ltb_spec c 32) as [Hlt|Hge].
  - apply parse_unicode_escape. lia.
  - cbn [app parse_string_chars].
    destruct (N.eqb_spec c c_quote) as [->|?]; [contradiction|].
    destruct (N.eqb_spec c c_backslash) as [->|?]; [contradiction|].
    destruct (N.ltb_spec c 32); [lia|]. reflexivity.
Qed.

Lemma parse_literal_unit c t :
  (55296 <= c)%N ->
  parse_string_chars (c :: t) =
    match parse_string_chars t with
    | Some (r, rest) => Some (c :: r, rest)
    | None => None
    end.
Proof.
  intros H. cbn [parse_string_chars].
  destruct (N.eqb_spec c c_quote) as [->|?]; [unfold c_quote in H; lia|].
  destruct (N.eqb_spec c c_backslash) as [->|?]; [unfold c_backslash in H; lia|].
  destruct (N.ltb_spec c 32); [lia|]. reflexivity.
Qed.

Lemma surrogate_bounds c :
  is_high_surrogate c = true \/ is_low_surrogate c = true ->
  (55296 <= c < 65536)%N.
Proof.
  unfold is_high_surrogate, is_low_surrogate.
  intros [H|H]; apply andb_prop in H; destruct H as [H1 H2];
    apply N.leb_le in H1; apply N.leb_le in H2; lia.
Qed.

Lemma parse_quote_units_len n : forall s rest,
  (length s <= n)%nat ->
  parse_string_chars (quote_units s ++ c_quote :: rest) = Some (s, rest).
Proof.
  induction n as [|n IH]; intros s rest Hlen.
  - destruct s; [reflexivity | simpl in Hlen; lia].
  - destruct s as [|c s]; [reflexivity|].
    simpl in Hlen. cbn [quote_units].
    destruct (is_high_surrogate c) eqn:Hh.
    + pose proof (surrogate_bounds c (or_introl Hh)) as Hc.
      destruct s as [|c2 s].
      * rewrite parse_unicode_escape by lia. reflexivity.
      * destruct (is_low_surrogate c2) eqn:Hl2.
        -- pose proof (surrogate_bounds c2 (or_intror Hl2)) as Hc2.
           cbn [app]. rewrite parse_literal_unit by lia.
           rewrite parse_literal_unit by lia.
           rewrite IH by (simpl in Hlen; lia). reflexivity.
        -- rewrite <- app_assoc, parse_unicode_escape by lia.
           rewrite IH by lia. reflexivity.
    + destruct (is_low_surrogate c) eqn:Hl.
      * pose proof (surrogate_bounds c (or_intror Hl)) as Hc.
        rewrite <- app_assoc, parse_unicode_escape by lia.
        rewrite IH by lia. reflexivity.
      * rewrite <- app_assoc, parse_quote_unit by assumption.
        rewrite IH by lia. reflexivity.
Qed.

(** A quoted string is read back as it was, whatever its code units. *)
Lemma parse_quoted s rest :
  parse_string_chars (quote_units s ++ c_quote :: rest) = Some (s, rest).
Proof. apply (parse_quote_units_len (length s)). lia. Qed.

End StringFacts.
Export StringFacts.

(** ** The order of the properties of an object *)

Module ObjectFacts.

Section Facts.
Context {A : Type}.
Implicit Types (o : object A) (k : jsstring) (v : A).

Lemma key_before_asym a b : key_before a b = true -> key_before b a = false.
Proof.
  unfold key_before.
  destruct (array_index a), (array_index b); try discriminate; try reflexivity.
  intros H. apply Z.ltb_lt in H. apply Z.ltb_ge. lia.
Qed.

Lemma key_before_trans a b c :
  key_before a b = true -> key_before b c = true -> key_before a c = true.
Proof.
  unfold key_before.
  destruct (array_index a), (array_index b), (array_index c);
    try discriminate; try reflexivity.
  intros H1 H2. apply Z.ltb_lt in H1. apply Z.ltb_lt in H2. apply Z.ltb_lt. lia.
Qed.

Lemma has_key_false k o : has_key k o = false <-> ~ In k (keys o).
Proof.
  unfold has_key. induction o as [|[k' v'] o IH]; simpl.
  - tauto.
  - destruct (jsstring_eqb k k') eqn:E.
    + apply jsstring_eqb_eq in E. subst. split; [discriminate | tauto].
    + apply jsstring_eqb_neq in E. rewrite IH. split.
      * intros H [H'|H']; [congruence | tauto].
      * tauto.
Qed.

Lemma keys_replace k v o : keys (obj_replace k v o) = keys o.
Proof.
  induction o as [|[k' v'] o IH]; simpl; [reflexivity|].
  destruct (jsstring_eqb k k'); simpl; [reflexivity | f_equal; exact IH].
Qed.

Lemma obj_insert_last k v o :
  Forall (fun k' => key_before k k' = false) (keys o) ->
  obj_insert k v o = o ++ [(k, v)].
Proof.
  induction o as [|[k' v'] o IH]; simpl; intros H; [reflexivity|].
  inversion H as [|? ? H1 H2]; subst. rewrite H1. f_equal. apply IH, H2.
Qed.

(** Where a new key goes: after the keys it does not precede, before the
    first one it precedes. *)
Lemma keys_insert k v o :
  exists ks1 ks2,
    keys o = ks1 ++ ks2 /\ keys (obj_insert k v o) = ks1 ++ k :: ks2 /\
    Forall (fun k' => key_before k k' = false) ks1 /\
    match ks2 with [] => True | k2 :: _ => key_before k k2 = true end.
Proof.
  induction o as [|[k' v'] o IH]; simpl.
  - exists [], []. repeat split; constructor.
  - destruct (key_before k k') eqn:E.
    + exists [], (k' :: keys o). repeat split; [constructor | exact E].
    + destruct IH as (ks1 & ks2 & E1 & E2 & F & T).
      exists (k' :: ks1), ks2. simpl. rewrite E1, E2.
      repeat split; [constructor; assumption | exact T].
Qed.

Lemma ForallOrdPairs_app_iff (R : jsstring -> jsstring -> Prop) l1 l2 :
  ForallOrdPairs R (l1 ++ l2) <->
  ForallOrdPairs R l1 /\ ForallOrdPairs R l2 /\
  (forall a b, In a l1 -> In b l2 -> R a b).
Proof.
  induction l1 as [|x l1 IH]; simpl.
  - split.
    + intros H. repeat split; [constructor | exact H | tauto].
    + tauto.
  - split.
    + intros H. inversion H as [|? ? Hx Hr]; subst.
      apply IH in Hr. destruct Hr as (H1 & H2 & H3).
      rewrite Forall_app in Hx. destruct Hx as [Hx1 Hx2].
      repeat split; [constructor; assumption | exact H2 |].
      intros a b [<-|Ha] Hb.
      * rewrite Forall_forall in Hx2. apply Hx2, Hb.
      * apply H3; assumption.
    + intros (H1 & H2 & H3). inversion H1 as [|? ? Hx Hr]; subst.
      constructor.
      * rewrite Forall_app. split; [exact Hx|].
        rewrite Forall_forall. intros b Hb. apply H3; [left; reflexivity | exact Hb].
      * apply IH. repeat split; [exact Hr | exact H2 |].
        intros a b Ha Hb. apply H3; [right; exact Ha | exact Hb].
Qed.

Lemma obj_set_order k v o :
  enumeration_order (keys o) -> enumeration_order (keys (obj_set k v o)).
Proof.
  intros [Hnd Hord]. unfold obj_set.
  destruct (has_key k o) eqn:Hk.
  - rewrite keys_replace. split; assumption.
  - apply has_key_false in Hk.
    destruct (keys_insert k v o) as (ks1 & ks2 & E1 & E2 & F & T).
    rewrite E2. rewrite E1 in Hnd, Hord, Hk.
    split.
    + apply NoDup_Add with (a := k) (l := ks1 ++ ks2).
      * apply Add_app.
      * split; assumption.
    + apply ForallOrdPairs_app_iff in Hord. destruct Hord as (O1 & O2 & O12).
      apply ForallOrdPairs_app_iff. repeat split.
      * exact O1.
      * constructor; [|exact O2].
        destruct ks2 as [|k2 ks2]; [constructor|].
        inversion O2 as [|? ? Hk2 _]; subst.
        constructor; [apply key_before_asym, T|].
        rewrite Forall_forall in Hk2 |- *. intros b Hb.
        destruct (key_before b k) eqn:E; [|reflexivity].
        specialize (Hk2 b Hb).
        rewrite (key_before_trans b k k2 E T) in Hk2. discriminate.
      * intros a b Ha [<-|Hb].
        -- rewrite Forall_forall in F. apply F, Ha.
        -- apply O12; assumption.
Qed.

Lemma obj_of_list_from_order (l : list (jsstring * A)) : forall o,
  enumeration_order (keys o) ->
  enumeration_order
    (keys (fold_left (fun o kv => obj_set (fst kv) (snd kv) o) l o)).
Proof.
  induction l as [|[k v] l IH]; intros o H; simpl; [exact H|].
  apply IH, obj_set_order, H.
Qed.

(** Whatever the members of an object text, the object is in enumeration
    order. *)
Lemma obj_of_list_order (l : list (jsstring * A)) :
  enumeration_order (keys (obj_of_list l)).
Proof.
  apply obj_of_list_from_order. split; constructor.
Qed.

Lemma obj_set_append k v o :
  enumeration_order (keys (o ++ [(k, v)])) -> obj_set k v o = o ++ [(k, v)].
Proof.
  unfold keys. rewrite map_app. simpl. intros [Hnd Hord].
  unfold obj_set.
  replace (has_key k o) with false.
  - apply obj_insert_last.
    apply ForallOrdPairs_app_iff in Hord. destruct Hord as (_ & _ & H).
    rewrite Forall_forall. intros k' Hk'. apply H; [exact Hk' | left; reflexivity].
  - symmetry. apply has_key_false.
    apply NoDup_remove_2 in Hnd. rewrite app_nil_r in Hnd. exact Hnd.
Qed.

Lemma obj_of_list_from_id (q : list (jsstring * A)) : forall p,
  enumeration_order (keys (p ++ q)) ->
  fold_left (fun o kv => obj_set (fst kv) (snd kv) o) q p = p ++ q.
Proof.
  induction q as [|[k v] q IH]; intros p H; simpl.
  - symmetry. apply app_nil_r.
  - change (p ++ (k, v) :: q) with (p ++ [(k, v)] ++ q) in *.
    rewrite app_assoc in *.
    rewrite obj_set_append.
    + apply IH, H.
    + destruct H as [Hnd Hord]. unfold keys in *. rewrite map_app in Hnd, Hord.
      split.
      * apply NoDup_app_remove_r in Hnd. exact Hnd.
      * apply ForallOrdPairs_app_iff in Hord. tauto.
Qed.

(** Defining the properties of an object again, in its own order, gives
    the object back. *)
Lemma obj_of_list_id (l : list (jsstring * A)) :
  enumeration_order (keys l) -> obj_of_list l = l.
Proof. intros H. apply (obj_of_list_from_id l []). exact H. Qed.

End Facts.

End ObjectFacts.
Export ObjectFacts.

(** ** Rounding to binary64 *)

Module RoundFacts.

Lemma pow2_pos e : 0 <= e -> 0 < 2 ^ e.
Proof. intros H. apply Z.pow_pos_nonneg; lia. Qed.

Lemma ilog2_frac_spec n d :
  0 < d <= n ->
  0 <= ilog2_frac n d /\
  d * 2 ^ ilog2_frac n d <= n < d * 2 ^ (ilog2_frac n d + 1).
Proof.
  intros [Hd Hn]. unfold ilog2_frac.
  pose proof (Z.log2_spec n ltac:(lia)) as [Hn1 Hn2].
  pose proof (Z.log2_spec d Hd) as [Hd1 Hd2].
  pose proof (Z.log2_le_mono d n Hn) as Hle.
  pose proof (Z.log2_nonneg d) as Hlb.
  set (la := Z.log2 n) in *. set (lb := Z.log2 d) in *.
  set (k := la - lb).
  assert (Hk : 0 <= k) by (unfold k; lia).
  assert (Ela : la = lb + k) by (unfold k; lia).
  rewrite Ela in Hn1, Hn2.
  replace (Z.succ (lb + k)) with (lb + (k + 1)) in Hn2 by lia.
  replace (Z.succ lb) with (lb + 1) in Hd2 by lia.
  rewrite Z.pow_add_r in Hn1, Hn2, Hd2 by lia.
  pose proof (pow2_pos lb Hlb) as Pb.
  pose proof (pow2_pos k Hk) as Pk.
  destruct (Z.leb_spec (d * 2 ^ k) n) as [Hc|Hc].
  - split; [exact Hk|]. split; [exact Hc|].
    rewrite Z.pow_add_r in * by lia. change (2 ^ 1) with 2 in *.
    set (pb := 2 ^ lb) in *. set (pk := 2 ^ k) in *. nia.
  - assert (Hk1 : 1 <= k).
    { destruct (Z.eq_dec k 0) as [E|E]; [|lia].
      rewrite E in Hc. change (2 ^ 0) with 1 in Hc. lia. }
    split; [lia|].
    replace (k - 1 + 1) with k by lia. split; [|exact Hc].
    replace k with ((k - 1) + 1) in Hn1 by lia.
    rewrite Z.pow_add_r in Hn1 by lia. change (2 ^ 1) with 2 in *.
    pose proof (pow2_pos (k - 1) ltac:(lia)) as Pk1.
    set (pb := 2 ^ lb) in *. set (pk1 := 2 ^ (k - 1)) in *. nia.
Qed.

Lemma round_nearest_even_bounds q r b :
  q <= round_nearest_even q r b <= q + 1.
Proof.
  unfold round_nearest_even.
  destruct (2 * r <? b); [lia|].
  destruct (2 * r =? b); [destruct (Z.even q); lia | lia].
Qed.

Lemma round_nearest_even_exact q b : 0 < b -> round_nearest_even q 0 b = q.
Proof.
  intros H. unfold round_nearest_even.
  destruct (Z.ltb_spec (2 * 0) b); [reflexivity | lia].
Qed.

Lemma pow2_lt_inv a b : 0 <= a -> 0 <= b -> 2 ^ a < 2 ^ b -> a < b.
Proof. intros Ha Hb H. apply (Z.pow_lt_mono_r_iff 2); lia. Qed.

(** What [round_frac] returns is a binary64 value. *)
Lemma round_frac_wf neg num den :
  0 < num -> 0 < den -> wf_number (round_frac neg num den).
Proof.
  intros Hnum Hden. unfold round_frac.
  pose proof (pow2_pos 1074 ltac:(lia)) as HP.
  set (n := num * 2 ^ 1074).
  assert (Hn : 0 < n) by (unfold n; nia).
  clearbody n.
  destruct (Z.ltb_spec n den) as [Hlt|Hge].
  - change (Z.max 0 (-1 - 52)) with 0. change (2 ^ 0) with 1.
    rewrite Z.mul_1_r, Z.div_small, Z.mod_small by lia.
    pose proof (round_nearest_even_bounds 0 n den) as Hq.
    set (q := round_nearest_even 0 n den) in *.
    destruct (Z.eqb_spec q 0); [exact I|].
    assert (q = 1) by lia. subst q. rewrite H.
    replace (1 =? 2 ^ 53) with false by reflexivity.
    cbv beta iota zeta. change (0 - 1074 >? 971) with false. cbv iota.
    unfold wf_number, canonical.
    split; [split; [lia | reflexivity]|]. split; [lia | right; reflexivity].
  - destruct (ilog2_frac_spec n den ltac:(lia)) as (Hl0 & Hl1 & Hl2).
    set (l := ilog2_frac n den) in *. clearbody l.
    set (e := Z.max 0 (l - 52)).
    assert (He : 0 <= e) by (unfold e; lia).
    pose proof (pow2_pos e He) as Pe.
    set (b := den * 2 ^ e).
    assert (Hb : 0 < b) by (unfold b; nia).
    pose proof (Z.div_mod n b ltac:(lia)) as Hdm.
    pose proof (Z.mod_pos_bound n b Hb) as Hr.
    pose proof (round_nearest_even_bounds (n / b) (n mod b) b) as Hq.
    set (q := round_nearest_even (n / b) (n mod b) b) in *. clearbody q.
    set (q0 := n / b) in *. set (r := n mod b) in *. clearbody q0 r.
    assert (Hq0 : 1 <= q0 < 2 ^ 53 /\ (1 <= e -> 2 ^ 52 <= q0)).
    { destruct (Z.le_gt_cases 52 l) as [Hl|Hl].
      - assert (Ee : e = l - 52) by (unfold e; lia).
        assert (El : l = e + 52) by lia.
        rewrite El in Hl1, Hl2.
        replace (e + 52 + 1) with (e + 53) in Hl2 by lia.
        rewrite Z.pow_add_r in Hl1, Hl2 by lia.
        unfold b in *.
        set (pe := 2 ^ e) in *. clearbody pe.
        set (p52 := 2 ^ 52) in *. set (p53 := 2 ^ 53) in *.
        assert (0 < p52) by reflexivity.
        assert (p52 <= q0) by nia.
        split; [split; [lia | nia] | intros _; assumption].
      - assert (Ee : e = 0) by (unfold e; lia).
        unfold b in *. rewrite Ee in *. change (2 ^ 0) with 1 in *.
        rewrite Z.mul_1_r in *.
        assert (2 ^ (l + 1) <= 2 ^ 52) by (apply Z.pow_le_mono_r; lia).
        pose proof (pow2_pos (l + 1) ltac:(lia)).
        set (pl := 2 ^ (l + 1)) in *. clearbody pl.
        assert (2 ^ 52 < 2 ^ 53) by reflexivity.
        set (p52 := 2 ^ 52) in *. set (p53 := 2 ^ 53) in *.
        clearbody p52 p53.
        split; [split; nia | intros; lia]. }
    destruct Hq0 as [[Hq1 Hq2] Hq3].
    destruct (Z.eqb_spec q 0); [exact I|].
    assert (E5253 : 2 ^ 53 = 2 * 2 ^ 52) by reflexivity.
    assert (P52 : 0 < 2 ^ 52) by reflexivity.
    destruct (Z.eqb_spec q (2 ^ 53)) as [Eq|Nq].
    + destruct (Z.gtb_spec (e + 1 - 1074) 971); [exact I|].
      unfold wf_number, canonical.
      set (p52 := 2 ^ 52) in *. set (p53 := 2 ^ 53) in *. clearbody p52 p53.
      lia.
    + destruct (Z.gtb_spec (e - 1074) 971); [exact I|].
      unfold wf_number, canonical.
      set (p52 := 2 ^ 52) in *. set (p53 := 2 ^ 53) in *. clearbody p52 p53.
      destruct (Z.eq_dec e 0); lia.
Qed.

(** A rational that is a binary64 value is rounded to itself. *)
Lemma round_frac_exact neg num den m e :
  canonical m e -> 0 < den ->
  num * 2 ^ 1074 = m * 2 ^ (e + 1074) * den ->
  round_frac neg num den = Fin neg m e.
Proof.
  intros (Hm & He & Hnorm) Hden Hval. unfold round_frac.
  rewrite Hval. clear Hval num.
  set (e1 := e + 1074) in *.
  assert (He1 : 0 <= e1) by (unfold e1; lia).
  pose proof (pow2_pos e1 He1) as Pe1.
  assert (P52 : 0 < 2 ^ 52) by reflexivity.
  assert (E5253 : 2 ^ 53 = 2 * 2 ^ 52) by reflexivity.
  set (n := m * 2 ^ e1 * den).
  assert (Hn : den <= n).
  { unfold n. set (p := 2 ^ e1) in *. clearbody p.
    assert (1 <= m * p) by nia. nia. }
  destruct (Z.ltb_spec n den) as [Hlt|_]; [lia|].
  destruct (ilog2_frac_spec n den ltac:(lia)) as (Hl0 & Hl1 & Hl2).
  set (l := ilog2_frac n den) in *. clearbody l.
  assert (Hl : 2 ^ l <= m * 2 ^ e1 < 2 ^ (l + 1)).
  { unfold n in Hl1, Hl2. set (p := m * 2 ^ e1) in *. clearbody p.
    pose proof (pow2_pos l Hl0). pose proof (pow2_pos (l + 1) ltac:(lia)).
    set (pl := 2 ^ l) in *. set (pl1 := 2 ^ (l + 1)) in *. clearbody pl pl1.
    split; nia. }
  assert (Ee : Z.max 0 (l - 52) = e1).
  { destruct Hnorm as [Hnorm|Hsub].
    - assert (l = 52 + e1); [|lia].
      assert (l < 53 + e1).
      { apply pow2_lt_inv; [lia | lia |].
        rewrite (Z.pow_add_r 2 53 e1) by lia.
        set (p := 2 ^ e1) in *. set (pl := 2 ^ l) in *.
        set (p53 := 2 ^ 53) in *. clearbody p pl p53. nia. }
      assert (52 + e1 < l + 1); [|lia].
      apply pow2_lt_inv; [lia | lia |].
      rewrite (Z.pow_add_r 2 52 e1) by lia.
      set (p := 2 ^ e1) in *. set (pl1 := 2 ^ (l + 1)) in *.
      set (p52 := 2 ^ 52) in *. clearbody p pl1 p52. nia.
    - assert (e1 = 0) by (unfold e1; lia).
      assert (l < 53); [|lia].
      apply pow2_lt_inv; [lia | lia |].
      rewrite H in Hl. change (2 ^ 0) with 1 in Hl.
      set (pl := 2 ^ l) in *. set (p53 := 2 ^ 53) in *. clearbody pl p53. lia. }
  rewrite Ee.
  set (b := den * 2 ^ e1).
  assert (Hb : 0 < b) by (unfold b; nia).
  assert (En : n = m * b) by (unfold n, b; ring).
  rewrite En, Z.div_mul, Z.mod_mul by lia.
  rewrite round_nearest_even_exact by exact Hb.
  destruct (Z.eqb_spec m 0); [lia|].
  destruct (Z.eqb_spec m (2 ^ 53)); [lia|].
  replace (e1 - 1074) with e by (unfold e1; lia).
  destruct (Z.gtb_spec e 971); [lia | reflexivity].
Qed.

Lemma round_dec_wf neg mant expo :
  0 <= mant -> wf_number (round_dec neg mant expo).
Proof.
  intros H. unfold round_dec.
  destruct (Z.eqb_spec mant 0); [exact I|].
  destruct (Z.leb_spec 0 expo).
  - apply round_frac_wf; [|lia].
    apply Z.mul_pos_pos; [lia | apply Z.pow_pos_nonneg; lia].
  - apply round_frac_wf; [lia | apply Z.pow_pos_nonneg; lia].
Qed.

End RoundFacts.
Export RoundFacts.

(** ** The digits of Number::toString *)

Module ShortestFacts.

Lemma pow10_pos e : 0 <= e -> 0 < 10 ^ e.
Proof. intros H. apply Z.pow_pos_nonneg; lia. Qed.

Lemma strip_zeros_spec fuel : forall d t s t',
  0 < d -> strip_zeros fuel d t = (s, t') ->
  exists j, 0 <= j /\ d = s * 10 ^ j /\ t' = t + j /\ 0 < s.
Proof.
  induction fuel as [|f IH]; intros d t s t' Hd H; simpl in H.
  - inversion H; subst. exists 0. change (10 ^ 0) with 1. lia.
  - destruct (Z.eqb_spec (d mod 10) 0) as [E|E].
    + pose proof (Z.div_mod d 10 ltac:(lia)) as Hdm.
      apply IH in H; [|lia].
      destruct H as (j & Hj & E1 & E2 & Hs).
      exists (j + 1). rewrite Z.pow_add_r by lia. change (10 ^ 1) with 10.
      repeat split; try lia.
    + inversion H; subst. exists 0. change (10 ^ 0) with 1. lia.
Qed.

Lemma round_frac_sign neg num den b m e :
  round_frac neg num den = Fin b m e -> b = neg.
Proof.
  unfold round_frac.
  destruct (_ =? 0); [discriminate|].
  destruct (_ =? 2 ^ 53); cbv beta iota zeta;
    (destruct (_ >? 971); [discriminate|]); intros H; inversion H; reflexivity.
Qed.

Lemma round_dec_sign neg s x b m e :
  round_dec neg s x = Fin b m e -> b = neg.
Proof.
  unfold round_dec. destruct (s =? 0); [discriminate|].
  destruct (0 <=? x); apply round_frac_sign.
Qed.

(** The exact expansion denotes the number itself. *)
Lemma exact_decimal_round neg m e s t :
  canonical m e -> exact_decimal m e = (s, t) ->
  0 < s /\ round_dec neg s t = Fin neg m e.
Proof.
  intros Hc H. pose proof Hc as (Hm & He & _).
  unfold exact_decimal in H.
  destruct (Z.leb_spec 0 e) as [Hpos|Hneg].
  - apply strip_zeros_spec in H.
    2:{ apply Z.mul_pos_pos; [lia | apply pow2_pos; lia]. }
    destruct H as (j & Hj & E1 & E2 & Hs). split; [exact Hs|].
    unfold round_dec. destruct (Z.eqb_spec s 0); [lia|].
    destruct (Z.leb_spec 0 t); [|lia].
    replace t with j by lia. rewrite <- E1.
    apply round_frac_exact; [exact Hc | lia |].
    rewrite Z.pow_add_r by lia. ring.
  - apply strip_zeros_spec in H.
    2:{ apply Z.mul_pos_pos; [lia | apply Z.pow_pos_nonneg; lia]. }
    destruct H as (j & Hj & E1 & E2 & Hs). split; [exact Hs|].
    unfold round_dec. destruct (Z.eqb_spec s 0); [lia|].
    set (a := - e) in *. assert (Ha : 0 < a) by (unfold a; lia).
    assert (E10 : 10 ^ a = 2 ^ a * 5 ^ a).
    { change 10 with (2 * 5). apply Z.pow_mul_l. }
    assert (E2a : 2 ^ 1074 = 2 ^ a * 2 ^ (e + 1074)).
    { rewrite <- Z.pow_add_r by lia. f_equal. unfold a. lia. }
    pose proof (pow2_pos a ltac:(lia)) as P2.
    assert (P5 : 0 < 5 ^ a) by (apply Z.pow_pos_nonneg; lia).
    pose proof (pow2_pos (e + 1074) ltac:(lia)) as P2e.
    destruct (Z.leb_spec 0 t) as [Ht|Ht].
    + apply round_frac_exact; [exact Hc | lia |].
      assert (Ej : 10 ^ j = 10 ^ t * 10 ^ a).
      { rewrite <- Z.pow_add_r by lia. f_equal. unfold a. lia. }
      pose proof (pow10_pos t Ht) as Pt.
      rewrite Ej, E10 in E1. rewrite E2a.
      set (p2 := 2 ^ a) in *. set (p5 := 5 ^ a) in *.
      set (pt := 10 ^ t) in *. set (pe := 2 ^ (e + 1074)) in *.
      clearbody p2 p5 pt pe.
      assert (m = s * pt * p2) by nia. subst m. ring.
    + apply round_frac_exact; [exact Hc | apply pow10_pos; lia |].
      assert (Ej : 10 ^ a = 10 ^ (- t) * 10 ^ j).
      { rewrite <- Z.pow_add_r by lia. f_equal. unfold a. lia. }
      pose proof (pow10_pos (- t) ltac:(lia)) as Pt.
      pose proof (pow10_pos j Hj) as Pj.
      rewrite E2a.
      set (p2 := 2 ^ a) in *. set (p5 := 5 ^ a) in *.
      set (pt := 10 ^ (- t)) in *. set (pe := 2 ^ (e + 1074)) in *.
      set (pj := 10 ^ j) in *. set (pa := 10 ^ a) in *.
      clearbody p2 p5 pt pe pj pa.
      apply (Z.mul_cancel_r _ _ pj); [lia|].
      transitivity (m * pe * (pt * pj)); [|ring].
      rewrite <- Ej, E10.
      transitivity ((s * pj) * (p2 * pe)); [ring|].
      rewrite <- E1. ring.
Qed.

Lemma represents_good m e s n :
  0 <= s -> represents m e s n = true -> good m e s n.
Proof.
  unfold represents, good. intros Hs H.
  destruct (round_dec false s _) as [| |z|b m' e'] eqn:E; try discriminate.
  apply andb_prop in H. destruct H as [H1 H2].
  apply Z.eqb_eq in H1. apply Z.eqb_eq in H2. subst.
  pose proof (round_dec_sign _ _ _ _ _ _ E) as ->.
  split; [|reflexivity].
  destruct (Z.eq_dec s 0) as [->|]; [|lia].
  unfold round_dec in E. simpl in E. discriminate.
Qed.

Lemma shortest_search_good fuel : forall k m e sx nx kx,
  good m e sx nx ->
  good m e (fst (shortest_search fuel k m e sx nx kx))
           (snd (shortest_search fuel k m e sx nx kx)).
Proof.
  induction fuel as [|f IH]; intros k m e sx nx kx Hx.
  - exact Hx.
  - cbn [shortest_search].
    set (w := 10 ^ (kx - k)).
    assert (Hlo : 0 <= sx / w).
    { destruct Hx as [Hx _]. apply Z_div_nonneg_nonneg; [lia|].
      unfold w. apply Z.pow_nonneg. lia. }
    set (c_hi := if sx / w + 1 =? 10 ^ k then (10 ^ (k - 1), nx + 1)
                 else (sx / w + 1, nx)).
    assert (Hhi : 0 <= fst c_hi).
    { unfold c_hi. destruct (_ =? _); simpl; [|lia].
      apply Z.pow_nonneg. lia. }
    destruct ((2 * (sx mod w) <? w) || ((2 * (sx mod w) =? w) && Z.even (sx / w))).
    + cbn [fst snd].
      destruct (represents m e (sx / w) nx) eqn:E1.
      { apply represents_good; assumption. }
      destruct (represents m e (fst c_hi) (snd c_hi)) eqn:E2.
      { apply represents_good; assumption. }
      apply IH, Hx.
    + destruct (represents m e (fst c_hi) (snd c_hi)) eqn:E2.
      { apply represents_good; assumption. }
      cbn [fst snd].
      destruct (represents m e (sx / w) nx) eqn:E1.
      { apply represents_good; assumption. }
      apply IH, Hx.
Qed.

(** The digits Number::toString chooses denote the number. *)
Lemma shortest_good m e :
  canonical m e -> good m e (fst (shortest m e)) (snd (shortest m e)).
Proof.
  intros Hc. unfold shortest.
  destruct (exact_decimal m e) as [sx tx] eqn:E.
  destruct (exact_decimal_round false m e sx tx Hc E) as [Hs Hr].
  apply shortest_search_good. split; [exact Hs|].
  replace (_ + tx - _) with tx by lia. exact Hr.
Qed.

End ShortestFacts.
Export ShortestFacts.

(** ** The four layouts of a number text and the number grammar *)

Module NumberText.

Lemma number_end_no_digit rest : number_end rest -> no_digit_ahead rest.
Proof. destruct rest; simpl; tauto. Qed.

Lemma digit_not c k : is_digit c = true -> is_digit k = false -> (c =? k)%N = false.
Proof.
  intros Hc Hk. destruct (N.eqb_spec c k); [congruence | reflexivity].
Qed.

Lemma span_frac_none rest : number_end rest -> span_frac rest = Some ([], rest).
Proof.
  destruct rest as [|c r]; [reflexivity|].
  cbn [number_end span_frac]. intros (_ & H & _).
  destruct (N.eqb_spec c (ch ".")); [contradiction | reflexivity].
Qed.

Lemma span_exp_none rest : number_end rest -> span_exp rest = Some (0, rest).
Proof.
  destruct rest as [|c r]; [reflexivity|].
  cbn [number_end span_exp]. intros (_ & _ & H1 & H2).
  destruct (N.eqb_spec c (ch "e")); [contradiction|].
  destruct (N.eqb_spec c (ch "E")); [contradiction | reflexivity].
Qed.

Lemma span_frac_some fd rest :
  fd <> [] -> forallb is_digit fd = true -> no_digit_ahead rest ->
  span_frac (ch "." :: fd ++ rest) = Some (fd, rest).
Proof.
  intros Hne Hd Hr. cbn [span_frac]. ground_chars.
  rewrite span_digits_app by assumption.
  destruct fd; [contradiction | reflexivity].
Qed.

Lemma span_exp_some x rest :
  no_digit_ahead rest ->
  span_exp (ch "e" :: (if x <? 0 then ch "-" else ch "+")
              :: to_digits (Z.abs x) ++ rest) = Some (x, rest).
Proof.
  intros Hr. cbn [span_exp]. ground_chars.
  assert (Hs : span_digits (to_digits (Z.abs x) ++ rest)
               = (to_digits (Z.abs x), rest)).
  { apply span_digits_app; [apply to_digits_digits; lia | exact Hr]. }
  pose proof (to_digits_nonempty (Z.abs x)) as Hne.
  pose proof (to_digits_val (Z.abs x) ltac:(lia)) as Hv.
  destruct (Z.ltb_spec x 0); ground_chars; rewrite Hs;
    destruct (to_digits (Z.abs x)) eqn:E; try contradiction;
    rewrite Hv; do 2 f_equal; lia.
Qed.

Lemma span_int_digits d ds rest :
  forallb is_digit (d :: ds) = true -> d <> ch "0" -> no_digit_ahead rest ->
  span_int ((d :: ds) ++ rest) = Some (d :: ds, rest).
Proof.
  intros Hd Hz Hr. cbn [span_int app].
  destruct (N.eqb_spec d (ch "0")); [contradiction|].
  pose proof Hd as Hd'. cbn [forallb] in Hd'. apply andb_prop in Hd'.
  destruct Hd' as [Hd1 _]. rewrite Hd1.
  change (d :: ds ++ rest) with ((d :: ds) ++ rest).
  rewrite span_digits_app by assumption. reflexivity.
Qed.

Lemma digits_val_zeros j : digits_val (repeat (ch "0") j) = 0.
Proof.
  induction j as [|j IH]; [reflexivity|].
  change (repeat (ch "0") (S j)) with ([ch "0"] ++ repeat (ch "0") j).
  rewrite digits_val_app, IH. reflexivity.
Qed.

Lemma zeros_digits j : forallb is_digit (repeat (ch "0") j) = true.
Proof. induction j as [|j IH]; [reflexivity | exact IH]. Qed.

Lemma no_digit_ahead_cons c s : is_digit c = false -> no_digit_ahead (c :: s).
Proof. intros H. exact H. Qed.

Lemma parse_number_sign neg d s :
  is_digit d = true ->
  parse_number (sign_text neg ++ d :: s) =
    match span_int (d :: s) with
    | None => None
    | Some (ip, s2) =>
        match span_frac s2 with
        | None => None
        | Some (fd, s3) =>
            match span_exp s3 with
            | None => None
            | Some (ex, s4) =>
                Some (round_dec neg (digits_val (ip ++ fd))
                        (ex - Z.of_nat (length fd)), s4)
            end
        end
    end.
Proof.
  intros Hd. unfold parse_number. destruct neg; cbn [sign_text app].
  - ground_chars. reflexivity.
  - rewrite (digit_not d (ch "-") Hd eq_refl). reflexivity.
Qed.

Lemma round_dec_scale neg s j :
  0 <= j -> round_dec neg (s * 10 ^ j) 0 = round_dec neg s j.
Proof.
  intros Hj. unfold round_dec.
  pose proof (Z.pow_pos_nonneg 10 j ltac:(lia) Hj) as P.
  destruct (Z.eqb_spec s 0) as [->|Hs].
  - reflexivity.
  - destruct (Z.eqb_spec (s * 10 ^ j) 0) as [E|_]; [nia|].
    change (0 <=? 0) with true. cbv iota.
    destruct (Z.leb_spec 0 j); [|lia].
    change (10 ^ 0) with 1. rewrite Z.mul_1_r. reflexivity.
Qed.

(** A decimal text in any of the four layouts is read as the number its
    digits and exponent denote. *)
Lemma parse_format neg d ds n rest :
  forallb is_digit (d :: ds) = true -> d <> ch "0" -> number_end rest ->
  parse_number (sign_text neg ++ format_decimal (d :: ds) n ++ rest) =
    Some (round_dec neg (digits_val (d :: ds))
            (n - Z.of_nat (length (d :: ds))), rest).
Proof.
  intros Hd Hz Hr.
  pose proof (number_end_no_digit rest Hr) as Hnd.
  pose proof Hd as Hd'. cbn [forallb] in Hd'. apply andb_prop in Hd'.
  destruct Hd' as [Hd1 Hds].
  set (k := Z.of_nat (length (d :: ds))).
  assert (Hk : k = Z.of_nat (length ds) + 1).
  { unfold k. cbn [length]. lia. }
  unfold format_decimal. fold k.
  destruct ((k <=? n) && (n <=? 21)) eqn:C1.
  { (* digits followed by zeros *)
    apply andb_prop in C1. destruct C1 as [C1 _]. apply Z.leb_le in C1.
    rewrite <- app_assoc. cbn [app].
    rewrite parse_number_sign by exact Hd1.
    change (d :: ds ++ ?x) with ((d :: ds) ++ x).
    rewrite app_assoc.
    set (zs := repeat (ch "0") (Z.to_nat (n - k))).
    change (d :: (ds ++ zs)) with ((d :: ds) ++ zs).
    assert (Hall : forallb is_digit ((d :: ds) ++ zs) = true).
    { rewrite forallb_app, Hd. apply zeros_digits. }
    change ((d :: ds) ++ zs) with (d :: (ds ++ zs)) in Hall |- *.
    rewrite (span_int_digits d (ds ++ zs) rest Hall Hz Hnd).
    rewrite span_frac_none, span_exp_none by exact Hr.
    rewrite app_nil_r. cbn [length]. f_equal. f_equal.
    change (d :: (ds ++ zs)) with ((d :: ds) ++ zs).
    rewrite digits_val_app. unfold zs.
    rewrite digits_val_zeros, repeat_length, Z2Nat.id, Z.add_0_r by lia.
    change (0 - Z.of_nat 0) with 0.
    apply round_dec_scale. lia. }
  destruct ((0 <? n) && (n <=? 21)) eqn:C2.
  { (* the point inside the digits *)
    apply andb_prop in C2. destruct C2 as [C2 C2']. apply Z.ltb_lt in C2.
    apply Z.leb_le in C2'.
    assert (Hnk : n < k).
    { destruct (Z.leb_spec k n) as [H|H]; [|exact H].
      destruct (Z.leb_spec n 21); [discriminate C1 | lia]. }
    destruct (Z.to_nat n) as [|n'] eqn:En; [lia|].
    cbn [firstn skipn]. rewrite <- app_assoc. cbn [app].
    rewrite parse_number_sign by exact Hd1.
    assert (Hf : forallb is_digit (firstn n' ds) = true).
    { rewrite <- (firstn_skipn n' ds), forallb_app in Hds.
      apply andb_prop in Hds. tauto. }
    assert (Hs : forallb is_digit (skipn n' ds) = true).
    { rewrite <- (firstn_skipn n' ds), forallb_app in Hds.
      apply andb_prop in Hds. tauto. }
    change (d :: firstn n' ds ++ ?x) with ((d :: firstn n' ds) ++ x).
    rewrite span_int_digits;
      [| cbn [forallb]; rewrite Hd1, Hf; reflexivity | exact Hz
       | apply no_digit_ahead_cons; reflexivity].
    assert (Hlen : (n' < length ds)%nat) by lia.
    rewrite span_frac_some; [| | exact Hs | exact Hnd].
    2:{ intros E. apply (f_equal (@length _)) in E.
        rewrite length_skipn in E. simpl in E. lia. }
    rewrite span_exp_none by exact Hr.
    f_equal. f_equal. f_equal.
    - cbn [app]. rewrite firstn_skipn. reflexivity.
    - rewrite length_skipn. lia. }
  destruct ((-6 <? n) && (n <=? 0)) eqn:C3.
  { (* zeros between the point and the digits *)
    apply andb_prop in C3. destruct C3 as [_ C3]. apply Z.leb_le in C3.
    cbn [app]. rewrite <- app_assoc.
    rewrite parse_number_sign by reflexivity.
    cbn [span_int]. ground_chars.
    set (zs := repeat (ch "0") (Z.to_nat (- n))).
    rewrite app_assoc.
    rewrite span_frac_some; [| | | exact Hnd].
    2:{ destruct zs; discriminate. }
    2:{ rewrite forallb_app, Hd. unfold zs. rewrite zeros_digits. reflexivity. }
    rewrite span_exp_none by exact Hr.
    f_equal. f_equal. f_equal.
    - change ([ch "0"] ++ zs ++ d :: ds) with (([ch "0"] ++ zs) ++ d :: ds).
      change ([ch "0"] ++ zs) with (repeat (ch "0") (S (Z.to_nat (- n)))).
      rewrite digits_val_app, digits_val_zeros. reflexivity.
    - rewrite length_app. unfold zs. rewrite repeat_length. fold k. lia. }
  (* exponent notation *)
  assert (Hx : span_exp
                 (ch "e" :: (if n - 1 <? 0 then ch "-" else ch "+")
                    :: to_digits (Z.abs (n - 1)) ++ rest) = Some (n - 1, rest))
    by (apply span_exp_some; exact Hnd).
  destruct ds as [|d2 ds].
  - cbn [app].
    rewrite parse_number_sign by exact Hd1.
    change (d :: ?x) with ([d] ++ x) at 1.
    rewrite span_int_digits;
      [| exact Hd | exact Hz | apply no_digit_ahead_cons; reflexivity].
    cbn [span_frac]. ground_chars. rewrite Hx.
    f_equal. f_equal. f_equal. unfold k. cbn [length]. lia.
  - cbn [app]. rewrite <- app_assoc. cbn [app].
    rewrite parse_number_sign by exact Hd1.
    change (d :: ?x) with ([d] ++ x) at 1.
    rewrite span_int_digits;
      [| cbn [forallb]; rewrite Hd1; reflexivity | exact Hz
       | apply no_digit_ahead_cons; reflexivity].
    change (d2 :: ds ++ ?x) with ((d2 :: ds) ++ x).
    rewrite span_frac_some;
      [| discriminate | exact Hds | apply no_digit_ahead_cons; reflexivity].
    rewrite Hx. f_equal. f_equal. f_equal.
    unfold k. cbn [length]. lia.
Qed.

End NumberText.
Export NumberText.

(** ** Number::toString, then the number grammar *)

Module NumberRoundTrip.

Lemma round_frac_flip neg num den m e :
  round_frac false num den = Fin false m e ->
  round_frac neg num den = Fin neg m e.
Proof.
  unfold round_frac.
  destruct (_ =? 0); [discriminate|].
  destruct (_ =? 2 ^ 53); cbv beta iota zeta;
    (destruct (_ >? 971); [discriminate|]);
    intros H; inversion H; reflexivity.
Qed.

Lemma round_dec_flip neg s x m e :
  round_dec false s x = Fin false m e -> round_dec neg s x = Fin neg m e.
Proof.
  unfold round_dec. destruct (s =? 0); [discriminate|].
  destruct (0 <=? x); apply round_frac_flip.
Qed.

Lemma format_decimal_head d ds n :
  exists c t, format_decimal (d :: ds) n = c :: t /\ (c = d \/ c = ch "0").
Proof.
  unfold format_decimal.
  destruct (_ && _).
  { exists d, (ds ++ repeat (ch "0") (Z.to_nat (n - Z.of_nat (length (d :: ds))))).
    split; [reflexivity | left; reflexivity]. }
  destruct (_ && _) eqn:C.
  { apply andb_prop in C. destruct C as [C _]. apply Z.ltb_lt in C.
    destruct (Z.to_nat n) eqn:E; [lia|].
    cbn [firstn app]. eexists _, _. split; [reflexivity | left; reflexivity]. }
  clear C. destruct (_ && _).
  { eexists _, _. split; [reflexivity | right; reflexivity]. }
  destruct ds; eexists _, _; (split; [reflexivity | left; reflexivity]).
Qed.

(** The text of a finite number starts with a sign or a digit. *)
Lemma number_text_head x :
  wf_number x -> is_finite x = true ->
  exists c t, Number_toString x = c :: t /\ (c = ch "-" \/ is_digit c = true).
Proof.
  destruct x as [| |z|neg m e]; try discriminate; intros Hwf _.
  - exists (ch "0"), []. split; [reflexivity | right; reflexivity].
  - cbn [Number_toString].
    pose proof (shortest_good m e Hwf) as [Hs _].
    destruct (shortest m e) as [s n]. cbn [fst snd] in Hs.
    destruct (to_digits_head s Hs) as (d & ds & E & Hd).
    pose proof (to_digits_digits s ltac:(lia)) as Hall.
    rewrite E in *. cbn [forallb] in Hall. apply andb_prop in Hall.
    destruct neg.
    + eexists _, _. split; [reflexivity | left; reflexivity].
    + destruct (format_decimal_head d ds n) as (c & t & E' & Hc).
      rewrite E'. exists c, t. split; [reflexivity | right].
      destruct Hc as [-> | ->]; [tauto | reflexivity].
Qed.

(** Number::toString followed by the number grammar of JSON.parse. *)
Lemma parse_number_toString x rest :
  wf_number x -> is_finite x = true -> number_end rest ->
  parse_number (Number_toString x ++ rest) = Some (reparsed_number x, rest).
Proof.
  destruct x as [| |z|neg m e]; try discriminate; intros Hwf _ Hr.
  - change (Number_toString (Zero z) ++ rest)
      with (sign_text false ++ ch "0" :: rest).
    rewrite parse_number_sign by reflexivity.
    cbn [span_int]. ground_chars.
    rewrite span_frac_none, span_exp_none by exact Hr. reflexivity.
  - cbn [Number_toString reparsed_number].
    pose proof (shortest_good m e Hwf) as [Hs Hg].
    destruct (shortest m e) as [s n]. cbn [fst snd] in Hs, Hg.
    destruct (to_digits_head s Hs) as (d & ds & E & Hd).
    pose proof (to_digits_digits s ltac:(lia)) as Hall.
    pose proof (to_digits_val s ltac:(lia)) as Hv.
    rewrite E in *.
    change (if neg then [ch "-"] else []) with (sign_text neg).
    rewrite <- app_assoc, parse_format by assumption.
    rewrite Hv. f_equal. f_equal. apply round_dec_flip, Hg.
Qed.

End NumberRoundTrip.
Export NumberRoundTrip.

(** ** Values *)

Module ValueFacts.

(** Induction on values, with the hypothesis for every element of an array
    and every property of an object. *)
Lemma value_ind (P : value -> Prop) :
  P JNull ->
  (forall b, P (JBool b)) ->
  (forall x, P (JNum x)) ->
  (forall s, P (JStr s)) ->
  (forall l, Forall P l -> P (JArr l)) ->
  (forall l, Forall (fun kv => P (snd kv)) l -> P (JObj l)) ->
  forall v, P v.
Proof.
  intros Hnull Hbool Hnum Hstr Harr Hobj.
  fix IH 1. intros [| b | x | s | l | l].
  - exact Hnull.
  - apply Hbool.
  - apply Hnum.
  - apply Hstr.
  - apply Harr. induction l as [|v l IHl]; constructor; [apply IH | exact IHl].
  - apply Hobj. induction l as [|[k v] l IHl]; constructor; [apply IH | exact IHl].
Qed.

Lemma wf_arr l : wf_value (JArr l) <-> Forall wf_value l.
Proof.
  cbn [wf_value]. induction l as [|v l IH]; simpl.
  - split; constructor.
  - rewrite IH. split.
    + intros [H1 H2]. constructor; assumption.
    + intros H. inversion H; subst. tauto.
Qed.

Lemma wf_obj l :
  wf_value (JObj l) <->
  enumeration_order (keys l) /\ Forall (fun kv => wf_value (snd kv)) l.
Proof.
  cbn [wf_value].
  assert (E : fold_right (fun kv acc => wf_value (snd kv) /\ acc) True l
              <-> Forall (fun kv => wf_value (snd kv)) l).
  { induction l as [|kv l IH]; simpl.
    - split; constructor.
    - rewrite IH. split.
      + intros [H1 H2]. constructor; assumption.
      + intros H. inversion H; subst. tauto. }
  rewrite E. reflexivity.
Qed.

Lemma digit_value_start c : is_digit c = true -> value_start c.
Proof.
  intros H. unfold value_start, is_ws.
  rewrite !(digit_not c _ H) by reflexivity. repeat split.
Qed.

Lemma stringify_head v :
  wf_value v -> exists c t, json_text v = c :: t /\ value_start c.
Proof.
  destruct v as [| [|] | x | s | l | l]; intros Hwf;
    try (eexists _, _; split; [reflexivity | repeat split]).
  cbn [json_text]. destruct (is_finite x) eqn:Hf.
  - destruct (number_text_head x Hwf Hf) as (c & t & E & Hc).
    exists c, t. split; [exact E|].
    destruct Hc as [->|Hc]; [repeat split | apply digit_value_start, Hc].
  - eexists _, _. split; [reflexivity | repeat split].
Qed.

Lemma skip_ws_start c s : value_start c -> skip_ws (c :: s) = c :: s.
Proof. intros (H & _). cbn [skip_ws]. rewrite H. reflexivity. Qed.

Lemma skip_ws_value v rest :
  wf_value v -> skip_ws (json_text v ++ rest) = json_text v ++ rest.
Proof.
  intros H. destruct (stringify_head v H) as (c & t & E & Hc).
  rewrite E. apply skip_ws_start, Hc.
Qed.

End ValueFacts.
Export ValueFacts.

(** ** JSON.stringify, then the value grammar *)

Module RoundTrip.

Lemma join_comma_cons a b l :
  join_comma (a :: b :: l) = a ++ ch "," :: join_comma (b :: l).
Proof. reflexivity. Qed.

Lemma number_end_delimiter c rest :
  c = ch "," \/ c = ch "]" \/ c = ch "}" -> number_end (c :: rest).
Proof. intros [->|[->| ->]]; repeat split; discriminate. Qed.

Lemma parse_elements_stringify l :
  Forall (fun v => wf_value v /\ parses_back v) l -> l <> [] ->
  forall fuel rest,
    (length l + list_sum (map fuel_of l) <= fuel)%nat ->
    parse_elements fuel (join_comma (map json_text l) ++ ch "]" :: rest)
    = Some (map reparsed l, rest).
Proof.
  induction l as [|v l IH]; intros Hall Hne fuel rest Hfuel; [contradiction|].
  inversion Hall as [|? ? [Hwf Hv] Hl]; subst.
  cbn [length map list_sum fold_right] in Hfuel.
  destruct fuel as [|f]; [lia|].
  cbn [parse_elements].
  destruct l as [|v2 l].
  - cbn [map join_comma].
    rewrite Hv; [| lia | apply number_end_delimiter; tauto].
    cbn [skip_ws]. ground_chars. reflexivity.
  - cbn [map]. rewrite join_comma_cons, <- app_assoc. cbn [app].
    rewrite Hv; [| lia | apply number_end_delimiter; tauto].
    cbn [skip_ws]. ground_chars.
    inversion Hl as [|? ? [Hwf2 _] _]; subst.
    change (json_text v2 :: map json_text l)
      with (map json_text (v2 :: l)).
    assert (Hs : skip_ws (join_comma (map json_text (v2 :: l))
                            ++ ch "]" :: rest)
                 = join_comma (map json_text (v2 :: l)) ++ ch "]" :: rest).
    { destruct l as [|v3 l]; cbn [map].
      - cbn [join_comma]. apply skip_ws_value, Hwf2.
      - rewrite join_comma_cons, <- app_assoc. apply skip_ws_value, Hwf2. }
    rewrite Hs, IH; [reflexivity | exact Hl | discriminate |].
    cbn [length map list_sum fold_right] in *. lia.
Qed.

Lemma parse_members_stringify (l : list (jsstring * value)) :
  Forall (fun kv => wf_value (snd kv) /\ parses_back (snd kv)) l -> l <> [] ->
  forall fuel rest,
    (length l + list_sum (map (fun kv => fuel_of (snd kv)) l) <= fuel)%nat ->
    parse_members fuel (join_comma (map member_text l) ++ ch "}" :: rest)
    = Some (map (fun kv => (fst kv, reparsed (snd kv))) l, rest).
Proof.
  induction l as [|[k v] l IH]; intros Hall Hne fuel rest Hfuel; [contradiction|].
  inversion Hall as [|? ? [Hwf Hv] Hl]; subst. cbn [snd] in Hwf, Hv.
  cbn [length map list_sum fold_right snd] in Hfuel.
  destruct fuel as [|f]; [lia|].
  assert (Hkey : forall t,
    parse_members (S f) (member_text (k, v) ++ t) =
      match parse_value f (json_text v ++ t) with
      | Some (v', r2) =>
          match skip_ws r2 with
          | c3 :: r3 =>
              if (c3 =? ch ",")%N then
                match parse_members f (skip_ws r3) with
                | Some (l', r4) => Some ((k, v') :: l', r4)
                | None => None
                end
              else if (c3 =? ch "}")%N then Some ([(k, v')], r3)
              else None
          | [] => None
          end
      | None => None
      end).
  { intros t. unfold member_text, QuoteJSONString. cbn [fst snd].
    cbn [app parse_members]. ground_chars.
    rewrite <- !app_assoc. cbn [app].
    rewrite parse_quoted. cbn [skip_ws]. ground_chars.
    rewrite skip_ws_value by exact Hwf. reflexivity. }
  destruct l as [|kv2 l].
  - cbn [map join_comma]. rewrite Hkey.
    rewrite Hv; [| lia | apply number_end_delimiter; tauto].
    cbn [skip_ws]. ground_chars. reflexivity.
  - cbn [map]. rewrite join_comma_cons, <- app_assoc. cbn [app].
    rewrite Hkey.
    rewrite Hv; [| lia | apply number_end_delimiter; tauto].
    cbn [skip_ws]. ground_chars.
    change (member_text kv2 :: map member_text l)
      with (map member_text (kv2 :: l)).
    assert (Hs : skip_ws (join_comma (map member_text (kv2 :: l))
                            ++ ch "}" :: rest)
                 = join_comma (map member_text (kv2 :: l)) ++ ch "}" :: rest).
    { cbn [map]. destruct l as [|kv3 l]; reflexivity. }
    rewrite Hs, IH; [reflexivity | exact Hl | discriminate |].
    cbn [length map list_sum fold_right] in *. lia.
Qed.

(** The text of a value is parsed to the value as read back. *)
Lemma parse_stringify v : wf_value v -> parses_back v.
Proof.
  induction v as [| b | x | s | l IH | l IH] using value_ind;
    intros Hwf fuel rest Hfuel Hrest;
    (destruct fuel as [|f]; [cbn [fuel_of] in Hfuel; lia|]).
  - reflexivity.
  - destruct b; reflexivity.
  - cbn [json_text reparsed]. destruct (is_finite x) eqn:Hf; [|reflexivity].
    pose proof (parse_number_toString x rest Hwf Hf Hrest) as Hp.
    destruct (number_text_head x Hwf Hf) as (c & t & E & Hc).
    rewrite E in *. cbn [app parse_value] in *.
    assert (Hd : (c =? ch "[")%N = false /\ (c =? ch "{")%N = false
                 /\ (c =? c_quote)%N = false /\ (c =? ch "t")%N = false
                 /\ (c =? ch "f")%N = false /\ (c =? ch "n")%N = false).
    { destruct Hc as [->|Hc]; [repeat split|].
      rewrite !(digit_not c _ Hc) by reflexivity. repeat split. }
    destruct Hd as (-> & -> & -> & -> & -> & ->).
    rewrite Hp. reflexivity.
  - cbn [json_text reparsed]. unfold QuoteJSONString.
    cbn [app parse_value]. ground_chars.
    rewrite <- app_assoc. cbn [app]. rewrite parse_quoted. reflexivity.
  - apply wf_arr in Hwf.
    assert (Hall : Forall (fun v => wf_value v /\ parses_back v) l).
    { rewrite Forall_forall in *. intros v Hv. split; [apply Hwf, Hv|].
      apply IH; [exact Hv | apply Hwf, Hv]. }
    cbn [json_text reparsed fuel_of] in *.
    cbn [app parse_value]. ground_chars.
    rewrite <- app_assoc. cbn [app].
    destruct l as [|v l].
    + cbn [map join_comma app skip_ws]. ground_chars. reflexivity.
    + assert (Hs : exists c t,
        join_comma (map json_text (v :: l)) ++ ch "]" :: rest = c :: t
        /\ value_start c).
      { inversion Hall as [|? ? [Hwfv _] _]; subst.
        destruct (stringify_head v Hwfv) as (c & t & E & Hc).
        destruct l as [|v2 l]; cbn [map].
        - cbn [join_comma]. rewrite E. eexists _, _. split; [reflexivity | exact Hc].
        - rewrite join_comma_cons, E. eexists _, _. split; [reflexivity | exact Hc]. }
      destruct Hs as (c & t & E & Hc).
      rewrite E, (skip_ws_start c t Hc).
      destruct Hc as (_ & -> & _). rewrite <- E.
      rewrite parse_elements_stringify; [reflexivity | exact Hall | discriminate | lia].
  - apply wf_obj in Hwf. destruct Hwf as [Hord Hwf].
    assert (Hall : Forall (fun kv => wf_value (snd kv) /\ parses_back (snd kv)) l).
    { rewrite Forall_forall in *. intros kv Hkv. split; [apply Hwf, Hkv|].
      apply IH; [exact Hkv | apply Hwf, Hkv]. }
    cbn [json_text reparsed fuel_of] in *.
    cbn [app parse_value]. ground_chars.
    rewrite <- app_assoc. cbn [app].
    change (map (fun kv => QuoteJSONString (fst kv) ++ ch ":" :: json_text (snd kv)) l)
      with (map member_text l).
    destruct l as [|kv l].
    + cbn [map join_comma app skip_ws]. ground_chars. reflexivity.
    + assert (Hs : exists t,
        join_comma (map member_text (kv :: l)) ++ ch "}" :: rest = c_quote :: t).
      { cbn [map]. destruct l as [|kv2 l]; eexists; reflexivity. }
      destruct Hs as (t & E).
      rewrite E. cbn [skip_ws]. ground_chars. rewrite <- E.
      rewrite parse_members_stringify; [| exact Hall | discriminate | lia].
      rewrite obj_of_list_id; [reflexivity|].
      unfold keys in *. rewrite map_map. cbn [fst].
      exact Hord.
Qed.

End RoundTrip.
Export RoundTrip.

(** ** JSON.parse after JSON.stringify *)

Module ParseFacts.

Lemma join_comma_length {A : Type} (f : A -> nat) (g : A -> jsstring) l :
  Forall (fun a => (f a <= length (g a))%nat) l ->
  (length l + list_sum (map f l) <= length (join_comma (map g l)) + 1)%nat.
Proof.
  induction l as [|a l IH]; intros H.
  - simpl. lia.
  - inversion H as [|? ? Ha Hl]; subst. specialize (IH Hl).
    destruct l as [|b l].
    + cbn [map join_comma length list_sum fold_right]. lia.
    + cbn [map]. rewrite join_comma_cons.
      cbn [map length list_sum fold_right] in *.
      rewrite length_app. cbn [length]. lia.
Qed.

Lemma fuel_le_length v :
  wf_value v -> (fuel_of v <= length (json_text v))%nat.
Proof.
  induction v as [| b | x | s | l IH | l IH] using value_ind; intros Hwf.
  - simpl. lia.
  - destruct b; simpl; lia.
  - destruct (stringify_head (JNum x) Hwf) as (c & t & E & _).
    rewrite E. simpl. lia.
  - simpl. lia.
  - apply wf_arr in Hwf. cbn [fuel_of json_text length].
    rewrite length_app. cbn [length].
    pose proof (join_comma_length fuel_of json_text l) as H.
    rewrite Forall_forall in *.
    specialize (H (fun v Hv => IH v Hv (Hwf v Hv))). lia.
  - apply wf_obj in Hwf. destruct Hwf as [_ Hwf].
    cbn [fuel_of json_text length].
    rewrite length_app. cbn [length].
    match goal with
    | |- context [join_comma (map ?g l)] =>
        pose proof (join_comma_length (fun kv => fuel_of (snd kv)) g l) as H
    end.
    cbv beta in H. rewrite Forall_forall in *.
    assert (Hl : forall kv, In kv l ->
      (fuel_of (snd kv) <= length (QuoteJSONString (fst kv) ++ ch ":" :: json_text (snd kv)))%nat).
    { intros kv Hkv. rewrite length_app. cbn [length].
      specialize (IH kv Hkv (Hwf kv Hkv)). lia. }
    specialize (H Hl). apply le_n_S. exact H.
Qed.

(** JSON.parse after JSON.stringify: the value comes back, its numbers that
    are not finite as null, its negative zeros as zero. *)
Theorem JSON_parse_stringify v :
  wf_value v -> JSON_parse (json_text v) = Some (reparsed v).
Proof.
  intros Hwf. unfold JSON_parse.
  rewrite <- (app_nil_r (json_text v)) at 2.
  rewrite skip_ws_value by exact Hwf.
  rewrite (parse_stringify v Hwf); [reflexivity | | exact I].
  pose proof (fuel_le_length v Hwf). lia.
Qed.

(** *** What JSON.parse returns is well formed *)

Lemma span_digits_all s : forallb is_digit (fst (span_digits s)) = true.
Proof.
  induction s as [|c s IH]; [reflexivity|]. cbn [span_digits].
  destruct (is_digit c) eqn:E; [|reflexivity].
  destruct (span_digits s) as [ds r]. cbn [fst forallb] in *.
  rewrite E, IH. reflexivity.
Qed.

Lemma parse_number_wf s x r : parse_number s = Some (x, r) -> wf_number x.
Proof.
  unfold parse_number.
  destruct (match s with
            | [] => (false, s)
            | c :: r0 => if (c =? ch "-")%N then (true, r0) else (false, s)
            end) as [neg s1].
  destruct (span_int s1) as [[ip s2]|] eqn:Ei; [|discriminate].
  destruct (span_frac s2) as [[fd s3]|] eqn:Ef; [|discriminate].
  destruct (span_exp s3) as [[ex s4]|]; [|discriminate].
  intros H. inversion H; subst. apply round_dec_wf.
  apply digits_val_nonneg. rewrite forallb_app.
  assert (Hip : forallb is_digit ip = true).
  { unfold span_int in Ei. destruct s1 as [|c s1]; [discriminate|].
    pose proof (span_digits_all (c :: s1)) as Hd.
    remember (span_digits (c :: s1)) as sp eqn:Esp. clear Esp.
    destruct (N.eqb_spec c (ch "0")) as [->|_].
    - inversion Ei; subst. reflexivity.
    - destruct (is_digit c); [|discriminate].
      inversion Ei; subst. exact Hd. }
  assert (Hfd : forallb is_digit fd = true).
  { unfold span_frac in Ef. destruct s2 as [|c s2].
    - inversion Ef; subst. reflexivity.
    - destruct (c =? ch ".")%N.
      + pose proof (span_digits_all s2) as Hd.
        destruct (span_digits s2) as [[|d ds] r']; [discriminate|].
        inversion Ef; subst. exact Hd.
      + inversion Ef; subst. reflexivity. }
  rewrite Hip, Hfd. reflexivity.
Qed.

Section Values.
Context {A : Type} (P : A -> Prop).

Lemma obj_set_forall k v (o : object A) :
  P v -> Forall (fun kv => P (snd kv)) o ->
  Forall (fun kv => P (snd kv)) (obj_set k v o).
Proof.
  intros Hv Ho. unfold obj_set. destruct (has_key k o).
  - induction o as [|[k' v'] o IH]; [constructor|].
    inversion Ho; subst. cbn [obj_replace].
    destruct (jsstring_eqb k k'); constructor; auto.
  - induction o as [|[k' v'] o IH]; [repeat constructor; exact Hv|].
    inversion Ho; subst. cbn [obj_insert].
    destruct (key_before k k'); constructor; auto.
Qed.

Lemma obj_of_list_forall (l : list (jsstring * A)) :
  Forall (fun kv => P (snd kv)) l ->
  Forall (fun kv => P (snd kv)) (obj_of_list l).
Proof.
  unfold obj_of_list.
  assert (H : forall o, Forall (fun kv => P (snd kv)) o ->
            Forall (fun kv => P (snd kv)) l ->
            Forall (fun kv => P (snd kv))
              (fold_left (fun o kv => obj_set (fst kv) (snd kv) o) l o)).
  { induction l as [|[k v] l IH]; intros o Ho Hl; [exact Ho|].
    inversion Hl; subst. cbn [fold_left fst snd].
    apply IH; [apply obj_set_forall|]; assumption. }
  apply H. constructor.
Qed.

End Values.

Lemma parse_wf_fuel fuel :
  (forall s v r, parse_value fuel s = Some (v, r) -> wf_value v)
  /\ (forall s l r, parse_elements fuel s = Some (l, r) -> Forall wf_value l)
  /\ (forall s l r, parse_members fuel s = Some (l, r) ->
        Forall (fun kv => wf_value (snd kv)) l).
Proof.
  induction fuel as [|f (IHv & IHe & IHm)].
  - repeat split; intros; discriminate.
  - repeat split.
    + intros s v r H. cbn [parse_value] in H.
      destruct s as [|c s']; [discriminate|].
      destruct (c =? ch "[")%N.
      { destruct (skip_ws s') as [|c2 s2]; [discriminate|].
        destruct (c2 =? ch "]")%N.
        - inversion H; subst. exact I.
        - destruct (parse_elements f (c2 :: s2)) as [[l r']|] eqn:E; [|discriminate].
          inversion H; subst. apply wf_arr. eapply IHe, E. }
      destruct (c =? ch "{")%N.
      { destruct (skip_ws s') as [|c2 s2]; [discriminate|].
        destruct (c2 =? ch "}")%N.
        - inversion H; subst. split; [split|]; constructor.
        - destruct (parse_members f (c2 :: s2)) as [[l r']|] eqn:E; [|discriminate].
          inversion H; subst. apply wf_obj. split.
          + apply obj_of_list_order.
          + apply obj_of_list_forall. eapply IHm, E. }
      destruct (c =? c_quote)%N.
      { destruct (parse_string_chars s') as [[str r']|]; [|discriminate].
        inversion H; subst. exact I. }
      destruct (c =? ch "t")%N.
      { destruct (expect (js "rue") s'); [|discriminate]. inversion H; subst. exact I. }
      destruct (c =? ch "f")%N.
      { destruct (expect (js "alse") s'); [|discriminate]. inversion H; subst. exact I. }
      destruct (c =? ch "n")%N.
      { destruct (expect (js "ull") s'); [|discriminate]. inversion H; subst. exact I. }
      destruct (parse_number (c :: s')) as [[x r']|] eqn:E; [|discriminate].
      inversion H; subst. eapply parse_number_wf, E.
    + intros s l r H. cbn [parse_elements] in H.
      destruct (parse_value f s) as [[v r1]|] eqn:Ev; [|discriminate].
      destruct (skip_ws r1) as [|c r']; [discriminate|].
      destruct (c =? ch ",")%N.
      * destruct (parse_elements f (skip_ws r')) as [[l' r'']|] eqn:El; [|discriminate].
        inversion H; subst. constructor; [eapply IHv, Ev | eapply IHe, El].
      * destruct (c =? ch "]")%N; [|discriminate].
        inversion H; subst. constructor; [eapply IHv, Ev | constructor].
    + intros s l r H. cbn [parse_members] in H.
      destruct s as [|c s']; [discriminate|].
      destruct (c =? c_quote)%N; [|discriminate].
      destruct (parse_string_chars s') as [[k r0]|]; [|discriminate].
      destruct (skip_ws r0) as [|c1 r1]; [discriminate|].
      destruct (c1 =? ch ":")%N; [|discriminate].
      destruct (parse_value f (skip_ws r1)) as [[v r2]|] eqn:Ev; [|discriminate].
      destruct (skip_ws r2) as [|c3 r3]; [discriminate|].
      destruct (c3 =? ch ",")%N.
      * destruct (parse_members f (skip_ws r3)) as [[l' r4]|] eqn:El; [|discriminate].
        inversion H; subst. constructor; [eapply IHv, Ev | eapply IHm, El].
      * destruct (c3 =? ch "}")%N; [|discriminate].
        inversion H; subst. constructor; [eapply IHv, Ev | constructor].
Qed.

(** Every value JSON.parse returns is well formed. *)
Theorem JSON_parse_wf s v : JSON_parse s = Some v -> wf_value v.
Proof.
  unfold JSON_parse.
  destruct (parse_value _ _) as [[v' r]|] eqn:E; [|discriminate].
  destruct (skip_ws r); [|discriminate].
  intros H. inversion H; subst.
  eapply (proj1 (parse_wf_fuel _)), E.
Qed.

End ParseFacts.
Export ParseFacts.

(** ** The fuel of the parser *)

Module FuelFacts.

Lemma skip_ws_length s : (length (skip_ws s) <= length s)%nat.
Proof.
  induction s as [|c s IH]; [reflexivity|]. cbn [skip_ws].
  destruct (is_ws c); cbn [length]; lia.
Qed.

Lemma expect_length w : forall s r,
  expect w s = Some r -> (length r <= length s)%nat.
Proof.
  induction w as [|a w IH]; intros s r H.
  - destruct s; inversion H; subst; lia.
  - destruct s as [|c s]; [discriminate|]. cbn [expect] in H.
    destruct (a =? c)%N; [|discriminate].
    apply IH in H. cbn [length]. lia.
Qed.

Lemma parse_string_chars_length n : forall s x r,
  (length s <= n)%nat ->
  parse_string_chars s = Some (x, r) -> (length r < length s)%nat.
Proof.
  induction n as [|n IH]; intros s x r Hn H.
  - destruct s; [discriminate | simpl in Hn; lia].
  - destruct s as [|c s]; [discriminate|].
    cbn [length] in *. cbn [parse_string_chars] in H.
    destruct (c =? c_quote)%N; [inversion H; subst; lia|].
    destruct (c =? c_backslash)%N.
    + destruct s as [|e s]; [discriminate|].
      destruct (e =? ch "u")%N.
      * destruct s as [|h1 [|h2 [|h3 [|h4 s]]]]; try discriminate.
        destruct (hex4 h1 h2 h3 h4); [|discriminate].
        destruct (parse_string_chars s) as [[x' r']|] eqn:E; [|discriminate].
        inversion H; subst. apply IH in E; cbn [length] in *; lia.
      * destruct (unescape e); [|discriminate].
        destruct (parse_string_chars s) as [[x' r']|] eqn:E; [|discriminate].
        inversion H; subst. apply IH in E; cbn [length] in *; lia.
    + destruct (c <? 32)%N; [discriminate|].
      destruct (parse_string_chars s) as [[x' r']|] eqn:E; [|discriminate].
      inversion H; subst. apply IH in E; lia.
Qed.

Lemma span_digits_length s :
  (length (snd (span_digits s)) <= length s)%nat.
Proof.
  induction s as [|c s IH]; [reflexivity|]. cbn [span_digits].
  destruct (is_digit c); [|reflexivity].
  destruct (span_digits s) as [ds r]. cbn [snd length] in *. lia.
Qed.

Lemma span_int_length s ip r :
  span_int s = Some (ip, r) -> (length r < length s)%nat.
Proof.
  unfold span_int. destruct s as [|c s]; [discriminate|].
  pose proof (span_digits_length s) as Hs.
  cbn [span_digits].
  destruct (c =? ch "0")%N.
  - intros H. inversion H; subst. cbn [length]. lia.
  - destruct (is_digit c); [|discriminate].
    destruct (span_digits s) as [ds r']. cbn [snd] in Hs.
    intros H. inversion H; subst. cbn [length]. lia.
Qed.

Lemma span_frac_length s fd r :
  span_frac s = Some (fd, r) -> (length r <= length s)%nat.
Proof.
  unfold span_frac. destruct s as [|c s]; [intros H; inversion H; subst; lia|].
  pose proof (span_digits_length s) as Hs.
  destruct (c =? ch ".")%N.
  - destruct (span_digits s) as [[|d ds] r']; [discriminate|].
    cbn [snd] in Hs. intros H. inversion H; subst. cbn [length]. lia.
  - intros H. inversion H; subst. lia.
Qed.

Lemma span_exp_length s x r :
  span_exp s = Some (x, r) -> (length r <= length s)%nat.
Proof.
  unfold span_exp. destruct s as [|c s]; [intros H; inversion H; subst; lia|].
  destruct ((c =? ch "e")%N || (c =? ch "E")%N).
  - destruct (match s with [] => _ | _ :: _ => _ end) as [neg r1] eqn:Esg.
    assert (Hr1 : (length r1 <= length s)%nat).
    { destruct s as [|c1 s']; [inversion Esg; subst; lia|].
      destruct (c1 =? ch "-")%N; [inversion Esg; subst; cbn [length]; lia|].
      destruct (c1 =? ch "+")%N; inversion Esg; subst; cbn [length]; lia. }
    pose proof (span_digits_length r1) as Hs.
    destruct (span_digits r1) as [[|d ds] r2]; [discriminate|].
    cbn [snd] in Hs. intros H. inversion H; subst. cbn [length]. lia.
  - intros H. inversion H; subst. lia.
Qed.

Lemma parse_number_length s x r :
  parse_number s = Some (x, r) -> (length r < length s)%nat.
Proof.
  unfold parse_number.
  assert (Hsign : exists neg s1,
    match s with
    | [] => (false, s)
    | c :: r0 => if (c =? ch "-")%N then (true, r0) else (false, s)
    end = (neg, s1) /\ (length s1 <= length s)%nat).
  { destruct s as [|c s]; [exists false, []; split; [reflexivity | lia]|].
    destruct (c =? ch "-")%N; eexists _, _; (split; [reflexivity|]);
      cbn [length]; lia. }
  destruct Hsign as (neg & s1 & -> & Hs1).
  destruct (span_int s1) as [[ip s2]|] eqn:Ei; [|discriminate].
  destruct (span_frac s2) as [[fd s3]|] eqn:Ef; [|discriminate].
  destruct (span_exp s3) as [[ex s4]|] eqn:Ee; [|discriminate].
  apply span_int_length in Ei. apply span_frac_length in Ef.
  apply span_exp_length in Ee.
  intros H. inversion H; subst. lia.
Qed.

(** A value, the elements of an array and the members of an object are
    read from at least one character. *)
Lemma parse_progress fuel :
  (forall s v r, parse_value fuel s = Some (v, r) -> (length r < length s)%nat)
  /\ (forall s l r, parse_elements fuel s = Some (l, r) ->
        (length r < length s)%nat)
  /\ (forall s l r, parse_members fuel s = Some (l, r) ->
        (length r < length s)%nat).
Proof.
  induction fuel as [|f (IHv & IHe & IHm)].
  - repeat split; intros; discriminate.
  - repeat split.
    + intros s v r H. cbn [parse_value] in H.
      destruct s as [|c s']; [discriminate|]. cbn [length].
      pose proof (skip_ws_length s') as Hs.
      destruct (c =? ch "[")%N.
      { destruct (skip_ws s') as [|c2 s2]; [discriminate|].
        destruct (c2 =? ch "]")%N.
        - inversion H; subst. cbn [length] in Hs. lia.
        - destruct (parse_elements f (c2 :: s2)) as [[l r']|] eqn:E; [|discriminate].
          inversion H; subst. apply IHe in E. lia. }
      destruct (c =? ch "{")%N.
      { destruct (skip_ws s') as [|c2 s2]; [discriminate|].
        destruct (c2 =? ch "}")%N.
        - inversion H; subst. cbn [length] in Hs. lia.
        - destruct (parse_members f (c2 :: s2)) as [[l r']|] eqn:E; [|discriminate].
          inversion H; subst. apply IHm in E. lia. }
      destruct (c =? c_quote)%N.
      { destruct (parse_string_chars s') as [[str r']|] eqn:E; [|discriminate].
        inversion H; subst.
        apply (parse_string_chars_length (length s')) in E; lia. }
      destruct (c =? ch "t")%N.
      { destruct (expect (js "rue") s') eqn:E; [|discriminate].
        inversion H; subst. apply expect_length in E. lia. }
      destruct (c =? ch "f")%N.
      { destruct (expect (js "alse") s') eqn:E; [|discriminate].
        inversion H; subst. apply expect_length in E. lia. }
      destruct (c =? ch "n")%N.
      { destruct (expect (js "ull") s') eqn:E; [|discriminate].
        inversion H; subst. apply expect_length in E. lia. }
      destruct (parse_number (c :: s')) as [[x r']|] eqn:E; [|discriminate].
      inversion H; subst. apply parse_number_length in E. cbn [length] in E. lia.
    + intros s l r H. cbn [parse_elements] in H.
      destruct (parse_value f s) as [[v r1]|] eqn:Ev; [|discriminate].
      apply IHv in Ev. pose proof (skip_ws_length r1) as Hs.
      destruct (skip_ws r1) as [|c r']; [discriminate|]. cbn [length] in Hs.
      pose proof (skip_ws_length r') as Hs'.
      destruct (c =? ch ",")%N.
      * destruct (parse_elements f (skip_ws r')) as [[l' r'']|] eqn:El; [|discriminate].
        inversion H; subst. apply IHe in El. lia.
      * destruct (c =? ch "]")%N; [|discriminate].
        inversion H; subst. lia.
    + intros s l r H. cbn [parse_members] in H.
      destruct s as [|c s']; [discriminate|]. cbn [length].
      destruct (c =? c_quote)%N; [|discriminate].
      destruct (parse_string_chars s') as [[k r0]|] eqn:Ek; [|discriminate].
      apply (parse_string_chars_length (length s')) in Ek; [|lia].
      pose proof (skip_ws_length r0) as Hs0.
      destruct (skip_ws r0) as [|c1 r1]; [discriminate|]. cbn [length] in Hs0.
      destruct (c1 =? ch ":")%N; [|discriminate].
      pose proof (skip_ws_length r1) as Hs1.
      destruct (parse_value f (skip_ws r1)) as [[v r2]|] eqn:Ev; [|discriminate].
      apply IHv in Ev. pose proof (skip_ws_length r2) as Hs2.
      destruct (skip_ws r2) as [|c3 r3]; [discriminate|]. cbn [length] in Hs2.
      pose proof (skip_ws_length r3) as Hs3.
      destruct (c3 =? ch ",")%N.
      * destruct (parse_members f (skip_ws r3)) as [[l' r4]|] eqn:El; [|discriminate].
        inversion H; subst. apply IHm in El. lia.
      * destruct (c3 =? ch "}")%N; [|discriminate].
        inversion H; subst. lia.
Qed.

(** More fuel does not change what was parsed. *)
Lemma parse_fuel_mono fuel :
  (forall s x, parse_value fuel s = Some x -> parse_value (S fuel) s = Some x)
  /\ (forall s x, parse_elements fuel s = Some x ->
        parse_elements (S fuel) s = Some x)
  /\ (forall s x, parse_members fuel s = Some x ->
        parse_members (S fuel) s = Some x).
Proof.
  induction fuel as [|f (IHv & IHe & IHm)].
  - repeat split; intros; discriminate.
  - repeat split.
    + intros s x H. cbn [parse_value] in H.
      remember (S f) as g eqn:Eg. cbn [parse_value]. subst g.
      destruct s as [|c s']; [discriminate|].
      destruct (c =? ch "[")%N.
      { destruct (skip_ws s') as [|c2 s2]; [discriminate|].
        destruct (c2 =? ch "]")%N; [exact H|].
        destruct (parse_elements f (c2 :: s2)) as [[l r']|] eqn:E; [|discriminate].
        rewrite (IHe _ _ E). exact H. }
      destruct (c =? ch "{")%N.
      { destruct (skip_ws s') as [|c2 s2]; [discriminate|].
        destruct (c2 =? ch "}")%N; [exact H|].
        destruct (parse_members f (c2 :: s2)) as [[l r']|] eqn:E; [|discriminate].
        rewrite (IHm _ _ E). exact H. }
      exact H.
    + intros s x H. cbn [parse_elements] in H.
      remember (S f) as g eqn:Eg. cbn [parse_elements]. subst g.
      destruct (parse_value f s) as [[v r1]|] eqn:Ev; [|discriminate].
      rewrite (IHv _ _ Ev).
      destruct (skip_ws r1) as [|c r']; [discriminate|].
      destruct (c =? ch ",")%N; [|exact H].
      destruct (parse_elements f (skip_ws r')) as [[l' r'']|] eqn:El; [|discriminate].
      rewrite (IHe _ _ El). exact H.
    + intros s x H. cbn [parse_members] in H.
      remember (S f) as g eqn:Eg. cbn [parse_members]. subst g.
      destruct s as [|c s']; [discriminate|].
      destruct (c =? c_quote)%N; [|discriminate].
      destruct (parse_string_chars s') as [[k r0]|]; [|discriminate].
      destruct (skip_ws r0) as [|c1 r1]; [discriminate|].
      destruct (c1 =? ch ":")%N; [|discriminate].
      destruct (parse_value f (skip_ws r1)) as [[v r2]|] eqn:Ev; [|discriminate].
      rewrite (IHv _ _ Ev).
      destruct (skip_ws r2) as [|c3 r3]; [discriminate|].
      destruct (c3 =? ch ",")%N; [|exact H].
      destruct (parse_members f (skip_ws r3)) as [[l' r4]|] eqn:El; [|discriminate].
      rewrite (IHm _ _ El). exact H.
Qed.

(** Past twice the length of the text, fuel makes no difference. *)
Lemma parse_fuel_stable fuel :
  (forall s, (2 * length s + 1 <= fuel)%nat ->
     parse_value (S fuel) s = parse_value fuel s)
  /\ (forall s, (2 * length s + 2 <= fuel)%nat ->
        parse_elements (S fuel) s = parse_elements fuel s)
  /\ (forall s, (2 * length s + 2 <= fuel)%nat ->
        parse_members (S fuel) s = parse_members fuel s).
Proof.
  induction fuel as [|f (IHv & IHe & IHm)].
  - repeat split; intros; lia.
  - pose proof (parse_progress f) as (Pv & _ & _).
    repeat split.
    + intros s Hf.
      match goal with
      | |- _ = ?R =>
          let R' := eval cbn [parse_value] in R in change R with R'
      end.
      remember (S f) as g eqn:Eg. cbn [parse_value]. subst g.
      destruct s as [|c s']; [reflexivity|]. cbn [length] in Hf.
      pose proof (skip_ws_length s') as Hs.
      destruct (c =? ch "[")%N.
      { destruct (skip_ws s') as [|c2 s2]; [reflexivity|].
        destruct (c2 =? ch "]")%N; [reflexivity|].
        rewrite IHe by lia. reflexivity. }
      destruct (c =? ch "{")%N.
      { destruct (skip_ws s') as [|c2 s2]; [reflexivity|].
        destruct (c2 =? ch "}")%N; [reflexivity|].
        rewrite IHm by lia. reflexivity. }
      reflexivity.
    + intros s Hf.
      match goal with
      | |- _ = ?R =>
          let R' := eval cbn [parse_elements] in R in change R with R'
      end.
      remember (S f) as g eqn:Eg. cbn [parse_elements]. subst g.
      rewrite IHv by lia.
      destruct (parse_value f s) as [[v r1]|] eqn:Ev; [|reflexivity].
      apply Pv in Ev. pose proof (skip_ws_length r1) as Hs.
      destruct (skip_ws r1) as [|c r']; [reflexivity|]. cbn [length] in Hs.
      pose proof (skip_ws_length r') as Hs'.
      destruct (c =? ch ",")%N; [|reflexivity].
      rewrite IHe by lia. reflexivity.
    + intros s Hf.
      match goal with
      | |- _ = ?R =>
          let R' := eval cbn [parse_members] in R in change R with R'
      end.
      remember (S f) as g eqn:Eg. cbn [parse_members]. subst g.
      destruct s as [|c s']; [reflexivity|]. cbn [length] in Hf.
      destruct (c =? c_quote)%N; [|reflexivity].
      destruct (parse_string_chars s') as [[k r0]|] eqn:Ek; [|reflexivity].
      apply (parse_string_chars_length (length s')) in Ek; [|lia].
      pose proof (skip_ws_length r0) as Hs0.
      destruct (skip_ws r0) as [|c1 r1]; [reflexivity|]. cbn [length] in Hs0.
      destruct (c1 =? ch ":")%N; [|reflexivity].
      pose proof (skip_ws_length r1) as Hs1.
      rewrite IHv by lia.
      destruct (parse_value f (skip_ws r1)) as [[v r2]|] eqn:Ev; [|reflexivity].
      apply Pv in Ev. pose proof (skip_ws_length r2) as Hs2.
      destruct (skip_ws r2) as [|c3 r3]; [reflexivity|]. cbn [length] in Hs2.
      pose proof (skip_ws_length r3) as Hs3.
      destruct (c3 =? ch ",")%N; [|reflexivity].
      rewrite IHm by lia. reflexivity.
Qed.

Lemma parse_value_more k : forall fuel s x,
  parse_value fuel s = Some x -> parse_value (k + fuel) s = Some x.
Proof.
  induction k as [|k IH]; intros fuel s x H; [exact H|].
  cbn [Nat.add]. apply (proj1 (parse_fuel_mono _)), IH, H.
Qed.

Lemma parse_value_enough k : forall s,
  parse_value (k + (2 * length s + 1)) s = parse_value (2 * length s + 1) s.
Proof.
  induction k as [|k IH]; intros s; [reflexivity|].
  cbn [Nat.add]. rewrite (proj1 (parse_fuel_stable _)) by lia. apply IH.
Qed.

(** The fuel of JSON.parse is enough: a text that is parsed with any fuel
    at all is parsed by JSON.parse, to the same value. So [None] is a
    syntax error and never a parser that gave up. *)
Theorem JSON_parse_complete fuel s v r :
  parse_value fuel (skip_ws s) = Some (v, r) -> skip_ws r = [] ->
  JSON_parse s = Some v.
Proof.
  intros H Hr. unfold JSON_parse.
  pose proof (skip_ws_length s) as Hs.
  set (t := skip_ws s) in *.
  assert (E : parse_value (2 * length s + 2) t = Some (v, r)).
  { replace (2 * length s + 2)%nat
      with ((2 * length s + 1 - 2 * length t) + (2 * length t + 1))%nat by lia.
    rewrite parse_value_enough, <- (parse_value_enough fuel).
    rewrite Nat.add_comm. apply parse_value_more, H. }
  rewrite E, Hr. reflexivity.
Qed.

End FuelFacts.
Export FuelFacts.

(** ** Deep equality *)

Module DeepEqual.

Lemma number_eqb_reparsed x :
  is_finite x = true -> number_eqb (reparsed_number x) x = true.
Proof.
  destruct x as [| |z|neg m e]; try discriminate; intros _.
  - reflexivity.
  - cbn [reparsed_number number_eqb].
    rewrite Bool.eqb_reflx, !Z.eqb_refl. reflexivity.
Qed.

Lemma obj_get_in {A : Type} (l : object A) k v :
  NoDup (keys l) -> In (k, v) l -> obj_get k l = Some v.
Proof.
  induction l as [|[k' v'] l IH]; intros Hnd Hin; [contradiction|].
  cbn [keys map fst] in Hnd. inversion Hnd as [|? ? Hk Hnd']; subst.
  cbn [obj_get]. destruct Hin as [E|Hin].
  - inversion E; subst. rewrite jsstring_eqb_refl. reflexivity.
  - destruct (jsstring_eqb k k') eqn:E.
    + apply jsstring_eqb_eq in E. subst. exfalso. apply Hk.
      apply in_map_iff. exists (k', v). split; [reflexivity | exact Hin].
    + apply IH; assumption.
Qed.

(** A value without infinities is deep-equal to what its text is read
    back as. *)
Lemma deep_equal_reparsed v :
  wf_value v -> all_finite v = true -> deep_equal (reparsed v) v = true.
Proof.
  induction v as [| b | x | s | l IH | l IH] using value_ind; intros Hwf Hfin.
  - reflexivity.
  - apply Bool.eqb_reflx.
  - cbn [all_finite] in Hfin. cbn [reparsed]. rewrite Hfin.
    apply number_eqb_reparsed, Hfin.
  - apply jsstring_eqb_refl.
  - apply wf_arr in Hwf. cbn [all_finite] in Hfin. cbn [reparsed deep_equal].
    induction l as [|v l IHl]; [reflexivity|].
    inversion IH; subst. inversion Hwf; subst.
    cbn [forallb] in Hfin. apply andb_prop in Hfin. destruct Hfin as [Hv Hl].
    cbn [map]. rewrite H1 by assumption. cbn [andb]. apply IHl; assumption.
  - apply wf_obj in Hwf. destruct Hwf as [[Hnd _] Hwf].
    cbn [all_finite] in Hfin. cbn [reparsed deep_equal].
    rewrite length_map, Nat.eqb_refl. cbn [andb].
    rewrite forallb_forall. intros [k w] Hin.
    apply in_map_iff in Hin. destruct Hin as ([k' v] & E & Hin).
    cbn [fst snd] in E. inversion E; subst. cbn [fst snd].
    rewrite (obj_get_in l k v Hnd Hin).
    rewrite Forall_forall in IH, Hwf. rewrite forallb_forall in Hfin.
    apply (IH (k, v) Hin); [apply (Hwf (k, v) Hin) | apply (Hfin (k, v) Hin)].
Qed.

End DeepEqual.
Export DeepEqual.

(** ** The handler *)

Module HandlerFacts.

Lemma payload_literal (a b c d : value) :
  obj_of_list
    [ (js "message", a); (js "timestamp", b); (js "requestId", c);
      (js "body", d) ]
  = [ (js "message", a); (js "timestamp", b); (js "requestId", c);
      (js "body", d) ].
Proof. reflexivity. Qed.

Lemma headers_literal (a b : jsstring) :
  obj_of_list [ (js "Content-Type", a); (js "Access-Control-Allow-Origin", b) ]
  = [ (js "Content-Type", a); (js "Access-Control-Allow-Origin", b) ].
Proof. reflexivity. Qed.

Lemma list_max_reparsed (l : list value) :
  Forall (fun v => depth (reparsed v) = depth v) l ->
  list_max (map depth (map reparsed l)) = list_max (map depth l).
Proof.
  induction l as [|v l IH]; intros H; [reflexivity|].
  inversion H as [|? ? Hv Hl]; subst.
  cbn [map list_max fold_right]. rewrite Hv.
  change (fold_right Nat.max 0%nat ?x) with (list_max x).
  rewrite (IH Hl). reflexivity.
Qed.

(** Reading a value back does not change its nesting. *)
Lemma depth_reparsed v : depth (reparsed v) = depth v.
Proof.
  induction v as [| b | x | s | l IH | l IH] using value_ind;
    try reflexivity.
  - cbn [reparsed]. destruct (is_finite x); reflexivity.
  - cbn [reparsed depth]. rewrite list_max_reparsed by exact IH. reflexivity.
  - cbn [reparsed depth]. f_equal. rewrite map_map. cbn [snd].
    induction l as [|kv l IHl]; [reflexivity|].
    inversion IH as [|? ? Hkv Hl]; subst.
    cbn [map list_max fold_right]. rewrite Hkv.
    change (fold_right Nat.max 0%nat ?x) with (list_max x).
    rewrite (IHl Hl). reflexivity.
Qed.

(** The response object is one level around the value of the body. *)
Lemma payload_depth context now v :
  depth (JObj (payload context now v)) = S (depth v).
Proof.
  unfold payload. cbn [depth map snd list_max fold_right].
  rewrite Nat.max_0_r. reflexivity.
Qed.

(** How the handler ends: with the RangeError of line 5 for an event nested
    deeper than the stack has room for, else as the parsing of the body
    ends, and with the RangeError of line 17 for a body nested as deep as
    the stack has room for. *)
Lemma handler_settled stack event context now :
  settled (handler stack event context now) =
    if (depth (Event.to_value event) <=? stack)%nat then
      match settled (parse_body event) with
      | Fulfilled v =>
          if (depth v <? stack)%nat then Fulfilled (response context now v)
          else Rejected RangeError
      | Rejected e => Rejected e
      end
    else Rejected RangeError.
Proof.
  unfold handler, JSON_stringify_spaces, JSON_stringify.
  destruct (depth (Event.to_value event) <=? stack)%nat; [|reflexivity].
  unfold bind, console_log, ret, throw, settled.
  destruct (parse_body event) as [out [v|e]]; cbn [fst snd app]; [|reflexivity].
  rewrite payload_literal, headers_literal.
  change [ (js "message", JStr (js "Hello, World!"));
           (js "timestamp", JStr (Date_toISOString (ms now)));
           (js "requestId", JStr (Context.awsRequestId context));
           (js "body", v) ] with (payload context now v).
  rewrite payload_depth. change (S (depth v) <=? stack)%nat
    with (depth v <? stack)%nat.
  destruct (depth v <? stack)%nat; reflexivity.
Qed.

(** What the handler writes to the console: the event, when line 5 does not
    fail. *)
Lemma handler_console stack event context now :
  console (handler stack event context now) =
    if (depth (Event.to_value event) <=? stack)%nat
    then [js "Event: " ++ json_text_spaces 2 (Event.to_value event)]
    else [].
Proof.
  unfold handler, JSON_stringify_spaces, JSON_stringify.
  destruct (depth (Event.to_value event) <=? stack)%nat; [|reflexivity].
  unfold bind, console_log, ret, throw, console.
  destruct (parse_body event) as [out [v|e]] eqn:E;
    unfold parse_body, JSON_parse_run, ret, throw in E;
    destruct (Event.body event) as [[|c s]|]; cbn [truthy] in E;
    try destruct (JSON_parse (c :: s));
    inversion E; subst; cbn [fst snd app];
    try destruct (depth _ <=? stack)%nat; reflexivity.
Qed.

Lemma parse_body_absent event :
  truthy (Event.body event) = false -> parse_body event = ret (JObj []).
Proof.
  unfold parse_body. destruct (Event.body event) as [[|c s]|];
    [reflexivity | discriminate | reflexivity].
Qed.

Lemma JSON_parse_empty : JSON_parse [] = None.
Proof. reflexivity. Qed.

Lemma parse_body_valid event B v :
  Event.body event = Some B -> JSON_parse B = Some v ->
  parse_body event = ret v.
Proof.
  intros Eb Ep. unfold parse_body. rewrite Eb.
  destruct B as [|c s]; [rewrite JSON_parse_empty in Ep; discriminate|].
  cbn [truthy]. unfold JSON_parse_run. rewrite Ep. reflexivity.
Qed.

Lemma parse_body_invalid event B :
  Event.body event = Some B -> B <> [] -> JSON_parse B = None ->
  parse_body event = throw SyntaxError.
Proof.
  intros Eb Hne Ep. unfold parse_body. rewrite Eb.
  destruct B as [|c s]; [contradiction|].
  cbn [truthy]. unfold JSON_parse_run. rewrite Ep. reflexivity.
Qed.

(** Whatever the handler parses or puts in place of the body is well
    formed. *)
Lemma parse_body_wf event v :
  settled (parse_body event) = Fulfilled v -> wf_value v.
Proof.
  unfold parse_body.
  assert (Hobj : wf_value (JObj [])) by (split; [split|]; constructor).
  destruct (Event.body event) as [[|c s]|].
  - intros H. inversion H; subst. exact Hobj.
  - cbn [truthy]. unfold JSON_parse_run.
    destruct (JSON_parse (c :: s)) as [w|] eqn:E; [|discriminate].
    intros H. inversion H; subst. eapply JSON_parse_wf, E.
  - intros H. inversion H; subst. exact Hobj.
Qed.

Lemma payload_order context now v :
  enumeration_order (keys (payload context now v)).
Proof.
  unfold payload, keys. cbn [map fst]. split.
  - repeat constructor; cbn [In]; intuition discriminate.
  - repeat constructor.
Qed.

Lemma payload_wf context now v :
  wf_value v -> wf_value (JObj (payload context now v)).
Proof.
  intros H. apply wf_obj. split; [apply payload_order|].
  unfold payload. repeat constructor. exact H.
Qed.

(** The body of the response, decoded. *)
Lemma response_decoded context now v :
  wf_value v ->
  JSON_parse (Result.body (response context now v))
  = Some (JObj (payload context now (reparsed v))).
Proof.
  intros H. cbn [response Result.body].
  rewrite JSON_parse_stringify by (apply payload_wf, H). reflexivity.
Qed.

Lemma response_field_body context now v :
  wf_value v -> field "body" (response context now v) = Some (reparsed v).
Proof. intros H. unfold field. rewrite response_decoded by exact H. reflexivity. Qed.

Lemma response_field_requestId context now v :
  wf_value v ->
  field "requestId" (response context now v)
  = Some (JStr (Context.awsRequestId context)).
Proof. intros H. unfold field. rewrite response_decoded by exact H. reflexivity. Qed.

Lemma response_field_message context now v :
  wf_value v ->
  field "message" (response context now v) = Some (JStr (js "Hello, World!")).
Proof. intros H. unfold field. rewrite response_decoded by exact H. reflexivity. Qed.

Lemma response_field_timestamp context now v :
  wf_value v ->
  field "timestamp" (response context now v)
  = Some (JStr (Date_toISOString (ms now))).
Proof. intros H. unfold field. rewrite response_decoded by exact H. reflexivity. Qed.

(** The handler answers when line 5 and line 17 have the room they need. *)
Lemma handler_answers stack event context now v :
  (depth (Event.to_value event) <= stack)%nat ->
  settled (parse_body event) = Fulfilled v -> (depth v < stack)%nat ->
  settled (handler stack event context now) = Fulfilled (response context now v).
Proof.
  intros Hlog Hv Hroom. rewrite handler_settled, Hv.
  apply Nat.leb_le in Hlog. apply Nat.ltb_lt in Hroom.
  rewrite Hlog, Hroom. reflexivity.
Qed.

(** An event nested too deep ends the handler on line 5. *)
Lemma handler_unlogged stack event context now :
  (stack < depth (Event.to_value event))%nat ->
  settled (handler stack event context now) = Rejected RangeError.
Proof.
  intros H. rewrite handler_settled.
  apply Nat.leb_gt in H. rewrite H. reflexivity.
Qed.

(** An invalid body ends the handler on line 8 when line 5 did not. *)
Lemma handler_rejects stack event context now B :
  Event.body event = Some B -> B <> [] -> JSON_parse B = None ->
  settled (handler stack event context now)
  = Rejected (if (depth (Event.to_value event) <=? stack)%nat
              then SyntaxError else RangeError).
Proof.
  intros Eb Hne Ep.
  rewrite handler_settled, (parse_body_invalid event B Eb Hne Ep).
  destruct (depth (Event.to_value event) <=? stack)%nat; reflexivity.
Qed.

(** A response comes from a value the body gave, with room on both
    lines. *)
Lemma fulfilled_response stack event context now r :
  settled (handler stack event context now) = Fulfilled r ->
  exists v, settled (parse_body event) = Fulfilled v
            /\ wf_value v
            /\ (depth (Event.to_value event) <= stack)%nat
            /\ (depth v < stack)%nat
            /\ r = response context now v.
Proof.
  rewrite handler_settled.
  destruct (depth (Event.to_value event) <=? stack)%nat eqn:Hlog;
    [|discriminate].
  destruct (settled (parse_body event)) as [v|e] eqn:E; [|discriminate].
  destruct (depth v <? stack)%nat eqn:Hroom; [|discriminate].
  intros H. inversion H; subst. exists v.
  split; [reflexivity|]. split; [eapply parse_body_wf, E|].
  split; [apply Nat.leb_le, Hlog|]. split; [apply Nat.ltb_lt, Hroom|].
  reflexivity.
Qed.

Lemma obj_get_reparsed k (l : object value) :
  obj_get k (map (fun kv => (fst kv, reparsed (snd kv))) l)
  = option_map reparsed (obj_get k l).
Proof.
  induction l as [|[k' v] l IH]; [reflexivity|].
  cbn [map obj_get fst snd]. destruct (jsstring_eqb k k'); [reflexivity | exact IH].
Qed.

(** The [body] of an event is read back as it is. *)
Lemma event_body_reparsed event :
  option_map reparsed (obj_get (js "body") (Event.properties event))
  = obj_get (js "body") (Event.properties event).
Proof.
  pose proof (Event.body_type event) as H. unfold Event.body_typed in H.
  destruct (obj_get (js "body") (Event.properties event))
    as [[| b | x | s | l | l]|]; try discriminate; reflexivity.
Qed.

End HandlerFacts.
Export HandlerFacts.

(** ** The text of the response body *)

Module TextFacts.

Lemma quote_units_plain s : forallb plain s = true -> quote_units s = s.
Proof.
  induction s as [|c s IH]; [reflexivity|]. cbn [forallb quote_units].
  intros H. apply andb_prop in H. destruct H as [Hc Hs].
  rewrite (IH Hs). unfold plain in Hc.
  apply andb_prop in Hc. destruct Hc as [Hc H4].
  apply andb_prop in Hc. destruct Hc as [Hc H3].
  apply andb_prop in Hc. destruct Hc as [H1 H2].
  apply N.leb_le in H1. apply N.ltb_lt in H2.
  apply negb_true_iff in H3. apply negb_true_iff in H4.
  unfold is_high_surrogate, is_low_surrogate.
  replace (55296 <=? c)%N with false by (symmetry; apply N.leb_gt; exact H2).
  replace (56320 <=? c)%N with false by (symmetry; apply N.leb_gt; lia).
  cbn [andb]. unfold quote_unit. rewrite H3, H4.
  repeat match goal with
  | |- context [(c =? ?k)%N] =>
      destruct (N.eqb_spec c k) as [E|_]; [exfalso; rewrite E in H1; vm_compute in H1; contradiction|]
  end.
  destruct (N.ltb_spec c 32); [lia | reflexivity].
Qed.

Lemma digit_char_plain d : 0 <= d < 10 -> plain (digit_char d) = true.
Proof.
  intros H. unfold plain, digit_char.
  replace (32 <=? Z.to_N (d + 48))%N with true by (symmetry; apply N.leb_le; lia).
  replace (Z.to_N (d + 48) <? 55296)%N with true by (symmetry; apply N.ltb_lt; lia).
  replace (Z.to_N (d + 48) =? c_quote)%N with false
    by (symmetry; apply N.eqb_neq; unfold c_quote; lia).
  replace (Z.to_N (d + 48) =? c_backslash)%N with false
    by (symmetry; apply N.eqb_neq; unfold c_backslash; lia).
  reflexivity.
Qed.

Lemma pad_plain k : forall z, forallb plain (pad k z) = true.
Proof.
  induction k as [|k IH]; intros z; [reflexivity|]. cbn [pad].
  rewrite forallb_app, IH. cbn [forallb].
  rewrite digit_char_plain by (apply Z.mod_pos_bound; lia). reflexivity.
Qed.

Lemma plain_sep a c b :
  forallb plain a = true -> plain c = true -> forallb plain b = true ->
  forallb plain (a ++ c :: b) = true.
Proof.
  intros Ha Hc Hb. rewrite forallb_app. cbn [forallb].
  rewrite Ha, Hc, Hb. reflexivity.
Qed.

Lemma year_string_plain y : forallb plain (year_string y) = true.
Proof.
  unfold year_string. destruct (_ && _); [apply pad_plain|].
  cbn [forallb]. rewrite pad_plain. destruct (y <? 0); reflexivity.
Qed.

Lemma Date_toISOString_plain t : forallb plain (Date_toISOString t) = true.
Proof.
  unfold Date_toISOString.
  repeat (apply plain_sep;
          [first [apply year_string_plain | apply pad_plain] | reflexivity |]).
  reflexivity.
Qed.

(** The text of the object the handler serializes. *)
Lemma payload_text context now v :
  json_text (JObj (payload context now v)) =
    jsq "{'message':'Hello, World!','timestamp':'"
      ++ Date_toISOString (ms now)
      ++ jsq "','requestId':"
      ++ QuoteJSONString (Context.awsRequestId context)
      ++ jsq ",'body':" ++ json_text v ++ js "}".
Proof.
  unfold payload. cbn [json_text map join_comma fst snd].
  unfold QuoteJSONString at 4.
  rewrite (quote_units_plain _ (Date_toISOString_plain (ms now))).
  generalize (Date_toISOString (ms now)) as ts.
  generalize (QuoteJSONString (Context.awsRequestId context)) as rid.
  generalize (json_text v) as body. intros body rid ts.
  repeat (rewrite <- ?app_assoc, <- ?app_comm_cons). reflexivity.
Qed.

End TextFacts.
Export TextFacts.

(** ** The calendar of toISOString *)

Module DateFacts.

(** The year of a time value is the one its day falls in. *)
Lemma YearFromTime_spec t :
  DayFromYear (YearFromTime t) <= Day t < DayFromYear (YearFromTime t + 1).
Proof.
  unfold YearFromTime. generalize (Day t) as d. intros d.
  set (y := 1970 + d * 400 / 146097).
  assert (Hy : 146097 * (y - 1970) <= d * 400 < 146097 * (y - 1970) + 146097).
  { unfold y. Z.to_euclidean_division_equations. lia. }
  clearbody y. unfold DayFromYear.
  destruct (Z.leb_spec (365 * (y + 1 - 1970) + (y + 1 - 1969) / 4
                        - (y + 1 - 1901) / 100 + (y + 1 - 1601) / 400) d).
  - Z.to_euclidean_division_equations. lia.
  - destruct (Z.ltb_spec d (365 * (y - 1970) + (y - 1969) / 4
                            - (y - 1901) / 100 + (y - 1601) / 400));
      Z.to_euclidean_division_equations; lia.
Qed.

Lemma DayWithinYear_range t :
  0 <= DayWithinYear t < 365 + InLeapYear t.
Proof.
  pose proof (YearFromTime_spec t) as H.
  unfold DayWithinYear, InLeapYear.
  generalize dependent (YearFromTime t). intros y H.
  unfold DayFromYear in *.
  destruct (Z.eqb_spec (y mod 4) 0);
    destruct (Z.eqb_spec (y mod 100) 0);
    destruct (Z.eqb_spec (y mod 400) 0); cbn [andb orb negb];
    Z.to_euclidean_division_equations; lia.
Qed.

(** The fields of the ISO text put together give the time value back. *)
Lemma time_fields t :
  t = (DayFromYear (YearFromTime t) + month_start t (MonthFromTime t)
       + DateFromTime t - 1) * msPerDay
      + HourFromTime t * 3600000 + MinFromTime t * 60000
      + SecFromTime t * 1000 + msFromTime t.
Proof.
  unfold DateFromTime, DayWithinYear, Day, HourFromTime, MinFromTime,
    SecFromTime, msFromTime, msPerDay.
  generalize (DayFromYear (YearFromTime t)) (month_start t (MonthFromTime t)).
  intros a b. Z.to_euclidean_division_equations. lia.
Qed.

End DateFacts.
Export DateFacts.

(** ** JSON.stringify with a gap, read back *)

Module GapFacts.

Lemma skip_ws_app w : forall s,
  forallb is_ws w = true -> skip_ws (w ++ s) = skip_ws s.
Proof.
  induction w as [|c w IH]; intros s H; [reflexivity|].
  cbn [forallb] in H. apply andb_prop in H. destruct H as [Hc Hw].
  cbn [app skip_ws]. rewrite Hc. apply IH, Hw.
Qed.

Lemma join_with_cons sep a b l :
  join_with sep (a :: b :: l) = a ++ sep ++ join_with sep (b :: l).
Proof. reflexivity. Qed.

Lemma stringify_gap_head gap ind v :
  wf_value v -> exists c t, stringify_gap gap ind v = c :: t /\ value_start c.
Proof.
  intros Hwf.
  destruct v as [| b | x | s | [|v l] | [|kv l]];
    try (apply (stringify_head _ Hwf));
    cbn [stringify_gap]; eexists _, _; (split; [reflexivity | repeat split]).
Qed.

Lemma skip_ws_gap_value gap ind v rest :
  wf_value v ->
  skip_ws (stringify_gap gap ind v ++ rest) = stringify_gap gap ind v ++ rest.
Proof.
  intros H. destruct (stringify_gap_head gap ind v H) as (c & t & E & Hc).
  rewrite E. apply skip_ws_start, Hc.
Qed.

Lemma number_end_newline rest : number_end (10%N :: rest).
Proof. repeat split; discriminate. Qed.

Lemma parse_elements_gap gap ind ind' l :
  forallb is_ws ind = true -> forallb is_ws ind' = true ->
  Forall (fun v => wf_value v /\ parses_back_gap gap v) l -> l <> [] ->
  forall fuel rest,
    (length l + list_sum (map fuel_of l) <= fuel)%nat ->
    parse_elements fuel
      (join_with (ch "," :: 10%N :: ind') (map (stringify_gap gap ind') l)
         ++ 10%N :: ind ++ ch "]" :: rest)
    = Some (map reparsed l, rest).
Proof.
  intros Hind Hind'.
  induction l as [|v l IH]; intros Hall Hne fuel rest Hfuel; [contradiction|].
  inversion Hall as [|? ? [Hwf Hv] Hl]; subst.
  cbn [length map list_sum fold_right] in Hfuel.
  destruct fuel as [|f]; [lia|].
  cbn [parse_elements].
  destruct l as [|v2 l].
  - cbn [map join_with].
    rewrite Hv; [| exact Hind' | lia | apply number_end_newline].
    change (10%N :: ind ++ ch "]" :: rest)
      with ((10%N :: ind) ++ ch "]" :: rest).
    rewrite skip_ws_app by (cbn [forallb]; rewrite Hind; reflexivity).
    cbn [skip_ws]. ground_chars. reflexivity.
  - cbn [map]. rewrite join_with_cons, <- !app_assoc. cbn [app].
    rewrite Hv; [| exact Hind' | lia | apply number_end_delimiter; tauto].
    cbn [skip_ws]. ground_chars.
    inversion Hl as [|? ? [Hwf2 _] _]; subst.
    change (stringify_gap gap ind' v2 :: map (stringify_gap gap ind') l)
      with (map (stringify_gap gap ind') (v2 :: l)).
    assert (Hs : forall t,
      skip_ws (10%N :: ind' ++ join_with (ch "," :: 10%N :: ind')
                 (map (stringify_gap gap ind') (v2 :: l)) ++ t)
      = join_with (ch "," :: 10%N :: ind')
          (map (stringify_gap gap ind') (v2 :: l)) ++ t).
    { intros t.
      change (10%N :: ind' ++ ?x) with ((10%N :: ind') ++ x).
      rewrite skip_ws_app by (cbn [forallb]; rewrite Hind'; reflexivity).
      destruct l as [|v3 l]; cbn [map].
      - cbn [join_with]. apply skip_ws_gap_value, Hwf2.
      - rewrite join_with_cons, <- !app_assoc.
        apply skip_ws_gap_value, Hwf2. }
    rewrite Hs, IH; [reflexivity | exact Hl | discriminate |].
    cbn [length map list_sum fold_right] in *. lia.
Qed.

Lemma parse_members_gap gap ind ind' (l : list (jsstring * value)) :
  forallb is_ws ind = true -> forallb is_ws ind' = true ->
  Forall (fun kv => wf_value (snd kv) /\ parses_back_gap gap (snd kv)) l ->
  l <> [] ->
  forall fuel rest,
    (length l + list_sum (map (fun kv => fuel_of (snd kv)) l) <= fuel)%nat ->
    parse_members fuel
      (join_with (ch "," :: 10%N :: ind') (map (member_text_gap gap ind') l)
         ++ 10%N :: ind ++ ch "}" :: rest)
    = Some (map (fun kv => (fst kv, reparsed (snd kv))) l, rest).
Proof.
  intros Hind Hind'.
  induction l as [|[k v] l IH]; intros Hall Hne fuel rest Hfuel; [contradiction|].
  inversion Hall as [|? ? [Hwf Hv] Hl]; subst. cbn [snd] in Hwf, Hv.
  cbn [length map list_sum fold_right snd] in Hfuel.
  destruct fuel as [|f]; [lia|].
  assert (Hkey : forall t,
    parse_members (S f) (member_text_gap gap ind' (k, v) ++ t) =
      match parse_value f (stringify_gap gap ind' v ++ t) with
      | Some (v', r2) =>
          match skip_ws r2 with
          | c3 :: r3 =>
              if (c3 =? ch ",")%N then
                match parse_members f (skip_ws r3) with
                | Some (l', r4) => Some ((k, v') :: l', r4)
                | None => None
                end
              else if (c3 =? ch "}")%N then Some ([(k, v')], r3)
              else None
          | [] => None
          end
      | None => None
      end).
  { intros t. unfold member_text_gap, QuoteJSONString. cbn [fst snd].
    cbn [app parse_members]. ground_chars.
    rewrite <- !app_assoc. cbn [app].
    rewrite parse_quoted. cbn [skip_ws]. ground_chars.
    cbn [skip_ws]. ground_chars. rewrite skip_ws_gap_value by exact Hwf. reflexivity. }
  destruct l as [|kv2 l].
  - cbn [map join_with]. rewrite Hkey.
    rewrite Hv; [| exact Hind' | lia | apply number_end_newline].
    change (10%N :: ind ++ ch "}" :: rest)
      with ((10%N :: ind) ++ ch "}" :: rest).
    rewrite skip_ws_app by (cbn [forallb]; rewrite Hind; reflexivity).
    cbn [skip_ws]. ground_chars. reflexivity.
  - cbn [map]. rewrite join_with_cons, <- !app_assoc.
    rewrite Hkey. cbn [app].
    rewrite Hv; [| exact Hind' | lia | apply number_end_delimiter; tauto].
    cbn [skip_ws]. ground_chars.
    change (member_text_gap gap ind' kv2 :: map (member_text_gap gap ind') l)
      with (map (member_text_gap gap ind') (kv2 :: l)).
    assert (Hs : forall t,
      skip_ws (10%N :: ind' ++ join_with (ch "," :: 10%N :: ind')
                 (map (member_text_gap gap ind') (kv2 :: l)) ++ t)
      = join_with (ch "," :: 10%N :: ind')
          (map (member_text_gap gap ind') (kv2 :: l)) ++ t).
    { intros t.
      change (10%N :: ind' ++ ?x) with ((10%N :: ind') ++ x).
      rewrite skip_ws_app by (cbn [forallb]; rewrite Hind'; reflexivity).
      destruct l as [|kv3 l]; reflexivity. }
    rewrite Hs, IH; [reflexivity | exact Hl | discriminate |].
    cbn [length map list_sum fold_right] in *. lia.
Qed.


Lemma ws_app a b :
  forallb is_ws a = true -> forallb is_ws b = true ->
  forallb is_ws (a ++ b) = true.
Proof. intros Ha Hb. rewrite forallb_app, Ha, Hb. reflexivity. Qed.

Lemma parse_stringify_gap gap v :
  forallb is_ws gap = true -> wf_value v -> parses_back_gap gap v.
Proof.
  intros Hgap.
  induction v as [| b | x | s | l IH | l IH] using value_ind;
    intros Hwf ind fuel rest Hind Hfuel Hrest;
    try (apply (parse_stringify _ Hwf fuel rest Hfuel Hrest));
    (destruct fuel as [|f]; [cbn [fuel_of] in Hfuel; lia|]);
    pose proof (ws_app ind gap Hind Hgap) as Hind'.
  - apply wf_arr in Hwf.
    assert (Hall : Forall (fun v => wf_value v /\ parses_back_gap gap v) l).
    { rewrite Forall_forall in *. intros v Hv. split; [apply Hwf, Hv|].
      apply IH; [exact Hv | apply Hwf, Hv]. }
    cbn [reparsed fuel_of] in *.
    destruct l as [|v l]; [reflexivity|].
    remember (v :: l) as l0 eqn:El0.
    assert (E : stringify_gap gap ind (JArr l0) ++ rest
      = ch "[" :: (10%N :: ind ++ gap)
          ++ join_with (ch "," :: 10%N :: ind ++ gap)
               (map (stringify_gap gap (ind ++ gap)) l0)
          ++ 10%N :: ind ++ ch "]" :: rest).
    { subst l0. cbn [stringify_gap app]. repeat (rewrite <- ?app_assoc; cbn [app]). reflexivity. }
    rewrite E. cbn [parse_value]. ground_chars.
    rewrite skip_ws_app by (cbn [forallb]; rewrite Hind'; reflexivity).
    assert (Hs : exists c t,
      join_with (ch "," :: 10%N :: ind ++ gap)
        (map (stringify_gap gap (ind ++ gap)) l0)
        ++ 10%N :: ind ++ ch "]" :: rest = c :: t /\ value_start c).
    { subst l0. inversion Hall as [|? ? [Hwfv _] _]; subst.
      destruct (stringify_gap_head gap (ind ++ gap) v Hwfv) as (c & t & Ev & Hc).
      destruct l as [|v2 l]; cbn [map].
      - cbn [join_with]. rewrite Ev. eexists _, _. split; [reflexivity | exact Hc].
      - rewrite join_with_cons, Ev. eexists _, _. split; [reflexivity | exact Hc]. }
    destruct Hs as (c & t & Es & Hc).
    rewrite Es, (skip_ws_start c t Hc).
    destruct Hc as (_ & -> & _). rewrite <- Es.
    rewrite (parse_elements_gap gap ind (ind ++ gap) l0 Hind Hind' Hall);
      [reflexivity | subst l0; discriminate | lia].
  - apply wf_obj in Hwf. destruct Hwf as [Hord Hwf].
    assert (Hall : Forall
      (fun kv => wf_value (snd kv) /\ parses_back_gap gap (snd kv)) l).
    { rewrite Forall_forall in *. intros kv Hkv. split; [apply Hwf, Hkv|].
      apply IH; [exact Hkv | apply Hwf, Hkv]. }
    cbn [reparsed fuel_of] in *.
    destruct l as [|kv l]; [reflexivity|].
    remember (kv :: l) as l0 eqn:El0.
    assert (E : stringify_gap gap ind (JObj l0) ++ rest
      = ch "{" :: (10%N :: ind ++ gap)
          ++ join_with (ch "," :: 10%N :: ind ++ gap)
               (map (member_text_gap gap (ind ++ gap)) l0)
          ++ 10%N :: ind ++ ch "}" :: rest).
    { subst l0. cbn [stringify_gap app]. repeat (rewrite <- ?app_assoc; cbn [app]). reflexivity. }
    rewrite E. cbn [parse_value]. ground_chars.
    rewrite skip_ws_app by (cbn [forallb]; rewrite Hind'; reflexivity).
    assert (Hs : exists t,
      join_with (ch "," :: 10%N :: ind ++ gap)
        (map (member_text_gap gap (ind ++ gap)) l0)
        ++ 10%N :: ind ++ ch "}" :: rest = c_quote :: t).
    { subst l0. cbn [map]. destruct l as [|kv2 l]; eexists; reflexivity. }
    destruct Hs as (t & Es).
    rewrite Es. cbn [skip_ws]. ground_chars. rewrite <- Es.
    rewrite (parse_members_gap gap ind (ind ++ gap) l0 Hind Hind' Hall);
      [| subst l0; discriminate | lia].
    rewrite obj_of_list_id; [reflexivity|].
    unfold keys in *. rewrite map_map. cbn [fst].
    exact Hord.
Qed.

Lemma join_with_length {A : Type} (f : A -> nat) (g : A -> jsstring) sep l :
  Forall (fun a => (f a <= length (g a))%nat) l ->
  (length l + list_sum (map f l)
   <= length (join_with (ch "," :: sep) (map g l)) + 1)%nat.
Proof.
  induction l as [|a l IH]; intros H.
  - simpl. lia.
  - inversion H as [|? ? Ha Hl]; subst. specialize (IH Hl).
    destruct l as [|b l].
    + cbn [map join_with length list_sum fold_right]. lia.
    + cbn [map]. rewrite join_with_cons.
      cbn [map length list_sum fold_right] in *.
      rewrite !length_app. cbn [length]. lia.
Qed.

Lemma fuel_le_length_gap gap v : forall ind,
  wf_value v -> (fuel_of v <= length (stringify_gap gap ind v))%nat.
Proof.
  induction v as [| b | x | s | l IH | l IH] using value_ind; intros ind Hwf;
    try (apply (fuel_le_length _ Hwf)).
  - apply wf_arr in Hwf. destruct l as [|v l]; [cbn; lia|].
    remember (v :: l) as l0 eqn:El0.
    assert (E : stringify_gap gap ind (JArr l0)
      = ch "[" :: (10%N :: ind ++ gap)
          ++ join_with (ch "," :: 10%N :: ind ++ gap)
               (map (stringify_gap gap (ind ++ gap)) l0)
          ++ 10%N :: ind ++ [ch "]"]).
    { subst l0. reflexivity. }
    rewrite E. cbn [fuel_of length]. rewrite !length_app. cbn [length].
    pose proof (join_with_length fuel_of (stringify_gap gap (ind ++ gap))
                  (10%N :: ind ++ gap) l0) as H.
    rewrite Forall_forall in *.
    specialize (H (fun v Hv => IH v Hv (ind ++ gap) (Hwf v Hv))). lia.
  - apply wf_obj in Hwf. destruct Hwf as [_ Hwf].
    destruct l as [|kv l]; [cbn; lia|].
    remember (kv :: l) as l0 eqn:El0.
    assert (E : stringify_gap gap ind (JObj l0)
      = ch "{" :: (10%N :: ind ++ gap)
          ++ join_with (ch "," :: 10%N :: ind ++ gap)
               (map (member_text_gap gap (ind ++ gap)) l0)
          ++ 10%N :: ind ++ [ch "}"]).
    { subst l0. reflexivity. }
    rewrite E. cbn [fuel_of length]. rewrite !length_app. cbn [length].
    pose proof (join_with_length (fun kv => fuel_of (snd kv))
                  (member_text_gap gap (ind ++ gap))
                  (10%N :: ind ++ gap) l0) as H.
    cbv beta in H. rewrite Forall_forall in *.
    assert (Hl : forall kv, In kv l0 ->
      (fuel_of (snd kv) <= length (member_text_gap gap (ind ++ gap) kv))%nat).
    { intros kv' Hkv. unfold member_text_gap. rewrite length_app. cbn [length].
      specialize (IH kv' Hkv (ind ++ gap) (Hwf kv' Hkv)). lia. }
    specialize (H Hl). lia.
Qed.

Lemma repeat_space_ws n : forallb is_ws (repeat (ch " ") n) = true.
Proof. induction n as [|n IH]; [reflexivity|]. cbn [repeat forallb]. rewrite IH. reflexivity. Qed.

(** JSON.parse after JSON.stringify with a number of spaces as third
    argument: the indentation does not change what is read back. *)
Theorem JSON_parse_stringify_spaces n v :
  wf_value v -> JSON_parse (json_text_spaces n v) = Some (reparsed v).
Proof.
  intros Hwf. unfold json_text_spaces.
  destruct (Nat.min n 10) as [|k]; [apply JSON_parse_stringify, Hwf|].
  set (gap := repeat (ch " ") (S k)).
  unfold JSON_parse.
  rewrite <- (app_nil_r (stringify_gap gap [] v)) at 2.
  rewrite skip_ws_gap_value by exact Hwf.
  rewrite (parse_stringify_gap gap v (repeat_space_ws _) Hwf);
    [reflexivity | reflexivity | | exact I].
  pose proof (fuel_le_length_gap gap v [] Hwf). lia.
Qed.

End GapFacts.
Export GapFacts.

(** ** Values that were read back *)

Module EchoFacts.

Lemma reparsed_number_idem x : reparsed_number (reparsed_number x) = reparsed_number x.
Proof. destruct x; reflexivity. Qed.

Lemma reparsed_number_finite x : is_finite (reparsed_number x) = is_finite x.
Proof. destruct x; reflexivity. Qed.

Lemma reparsed_number_wf x : wf_number x -> wf_number (reparsed_number x).
Proof. destruct x; intros H; exact H || exact I. Qed.

Lemma reparsed_keys (l : object value) :
  keys (map (fun kv => (fst kv, reparsed (snd kv))) l) = keys l.
Proof. unfold keys. rewrite map_map. reflexivity. Qed.

(** Reading back a second time changes nothing. *)
Lemma reparsed_idem v : reparsed (reparsed v) = reparsed v.
Proof.
  induction v as [| b | x | s | l IH | l IH] using value_ind;
    try reflexivity.
  - cbn [reparsed]. destruct (is_finite x) eqn:E; [|reflexivity].
    cbn [reparsed]. rewrite reparsed_number_finite, E, reparsed_number_idem.
    reflexivity.
  - cbn [reparsed]. f_equal. rewrite map_map.
    apply map_ext_in. intros v Hv. rewrite Forall_forall in IH. apply IH, Hv.
  - cbn [reparsed]. f_equal. rewrite map_map.
    apply map_ext_in. intros kv Hkv. cbn [fst snd].
    rewrite Forall_forall in IH. rewrite (IH kv Hkv). reflexivity.
Qed.

Lemma reparsed_wf v : wf_value v -> wf_value (reparsed v).
Proof.
  induction v as [| b | x | s | l IH | l IH] using value_ind; intros Hwf;
    try exact I.
  - cbn [reparsed]. destruct (is_finite x); [|exact I].
    apply reparsed_number_wf, Hwf.
  - cbn [reparsed]. apply wf_arr. apply wf_arr in Hwf.
    rewrite Forall_forall in *. intros v Hv.
    apply in_map_iff in Hv. destruct Hv as (w & <- & Hw).
    apply IH; [exact Hw | apply Hwf, Hw].
  - cbn [reparsed]. apply wf_obj. apply wf_obj in Hwf.
    destruct Hwf as [Hord Hwf]. split; [rewrite reparsed_keys; exact Hord|].
    rewrite Forall_forall in *. intros kv Hkv.
    apply in_map_iff in Hkv. destruct Hkv as (w & <- & Hw). cbn [snd].
    apply IH; [exact Hw | apply Hwf, Hw].
Qed.

(** What is read back holds no infinity and no NaN. *)
Lemma reparsed_finite v : all_finite (reparsed v) = true.
Proof.
  induction v as [| b | x | s | l IH | l IH] using value_ind;
    try reflexivity.
  - cbn [reparsed]. destruct (is_finite x) eqn:E; [|reflexivity].
    cbn [all_finite]. rewrite reparsed_number_finite. exact E.
  - cbn [reparsed all_finite]. apply forallb_forall. intros v Hv.
    apply in_map_iff in Hv. destruct Hv as (w & <- & Hw).
    rewrite Forall_forall in IH. apply IH, Hw.
  - cbn [reparsed all_finite]. apply forallb_forall. intros kv Hkv.
    apply in_map_iff in Hkv. destruct Hkv as (w & <- & Hw). cbn [snd].
    rewrite Forall_forall in IH. apply IH, Hw.
Qed.

Lemma stringify_nonempty v : wf_value v -> json_text v <> [].
Proof.
  intros H E. destruct (stringify_head v H) as (c & t & E' & _).
  rewrite E in E'. discriminate.
Qed.

(** The text of a value that was read back is parsed to that value. *)
Lemma JSON_parse_reparsed v :
  wf_value v -> JSON_parse (json_text (reparsed v)) = Some (reparsed v).
Proof.
  intros H. rewrite JSON_parse_stringify by (apply reparsed_wf, H).
  rewrite reparsed_idem. reflexivity.
Qed.

Lemma skip_ws_blank s : forallb is_ws s = true -> skip_ws s = [].
Proof.
  induction s as [|c s IH]; [reflexivity|]. cbn [forallb skip_ws].
  intros H. apply andb_prop in H. destruct H as [-> H]. apply IH, H.
Qed.

(** White space alone is no JSON text. *)
Lemma JSON_parse_blank s : forallb is_ws s = true -> JSON_parse s = None.
Proof.
  intros H. unfold JSON_parse. rewrite (skip_ws_blank s H).
  rewrite Nat.add_comm. reflexivity.
Qed.

End EchoFacts.
Export EchoFacts.

(** ** Control characters *)

Module LineFacts.

Lemma visible_app a b :
  forallb visible a = true -> forallb visible b = true ->
  forallb visible (a ++ b) = true.
Proof. intros Ha Hb. rewrite forallb_app, Ha, Hb. reflexivity. Qed.

Lemma visible_cons c s :
  visible c = true -> forallb visible s = true ->
  forallb visible (c :: s) = true.
Proof. intros Hc Hs. cbn [forallb]. rewrite Hc, Hs. reflexivity. Qed.

Lemma digits_visible ds :
  forallb is_digit ds = true -> forallb visible ds = true.
Proof.
  rewrite !forallb_forall. intros H c Hc. specialize (H c Hc).
  unfold is_digit in H. apply andb_prop in H. destruct H as [H _].
  apply N.leb_le in H. apply N.leb_le. lia.
Qed.

Lemma repeat_visible c n :
  visible c = true -> forallb visible (repeat c n) = true.
Proof.
  intros Hc. induction n as [|n IH]; [reflexivity|].
  cbn [repeat forallb]. rewrite Hc, IH. reflexivity.
Qed.

Lemma format_decimal_visible ds n :
  forallb is_digit ds = true -> forallb visible (format_decimal ds n) = true.
Proof.
  intros Hd. pose proof (digits_visible ds Hd) as Hv.
  assert (Hsplit : forall k, forallb visible (firstn k ds) = true
                             /\ forallb visible (skipn k ds) = true).
  { intros k. rewrite <- (firstn_skipn k ds), forallb_app in Hv.
    apply andb_prop in Hv. exact Hv. }
  unfold format_decimal.
  destruct (_ && _).
  { apply visible_app; [exact Hv | apply repeat_visible; reflexivity]. }
  destruct (_ && _).
  { destruct (Hsplit (Z.to_nat n)) as [H1 H2].
    apply visible_app; [exact H1 | apply visible_cons; [reflexivity | exact H2]]. }
  destruct (_ && _).
  { do 2 (apply visible_cons; [reflexivity|]).
    apply visible_app; [apply repeat_visible; reflexivity | exact Hv]. }
  assert (He : forallb visible
                 (ch "e" :: (if n - 1 <? 0 then ch "-" else ch "+")
                    :: to_digits (Z.abs (n - 1))) = true).
  { apply visible_cons; [reflexivity|].
    apply visible_cons; [destruct (n - 1 <? 0); reflexivity|].
    apply digits_visible, to_digits_digits. lia. }
  destruct ds as [|d [|d2 rest]]; [reflexivity | |].
  - cbn [forallb] in Hv. apply andb_prop in Hv. destruct Hv as [Hv _].
    apply visible_cons; [exact Hv | exact He].
  - cbn [forallb] in Hv. apply andb_prop in Hv. destruct Hv as [Hv1 Hv2].
    apply visible_cons; [exact Hv1|].
    apply visible_cons; [reflexivity|].
    apply visible_app; [exact Hv2 | exact He].
Qed.

Lemma Number_toString_visible x :
  wf_number x -> forallb visible (Number_toString x) = true.
Proof.
  destruct x as [| [|] | z | neg m e]; try reflexivity.
  intros Hc. cbn [Number_toString].
  pose proof (shortest_good m e Hc) as [Hs _].
  destruct (shortest m e) as [s n]. cbn [fst snd] in Hs.
  apply visible_app; [destruct neg; reflexivity|].
  apply format_decimal_visible, to_digits_digits. lia.
Qed.

Lemma hex_digit_visible d : visible (hex_digit d) = true.
Proof.
  unfold visible, hex_digit. apply N.leb_le.
  destruct (d <? 10)%N; lia.
Qed.

Lemma unicode_escape_visible c : forallb visible (unicode_escape c) = true.
Proof.
  unfold unicode_escape. cbn [forallb]. rewrite !hex_digit_visible. reflexivity.
Qed.

Lemma quote_unit_visible c : forallb visible (quote_unit c) = true.
Proof.
  unfold quote_unit.
  repeat match goal with
         | |- context [if ?b then _ else _] =>
             destruct b eqn:?; [try reflexivity|]
         end.
  - apply unicode_escape_visible.
  - cbn [forallb]. unfold visible.
    replace (32 <=? c)%N with true; [reflexivity|].
    symmetry. apply N.leb_le.
    match goal with H : (c <? 32)%N = false |- _ => apply N.ltb_ge in H; exact H end.
Qed.

Lemma surrogate_visible c : is_high_surrogate c = true -> visible c = true.
Proof.
  unfold is_high_surrogate, visible. intros H.
  apply andb_prop in H. destruct H as [H _].
  apply N.leb_le in H. apply N.leb_le. lia.
Qed.

Lemma low_surrogate_visible c : is_low_surrogate c = true -> visible c = true.
Proof.
  unfold is_low_surrogate, visible. intros H.
  apply andb_prop in H. destruct H as [H _].
  apply N.leb_le in H. apply N.leb_le. lia.
Qed.

Lemma quote_units_visible n : forall s,
  (length s <= n)%nat -> forallb visible (quote_units s) = true.
Proof.
  induction n as [|n IH]; intros s Hn.
  - destruct s; [reflexivity | cbn [length] in Hn; lia].
  - destruct s as [|c s]; [reflexivity|]. cbn [length] in Hn.
    assert (Hs : forallb visible (quote_units s) = true) by (apply IH; lia).
    cbn [quote_units].
    destruct (is_high_surrogate c) eqn:Hh.
    + destruct s as [|c2 s2]; [apply unicode_escape_visible|].
      destruct (is_low_surrogate c2) eqn:Hl.
      * apply visible_cons; [apply surrogate_visible, Hh|].
        apply visible_cons; [apply low_surrogate_visible, Hl|].
        apply IH. cbn [length] in Hn. lia.
      * apply visible_app; [apply unicode_escape_visible | exact Hs].
    + destruct (is_low_surrogate c).
      * apply visible_app; [apply unicode_escape_visible | exact Hs].
      * apply visible_app; [apply quote_unit_visible | exact Hs].
Qed.

Lemma QuoteJSONString_visible s : forallb visible (QuoteJSONString s) = true.
Proof.
  unfold QuoteJSONString. apply visible_cons; [reflexivity|].
  apply visible_app; [apply (quote_units_visible (length s)); lia | reflexivity].
Qed.

Lemma join_comma_visible l :
  Forall (fun s => forallb visible s = true) l ->
  forallb visible (join_comma l) = true.
Proof.
  induction l as [|a l IH]; intros H; [reflexivity|].
  inversion H as [|? ? Ha Hl]; subst. destruct l as [|b l]; [exact Ha|].
  rewrite join_comma_cons.
  apply visible_app; [exact Ha|].
  apply visible_cons; [reflexivity | apply IH, Hl].
Qed.

(** JSON.stringify without a gap writes no control character. *)
Lemma JSON_stringify_visible v :
  wf_value v -> forallb visible (json_text v) = true.
Proof.
  induction v as [| b | x | s | l IH | l IH] using value_ind; intros Hwf.
  - reflexivity.
  - destruct b; reflexivity.
  - cbn [json_text]. destruct (is_finite x); [|reflexivity].
    apply Number_toString_visible, Hwf.
  - apply QuoteJSONString_visible.
  - apply wf_arr in Hwf. cbn [json_text].
    apply visible_cons; [reflexivity|].
    apply visible_app; [|reflexivity].
    apply join_comma_visible. rewrite Forall_forall in *.
    intros s Hs. apply in_map_iff in Hs. destruct Hs as (v & <- & Hv).
    apply IH; [exact Hv | apply Hwf, Hv].
  - apply wf_obj in Hwf. destruct Hwf as [_ Hwf]. cbn [json_text].
    apply visible_cons; [reflexivity|].
    apply visible_app; [|reflexivity].
    apply join_comma_visible. rewrite Forall_forall in *.
    intros s Hs. apply in_map_iff in Hs. destruct Hs as (kv & <- & Hkv).
    apply visible_app; [apply QuoteJSONString_visible|].
    apply visible_cons; [reflexivity|].
    apply IH; [exact Hkv | apply Hwf, Hkv].
Qed.

End LineFacts.
Export LineFacts.

(** ** White space around a JSON text *)

Module PaddingFacts.

Lemma ws_not_digit c : is_ws c = true -> is_digit c = false.
Proof.
  unfold is_ws, is_digit. intros H.
  repeat (apply orb_prop in H; destruct H as [H|H]);
    apply N.eqb_eq in H; subst; reflexivity.
Qed.

Lemma ws_head c r : forallb is_ws (c :: r) = true -> is_ws c = true.
Proof. cbn [forallb]. intros H. apply andb_prop in H. apply H. Qed.

Lemma ws_char x a : is_ws a = false -> is_ws x = true -> (x =? a)%N = false.
Proof.
  intros Ha Hx. destruct (N.eqb_spec x a) as [->|]; [congruence | reflexivity].
Qed.

Lemma char_ws a x : is_ws a = false -> is_ws x = true -> (a =? x)%N = false.
Proof. intros Ha Hx. rewrite N.eqb_sym. apply ws_char; assumption. Qed.

Lemma skip_ws_pad w s :
  forallb is_ws w = true ->
  skip_ws (s ++ w) = match skip_ws s with [] => [] | c :: r => c :: r ++ w end.
Proof.
  intros Hw. induction s as [|c s IH]; [apply skip_ws_blank, Hw|].
  cbn [app skip_ws]. destruct (is_ws c); [exact IH | reflexivity].
Qed.

Lemma expect_pad w lit : forall s,
  forallb is_ws w = true ->
  forallb (fun c => negb (is_ws c)) lit = true ->
  expect lit (s ++ w) =
    match expect lit s with Some r => Some (r ++ w) | None => None end.
Proof.
  induction lit as [|a lit IH]; intros s Hw Hl.
  - destruct s; reflexivity.
  - cbn [forallb] in Hl. apply andb_prop in Hl. destruct Hl as [Ha Hl].
    apply negb_true_iff in Ha.
    destruct s as [|c s].
    + cbn [app expect]. destruct w as [|c r]; [reflexivity|].
      cbn [expect]. rewrite (char_ws a c Ha (ws_head c r Hw)). reflexivity.
    + cbn [app expect]. destruct (a =? c)%N; [apply IH; assumption | reflexivity].
Qed.

Lemma span_digits_w w : forallb is_ws w = true -> span_digits w = ([], w).
Proof.
  intros Hw. destruct w as [|c r]; [reflexivity|].
  cbn [span_digits]. rewrite (ws_not_digit c (ws_head c r Hw)). reflexivity.
Qed.

Lemma span_digits_pad w s :
  forallb is_ws w = true ->
  span_digits (s ++ w) = (fst (span_digits s), snd (span_digits s) ++ w).
Proof.
  intros Hw. induction s as [|c s IH]; [apply span_digits_w, Hw|].
  cbn [app span_digits]. destruct (is_digit c); [|reflexivity].
  rewrite IH. destruct (span_digits s). reflexivity.
Qed.

Lemma span_int_pad w s :
  forallb is_ws w = true -> span_int (s ++ w) = followed_by w (span_int s).
Proof.
  intros Hw. destruct s as [|c s].
  - cbn [app span_int followed_by]. destruct w as [|c r]; [reflexivity|].
    cbn [span_int].
    rewrite (ws_char c (ch "0") eq_refl (ws_head c r Hw)).
    rewrite (ws_not_digit c (ws_head c r Hw)). reflexivity.
  - cbn [app span_int]. destruct (c =? ch "0")%N; [reflexivity|].
    destruct (is_digit c); [|reflexivity].
    change (c :: s ++ w) with ((c :: s) ++ w).
    rewrite span_digits_pad by exact Hw.
    destruct (span_digits (c :: s)). reflexivity.
Qed.

Lemma span_frac_pad w s :
  forallb is_ws w = true -> span_frac (s ++ w) = followed_by w (span_frac s).
Proof.
  intros Hw. destruct s as [|c s].
  - cbn [app span_frac followed_by]. destruct w as [|c r]; [reflexivity|].
    cbn [span_frac].
    rewrite (ws_char c (ch ".") eq_refl (ws_head c r Hw)). reflexivity.
  - cbn [app span_frac]. destruct (c =? ch ".")%N; [|reflexivity].
    rewrite span_digits_pad by exact Hw.
    destruct (span_digits s) as [[|d ds] r]; reflexivity.
Qed.

Lemma span_exp_pad w s :
  forallb is_ws w = true -> span_exp (s ++ w) = followed_by w (span_exp s).
Proof.
  intros Hw. destruct s as [|c s].
  - cbn [app span_exp followed_by]. destruct w as [|c r]; [reflexivity|].
    cbn [span_exp].
    rewrite (ws_char c (ch "e") eq_refl (ws_head c r Hw)).
    rewrite (ws_char c (ch "E") eq_refl (ws_head c r Hw)). reflexivity.
  - cbn [app span_exp]. destruct ((c =? ch "e")%N || (c =? ch "E")%N);
      [|reflexivity].
    destruct s as [|c1 s].
    + cbn [app]. pose proof (span_digits_w w Hw) as Ew.
      destruct w as [|c1 r]; [reflexivity|].
      rewrite (ws_char c1 (ch "-") eq_refl (ws_head c1 r Hw)).
      rewrite (ws_char c1 (ch "+") eq_refl (ws_head c1 r Hw)).
      rewrite Ew. reflexivity.
    + cbn [app]. destruct (c1 =? ch "-")%N.
      { rewrite span_digits_pad by exact Hw.
        destruct (span_digits s) as [[|d ds] r]; reflexivity. }
      destruct (c1 =? ch "+")%N.
      { rewrite span_digits_pad by exact Hw.
        destruct (span_digits s) as [[|d ds] r]; reflexivity. }
      change (c1 :: s ++ w) with ((c1 :: s) ++ w).
      rewrite span_digits_pad by exact Hw.
      destruct (span_digits (c1 :: s)) as [[|d ds] r]; reflexivity.
Qed.

Lemma parse_number_pad (w s : jsstring) :
  forallb is_ws w = true ->
  parse_number (s ++ w) = followed_by w (parse_number s).
Proof.
  intros Hw. unfold parse_number.
  assert (T : forall neg (s1 : jsstring),
    match span_int (s1 ++ w) with
    | None => None
    | Some (ip, s2) =>
        match span_frac s2 with
        | None => None
        | Some (fd, s3) =>
            match span_exp s3 with
            | None => None
            | Some (ex, s4) =>
                Some (round_dec neg (digits_val (ip ++ fd))
                        (ex - Z.of_nat (length fd)), s4)
            end
        end
    end
    = followed_by w
        match span_int s1 with
        | None => None
        | Some (ip, s2) =>
            match span_frac s2 with
            | None => None
            | Some (fd, s3) =>
                match span_exp s3 with
                | None => None
                | Some (ex, s4) =>
                    Some (round_dec neg (digits_val (ip ++ fd))
                            (ex - Z.of_nat (length fd)), s4)
                end
            end
        end).
  { intros neg s1. rewrite span_int_pad by exact Hw.
    destruct (span_int s1) as [[ip s2]|]; [|reflexivity].
    cbn [followed_by]. rewrite span_frac_pad by exact Hw.
    destruct (span_frac s2) as [[fd s3]|]; [|reflexivity].
    cbn [followed_by]. rewrite span_exp_pad by exact Hw.
    destruct (span_exp s3) as [[ex s4]|]; reflexivity. }
  destruct s as [|c s].
  - cbn [app]. destruct w as [|c r]; [reflexivity|].
    rewrite (ws_char c (ch "-") eq_refl (ws_head c r Hw)).
    exact (T false []).
  - cbn [app]. destruct (c =? ch "-")%N; [exact (T true s)|].
    exact (T false (c :: s)).
Qed.

(** *** Strings *)

Lemma ws_no_hex c : is_ws c = true -> hex_val c = None.
Proof.
  unfold is_ws. intros H.
  repeat (apply orb_prop in H; destruct H as [H|H]);
    apply N.eqb_eq in H; subst; reflexivity.
Qed.

Lemma ws_no_escape c : is_ws c = true -> unescape c = None.
Proof.
  unfold is_ws. intros H.
  repeat (apply orb_prop in H; destruct H as [H|H]);
    apply N.eqb_eq in H; subst; reflexivity.
Qed.

Lemma hex4_ws h1 h2 h3 h4 :
  is_ws h1 = true \/ is_ws h2 = true \/ is_ws h3 = true \/ is_ws h4 = true ->
  hex4 h1 h2 h3 h4 = None.
Proof.
  unfold hex4. intros [H|[H|[H|H]]]; rewrite (ws_no_hex _ H);
    repeat match goal with |- context [hex_val ?x] => destruct (hex_val x) end;
    reflexivity.
Qed.

(** White space is no end of a string. *)
Lemma string_chars_w w :
  forallb is_ws w = true -> parse_string_chars w = None.
Proof.
  induction w as [|c r IH]; intros Hw; [reflexivity|].
  pose proof (ws_head c r Hw) as Hc.
  cbn [forallb] in Hw. apply andb_prop in Hw. destruct Hw as [_ Hr].
  cbn [parse_string_chars].
  rewrite (ws_char c c_quote eq_refl Hc), (ws_char c c_backslash eq_refl Hc).
  destruct (c <? 32)%N; [reflexivity|]. rewrite (IH Hr). reflexivity.
Qed.

Lemma parse_string_chars_pad w n : forall s,
  forallb is_ws w = true -> (length s <= n)%nat ->
  parse_string_chars (s ++ w) = followed_by w (parse_string_chars s).
Proof.
  induction n as [|n IH]; intros s Hw Hn.
  - destruct s; [apply string_chars_w, Hw | cbn [length] in Hn; lia].
  - destruct s as [|c s]; [apply string_chars_w, Hw|].
    cbn [length] in Hn. cbn [app parse_string_chars].
    destruct (c =? c_quote)%N; [reflexivity|].
    destruct (c =? c_backslash)%N.
    + destruct s as [|e s].
      { cbn [app followed_by]. destruct w as [|e r]; [reflexivity|].
        pose proof (ws_head e r Hw) as He.
        rewrite (ws_char e (ch "u") eq_refl He), (ws_no_escape e He).
        reflexivity. }
      cbn [app length] in *. destruct (e =? ch "u")%N.
      * destruct s as [|h1 [|h2 [|h3 [|h4 s3]]]]; cbn [app].
        { destruct w as [|a [|b [|c0 [|d r]]]]; try reflexivity.
          rewrite hex4_ws by (left; apply (ws_head _ _ Hw)). reflexivity. }
        { destruct w as [|a [|b [|c0 r]]]; try reflexivity.
          rewrite hex4_ws by (right; left; apply (ws_head _ _ Hw)). reflexivity. }
        { destruct w as [|a [|b r]]; try reflexivity.
          rewrite hex4_ws by (right; right; left; apply (ws_head _ _ Hw)).
          reflexivity. }
        { destruct w as [|a r]; try reflexivity.
          rewrite hex4_ws by (right; right; right; apply (ws_head _ _ Hw)).
          reflexivity. }
        destruct (hex4 h1 h2 h3 h4); [|reflexivity].
        rewrite IH by (assumption || (cbn [length] in Hn; lia)).
        destruct (parse_string_chars s3) as [[x r]|]; reflexivity.
      * destruct (unescape e); [|reflexivity].
        rewrite IH by (assumption || lia).
        destruct (parse_string_chars s) as [[x r]|]; reflexivity.
    + destruct (c <? 32)%N; [reflexivity|].
      rewrite IH by (assumption || lia).
      destruct (parse_string_chars s) as [[x r]|]; reflexivity.
Qed.

(** *** Values *)

Lemma parse_nothing fuel :
  parse_value fuel [] = None /\ parse_elements fuel [] = None
  /\ parse_members fuel [] = None.
Proof.
  induction fuel as [|f (IHv & IHe & IHm)]; [repeat split|].
  split; [reflexivity|]. split; [|reflexivity].
  cbn [parse_elements]. rewrite IHv. reflexivity.
Qed.

Lemma after_ws {A : Type} (w : jsstring)
  (P : jsstring -> option (A * jsstring)) (s : jsstring) :
  forallb is_ws w = true -> P [] = None ->
  (forall t, P (t ++ w) = followed_by w (P t)) ->
  P (skip_ws (s ++ w)) = followed_by w (P (skip_ws s)).
Proof.
  intros Hw H0 HP. rewrite skip_ws_pad by exact Hw.
  destruct (skip_ws s) as [|c r]; [rewrite H0; reflexivity|].
  apply (HP (c :: r)).
Qed.

Ltac rewrite_app H :=
  let E := fresh "E" in
  pose proof H as E; cbn [app] in E; rewrite E; clear E.

Lemma parse_pad (w : jsstring) fuel :
  forallb is_ws w = true ->
  (forall s, parse_value fuel (s ++ w) = followed_by w (parse_value fuel s))
  /\ (forall s, parse_elements fuel (s ++ w)
                = followed_by w (parse_elements fuel s))
  /\ (forall s, parse_members fuel (s ++ w)
                = followed_by w (parse_members fuel s)).
Proof.
  intros Hw. induction fuel as [|f (IHv & IHe & IHm)]; [repeat split|].
  destruct (parse_nothing f) as (Nv & Ne & Nm).
  repeat split.
  - intros s. destruct s as [|c s'].
    + cbn [app]. destruct w as [|c r]; [reflexivity|].
      pose proof (ws_head c r Hw) as Hc.
      cbn [parse_value].
      rewrite (ws_char c (ch "[") eq_refl Hc), (ws_char c (ch "{") eq_refl Hc),
        (ws_char c c_quote eq_refl Hc), (ws_char c (ch "t") eq_refl Hc),
        (ws_char c (ch "f") eq_refl Hc), (ws_char c (ch "n") eq_refl Hc).
      pose proof (parse_number_pad (c :: r) [] Hw) as E. cbn [app] in E.
      rewrite E. reflexivity.
    + cbn [app parse_value].
      destruct (c =? ch "[")%N.
      { rewrite skip_ws_pad by exact Hw.
        destruct (skip_ws s') as [|c2 s2]; [reflexivity|].
        destruct (c2 =? ch "]")%N; [reflexivity|].
        rewrite_app (IHe (c2 :: s2)).
        destruct (parse_elements f (c2 :: s2)) as [[l r]|]; reflexivity. }
      destruct (c =? ch "{")%N.
      { rewrite skip_ws_pad by exact Hw.
        destruct (skip_ws s') as [|c2 s2]; [reflexivity|].
        destruct (c2 =? ch "}")%N; [reflexivity|].
        rewrite_app (IHm (c2 :: s2)).
        destruct (parse_members f (c2 :: s2)) as [[l r]|]; reflexivity. }
      destruct (c =? c_quote)%N.
      { rewrite (parse_string_chars_pad w (length s')) by (assumption || lia).
        destruct (parse_string_chars s') as [[x r]|]; reflexivity. }
      destruct (c =? ch "t")%N.
      { rewrite expect_pad by (assumption || reflexivity).
        destruct (expect (js "rue") s'); reflexivity. }
      destruct (c =? ch "f")%N.
      { rewrite expect_pad by (assumption || reflexivity).
        destruct (expect (js "alse") s'); reflexivity. }
      destruct (c =? ch "n")%N.
      { rewrite expect_pad by (assumption || reflexivity).
        destruct (expect (js "ull") s'); reflexivity. }
      rewrite_app (parse_number_pad w (c :: s') Hw).
      destruct (parse_number (c :: s')) as [[x r]|]; reflexivity.
  - intros s. cbn [parse_elements]. rewrite IHv.
    destruct (parse_value f s) as [[v r1]|]; [|reflexivity].
    cbn [followed_by]. rewrite skip_ws_pad by exact Hw.
    destruct (skip_ws r1) as [|c r']; [reflexivity|].
    destruct (c =? ch ",")%N; [|destruct (c =? ch "]")%N; reflexivity].
    rewrite (after_ws w (parse_elements f) r' Hw Ne IHe).
    destruct (parse_elements f (skip_ws r')) as [[l r]|]; reflexivity.
  - intros s. destruct s as [|c s'].
    + cbn [app]. destruct w as [|c r]; [reflexivity|].
      cbn [parse_members].
      rewrite (ws_char c c_quote eq_refl (ws_head c r Hw)). reflexivity.
    + cbn [app parse_members].
      destruct (c =? c_quote)%N; [|reflexivity].
      rewrite (parse_string_chars_pad w (length s')) by (assumption || lia).
      destruct (parse_string_chars s') as [[k r0]|]; [|reflexivity].
      cbn [followed_by]. rewrite skip_ws_pad by exact Hw.
      destruct (skip_ws r0) as [|c1 r1]; [reflexivity|].
      destruct (c1 =? ch ":")%N; [|reflexivity].
      rewrite (after_ws w (parse_value f) r1 Hw Nv IHv).
      destruct (parse_value f (skip_ws r1)) as [[v r2]|]; [|reflexivity].
      cbn [followed_by]. rewrite skip_ws_pad by exact Hw.
      destruct (skip_ws r2) as [|c3 r3]; [reflexivity|].
      destruct (c3 =? ch ",")%N; [|destruct (c3 =? ch "}")%N; reflexivity].
      rewrite (after_ws w (parse_members f) r3 Hw Nm IHm).
      destruct (parse_members f (skip_ws r3)) as [[l r]|]; reflexivity.
Qed.

Lemma skip_ws_idem s : skip_ws (skip_ws s) = skip_ws s.
Proof.
  induction s as [|c s IH]; [reflexivity|]. cbn [skip_ws].
  destruct (is_ws c) eqn:E; [exact IH|]. cbn [skip_ws]. rewrite E. reflexivity.
Qed.

(** A text is parsed with some fuel, to the end, exactly when JSON.parse
    returns the value. *)
Lemma JSON_parse_some s v :
  JSON_parse s = Some v <->
  exists fuel r, parse_value fuel (skip_ws s) = Some (v, r) /\ skip_ws r = [].
Proof.
  split.
  - unfold JSON_parse. intros H.
    destruct (parse_value _ (skip_ws s)) as [[v' r]|] eqn:E; [|discriminate].
    destruct (skip_ws r) eqn:Er; [|discriminate].
    inversion H; subst. eexists _, r. split; [exact E | exact Er].
  - intros (fuel & r & H & Hr). apply (JSON_parse_complete fuel s v r H Hr).
Qed.

(** White space before and after a text does not change what JSON.parse
    returns, a value or the error. *)
Theorem JSON_parse_padded (w1 s w2 : jsstring) :
  forallb is_ws w1 = true -> forallb is_ws w2 = true ->
  JSON_parse (w1 ++ s ++ w2) = JSON_parse s.
Proof.
  intros H1 H2.
  assert (E : forall v, JSON_parse (w1 ++ s ++ w2) = Some v
                        <-> JSON_parse s = Some v).
  { intros v. rewrite !JSON_parse_some.
    rewrite (skip_ws_app w1 _ H1), (skip_ws_pad w2 s H2).
    split; intros (fuel & r & H & Hr).
    - destruct (skip_ws s) as [|c t] eqn:Es.
      { rewrite (proj1 (parse_nothing fuel)) in H. discriminate. }
      pose proof (proj1 (parse_pad w2 fuel H2) (c :: t)) as E.
      cbn [app] in E. rewrite E in H. clear E.
      destruct (parse_value fuel (c :: t)) as [[v' r']|] eqn:E; [|discriminate].
      cbn [followed_by] in H. inversion H; subst.
      exists fuel, r'. split; [exact E|].
      rewrite (skip_ws_pad w2 r' H2) in Hr.
      destruct (skip_ws r'); [reflexivity | discriminate].
    - exists fuel, (r ++ w2).
      destruct (skip_ws s) as [|c t] eqn:Es.
      { rewrite (proj1 (parse_nothing fuel)) in H. discriminate. }
      rewrite_app (proj1 (parse_pad w2 fuel H2) (c :: t)).
      rewrite H. split; [reflexivity|].
      rewrite (skip_ws_pad w2 r H2), Hr. reflexivity. }
  destruct (JSON_parse s) as [v|] eqn:Es.
  - apply (proj2 (E v) eq_refl).
  - destruct (JSON_parse (w1 ++ s ++ w2)) as [v|] eqn:Ep; [|reflexivity].
    pose proof (proj1 (E v) eq_refl) as X. discriminate X.
Qed.

End PaddingFacts.
Export PaddingFacts.

(** ** The date-time string format *)

Module IsoFacts.

Lemma pad_length k : forall z, length (pad k z) = k.
Proof.
  induction k as [|k IH]; intros z; [reflexivity|].
  cbn [pad]. rewrite length_app, IH. cbn [length]. lia.
Qed.

Lemma pad_digits k : forall z, forallb is_digit (pad k z) = true.
Proof.
  induction k as [|k IH]; intros z; [reflexivity|].
  cbn [pad]. rewrite forallb_app, IH. cbn [forallb].
  rewrite digit_char_is_digit by (apply Z.mod_pos_bound; lia). reflexivity.
Qed.

Lemma pad_val k : forall z,
  0 <= z < 10 ^ Z.of_nat k -> digits_val (pad k z) = z.
Proof.
  induction k as [|k IH]; intros z Hz.
  - cbn in Hz. assert (z = 0) by lia. subst. reflexivity.
  - cbn [pad]. rewrite digits_val_snoc.
    rewrite Nat2Z.inj_succ, Z.pow_succ_r in Hz by lia.
    rewrite IH by (Z.to_euclidean_division_equations; lia).
    rewrite digit_char_val by (apply Z.mod_pos_bound; lia).
    Z.to_euclidean_division_equations; lia.
Qed.

Lemma firstn_exact {A : Type} (l rest : list A) :
  firstn (length l) (l ++ rest) = l /\ skipn (length l) (l ++ rest) = rest.
Proof.
  induction l as [|a l [IH1 IH2]]; [split; reflexivity|].
  cbn [length app firstn skipn]. rewrite IH1. split; [reflexivity | exact IH2].
Qed.

Lemma fixed_digits_pad k z rest :
  0 <= z < 10 ^ Z.of_nat k -> fixed_digits k (pad k z ++ rest) = Some (z, rest).
Proof.
  intros Hz. unfold fixed_digits.
  destruct (firstn_exact (pad k z) rest) as [F S].
  rewrite pad_length in F, S. rewrite F, S.
  rewrite pad_length, Nat.eqb_refl, pad_digits.
  cbn [andb]. rewrite pad_val by exact Hz. reflexivity.
Qed.

Lemma field_after_pad c k z rest :
  0 <= z < 10 ^ Z.of_nat k ->
  field_after c k (ch c :: pad k z ++ rest) = Some (z, rest).
Proof.
  intros Hz. unfold field_after. cbn [expect]. rewrite N.eqb_refl.
  apply fixed_digits_pad, Hz.
Qed.

Lemma digit_char_code d : 0 <= d < 10 -> (48 <= digit_char d <= 57)%N.
Proof. unfold digit_char. lia. Qed.

Lemma read_year_string y rest :
  -999999 <= y <= 999999 ->
  read_year (year_string y ++ rest) = Some (y, rest).
Proof.
  intros Hy. unfold year_string.
  destruct (Z.leb_spec 0 y) as [H0|H0]; cbn [andb].
  - destruct (Z.leb_spec y 9999) as [H1|H1].
    + pose proof (fixed_digits_pad 4 y rest ltac:(lia)) as E.
      cbn [pad app] in *. unfold read_year.
      pose proof (digit_char_code (y / 10 / 10 / 10 mod 10)
                    ltac:(apply Z.mod_pos_bound; lia)) as Hc.
      replace (_ =? ch "+")%N with false
        by (symmetry; apply N.eqb_neq; change (ch "+") with 43%N; lia).
      replace (_ =? ch "-")%N with false
        by (symmetry; apply N.eqb_neq; change (ch "-") with 45%N; lia).
      exact E.
    + destruct (Z.ltb_spec y 0); [lia|].
      cbn [app read_year]. ground_chars.
      rewrite Z.abs_eq by lia. apply fixed_digits_pad. lia.
  - destruct (Z.ltb_spec y 0); [|lia].
    cbn [app read_year]. ground_chars.
    rewrite fixed_digits_pad by lia.
    destruct (Z.eqb_spec (Z.abs y) 0); [lia|].
    f_equal. f_equal. lia.
Qed.

(** *** The calendar fields are in range *)

Lemma year_range t :
  Z.abs t <= 8640000000000000 -> -999999 <= YearFromTime t <= 999999.
Proof.
  intros Ht. pose proof (YearFromTime_spec t) as H.
  assert (Hd : -100000000 <= Day t <= 100000000).
  { unfold Day, msPerDay. Z.to_euclidean_division_equations. lia. }
  generalize dependent (YearFromTime t). intros y H.
  generalize dependent (Day t). intros d H Hd.
  unfold DayFromYear in *. Z.to_euclidean_division_equations. lia.
Qed.

Lemma month_table leap d :
  (leap = 0 \/ leap = 1) -> 0 <= d < 365 + leap -> month_ok leap d = true.
Proof.
  intros Hl Hd.
  assert (H : forallb (fun n => month_ok 0 (Z.of_nat n)) (seq 0 365) = true
              /\ forallb (fun n => month_ok 1 (Z.of_nat n)) (seq 0 366) = true)
    by (split; vm_compute; reflexivity).
  destruct H as [H0 H1]. rewrite forallb_forall in H0, H1.
  rewrite <- (Z2Nat.id d) by lia.
  destruct Hl as [-> | ->]; [apply H0 | apply H1]; apply in_seq; lia.
Qed.

Lemma leap_days_cases y : leap_days y = 0 \/ leap_days y = 1.
Proof. unfold leap_days. destruct (_ && _); auto. Qed.

Lemma month_start_first t m : month_start t m = first_of (InLeapYear t) m.
Proof. unfold month_start, first_of. reflexivity. Qed.

Lemma month_first_first y m : month_first y m = first_of (leap_days y) m.
Proof. unfold month_first, first_of. reflexivity. Qed.

Lemma InLeapYear_days t : InLeapYear t = leap_days (YearFromTime t).
Proof. unfold InLeapYear, leap_days. reflexivity. Qed.

Lemma MonthFromTime_of t :
  MonthFromTime t = month_of (InLeapYear t) (DayWithinYear t).
Proof. unfold MonthFromTime, month_of, month_start, first_of. reflexivity. Qed.

Lemma month_fields t :
  (MonthFromTime t <= 11)%nat
  /\ 1 <= DateFromTime t <= days_in_month (YearFromTime t) (MonthFromTime t)
  /\ DateFromTime t <= 31
  /\ month_start t (MonthFromTime t)
     = month_first (YearFromTime t) (MonthFromTime t).
Proof.
  pose proof (DayWithinYear_range t) as Hd.
  pose proof (month_table (InLeapYear t) (DayWithinYear t)) as H.
  unfold DateFromTime, days_in_month, month_ok in *.
  rewrite !month_first_first, !month_start_first.
  rewrite <- MonthFromTime_of in H. rewrite <- InLeapYear_days.
  generalize dependent (MonthFromTime t). intros m H.
  generalize dependent (DayWithinYear t). intros d Hd H.
  assert (Hl : InLeapYear t = 0 \/ InLeapYear t = 1)
    by (rewrite InLeapYear_days; apply leap_days_cases).
  generalize dependent (InLeapYear t). intros leap Hd H Hl.
  specialize (H Hl Hd).
  apply andb_prop in H. destruct H as [H H4].
  apply andb_prop in H. destruct H as [H H3].
  apply andb_prop in H. destruct H as [H1 H2].
  apply Nat.leb_le in H1. apply Z.leb_le in H2. apply Z.ltb_lt in H3.
  apply Z.ltb_lt in H4.
  destruct (m =? 11)%nat; repeat split; lia.
Qed.

(** The text of toISOString is read back to the time value. *)
Theorem iso_instant_toISOString t :
  Z.abs t <= 8640000000000000 -> iso_instant (Date_toISOString t) = Some t.
Proof.
  intros Ht. unfold iso_instant, Date_toISOString.
  destruct (month_fields t) as (Hm & Hd & Hd31 & Hs).
  rewrite read_year_string by (apply year_range, Ht).
  rewrite field_after_pad by (change (10 ^ Z.of_nat 2) with 100; lia).
  rewrite field_after_pad by (change (10 ^ Z.of_nat 2) with 100; lia).
  rewrite field_after_pad
    by (unfold HourFromTime; change (10 ^ Z.of_nat 2) with 100;
        Z.to_euclidean_division_equations; lia).
  rewrite field_after_pad
    by (unfold MinFromTime; change (10 ^ Z.of_nat 2) with 100;
        Z.to_euclidean_division_equations; lia).
  rewrite field_after_pad
    by (unfold SecFromTime; change (10 ^ Z.of_nat 2) with 100;
        Z.to_euclidean_division_equations; lia).
  rewrite field_after_pad
    by (unfold msFromTime; change (10 ^ Z.of_nat 3) with 1000;
        Z.to_euclidean_division_equations; lia).
  replace (Z.to_nat (Z.of_nat (MonthFromTime t) + 1 - 1)) with (MonthFromTime t)
    by lia.
  change (jsstring_eqb [ch "Z"] (js "Z")) with true.
  replace (1 <=? Z.of_nat (MonthFromTime t) + 1) with true
    by (symmetry; apply Z.leb_le; lia).
  replace (Z.of_nat (MonthFromTime t) + 1 <=? 12) with true
    by (symmetry; apply Z.leb_le; lia).
  replace (1 <=? DateFromTime t) with true by (symmetry; apply Z.leb_le; lia).
  replace (DateFromTime t <=? days_in_month (YearFromTime t) (MonthFromTime t))
    with true by (symmetry; apply Z.leb_le; lia).
  replace (HourFromTime t <=? 23) with true
    by (symmetry; apply Z.leb_le; unfold HourFromTime;
        Z.to_euclidean_division_equations; lia).
  replace (MinFromTime t <=? 59) with true
    by (symmetry; apply Z.leb_le; unfold MinFromTime;
        Z.to_euclidean_division_equations; lia).
  replace (SecFromTime t <=? 59) with true
    by (symmetry; apply Z.leb_le; unfold SecFromTime;
        Z.to_euclidean_division_equations; lia).
  cbn [andb]. unfold MakeDate, MakeDay, MakeTime. rewrite <- Hs.
  replace (_ + _) with t by (rewrite (time_fields t) at 1; ring).
  unfold TimeClip.
  replace (Z.abs t <=? 8640000000000000) with true
    by (symmetry; apply Z.leb_le; exact Ht).
  reflexivity.
Qed.

End IsoFacts.
Export IsoFacts.

(** ** The timestamp *)

Module TimestampFacts.

Lemma toISOString_length t :
  0 <= YearFromTime t <= 9999 -> length (Date_toISOString t) = 24%nat.
Proof.
  intros Hy. unfold Date_toISOString, year_string.
  replace ((0 <=? YearFromTime t) && (YearFromTime t <=? 9999)) with true
    by (symmetry; apply andb_true_intro; split; apply Z.leb_le; lia).
  repeat (rewrite length_app, pad_length; cbn [length]).
  reflexivity.
Qed.

End TimestampFacts.
Export TimestampFacts.

(** ** Timestamps in order *)

Module OrderFacts.

Lemma lex_step a b X p q :
  (a < b -> p < q) -> (b < a -> q < p) -> (a = b -> X = (p ?= q)) ->
  then_compare (a ?= b) X = (p ?= q).
Proof.
  intros Hlt Hgt Heq. destruct (Z.compare_spec a b) as [E|L|G]; cbn [then_compare].
  - apply Heq, E.
  - symmetry. apply Z.compare_lt_iff, Hlt, L.
  - symmetry. apply Z.compare_gt_iff, Hgt, G.
Qed.

Lemma compare_units_same c r1 r2 :
  compare_units (c :: r1) (c :: r2) = compare_units r1 r2.
Proof. cbn [compare_units]. rewrite N.compare_refl. reflexivity. Qed.

Lemma digit_char_compare x y :
  0 <= x < 10 -> 0 <= y < 10 -> (digit_char x ?= digit_char y)%N = (x ?= y).
Proof.
  intros Hx Hy. unfold digit_char.
  destruct (Z.compare_spec x y);
    [apply N.compare_eq_iff | apply N.compare_lt_iff | apply N.compare_gt_iff];
    lia.
Qed.

(** Two numbers written with the same number of digits compare as their
    texts do. *)
Lemma compare_units_pad k : forall a b r1 r2,
  0 <= a < 10 ^ Z.of_nat k -> 0 <= b < 10 ^ Z.of_nat k ->
  compare_units (pad k a ++ r1) (pad k b ++ r2)
  = then_compare (a ?= b) (compare_units r1 r2).
Proof.
  induction k as [|k IH]; intros a b r1 r2 Ha Hb.
  - cbn in Ha, Hb. assert (a = 0) by lia. assert (b = 0) by lia. subst.
    reflexivity.
  - rewrite Nat2Z.inj_succ, Z.pow_succ_r in Ha, Hb by lia.
    cbn [pad]. rewrite <- !app_assoc. cbn [app].
    rewrite IH by (Z.to_euclidean_division_equations; lia).
    cbn [compare_units].
    rewrite digit_char_compare by (apply Z.mod_pos_bound; lia).
    destruct (Z.compare_spec (a / 10) (b / 10)) as [E|L|G]; cbn [then_compare].
    + destruct (Z.compare_spec (a mod 10) (b mod 10)) as [E'|L'|G'].
      * replace (a ?= b) with Eq; [reflexivity|].
        symmetry. apply Z.compare_eq_iff.
        Z.to_euclidean_division_equations; lia.
      * replace (a ?= b) with Lt; [reflexivity|].
        symmetry. apply Z.compare_lt_iff.
        Z.to_euclidean_division_equations; lia.
      * replace (a ?= b) with Gt; [reflexivity|].
        symmetry. apply Z.compare_gt_iff.
        Z.to_euclidean_division_equations; lia.
    + replace (a ?= b) with Lt; [reflexivity|].
      symmetry. apply Z.compare_lt_iff.
      Z.to_euclidean_division_equations; lia.
    + replace (a ?= b) with Gt; [reflexivity|].
      symmetry. apply Z.compare_gt_iff.
      Z.to_euclidean_division_equations; lia.
Qed.

Lemma compare_units_field c k a b r1 r2 :
  0 <= a < 10 ^ Z.of_nat k -> 0 <= b < 10 ^ Z.of_nat k ->
  compare_units (c :: pad k a ++ r1) (c :: pad k b ++ r2)
  = then_compare (a ?= b) (compare_units r1 r2).
Proof.
  intros Ha Hb. rewrite compare_units_same. apply compare_units_pad; assumption.
Qed.

Lemma DayFromYear_mono a b : a <= b -> DayFromYear a <= DayFromYear b.
Proof.
  intros H. unfold DayFromYear. Z.to_euclidean_division_equations. lia.
Qed.

Lemma first_of_mono leap m m' :
  (leap = 0 \/ leap = 1) -> (m <= m')%nat -> (m' <= 11)%nat ->
  first_of leap m <= first_of leap m'.
Proof.
  intros Hl Hm Hm'.
  assert (Hs : forall k, (k < 11)%nat -> first_of leap k <= first_of leap (S k)).
  { intros k Hk.
    assert (H : forallb (fun m => first_of 0 m <=? first_of 0 (S m)) (seq 0 11) = true
                /\ forallb (fun m => first_of 1 m <=? first_of 1 (S m)) (seq 0 11) = true)
      by (split; vm_compute; reflexivity).
    destruct H as [H0 H1]. rewrite forallb_forall in H0, H1.
    apply Z.leb_le.
    destruct Hl as [-> | ->]; [apply H0 | apply H1]; apply in_seq; lia. }
  induction Hm as [|m' Hm IH]; [lia|].
  specialize (IH ltac:(lia)). specialize (Hs m' ltac:(lia)). lia.
Qed.

(** What the calendar fields of a time value say about it. *)
Lemma calendar_fields t :
  let y := YearFromTime t in
  let m := MonthFromTime t in
  let leap := leap_days y in
  (leap = 0 \/ leap = 1)
  /\ (m <= 11)%nat
  /\ DayFromYear y <= Day t < DayFromYear (y + 1)
  /\ Day t = DayFromYear y + first_of leap m + DateFromTime t - 1
  /\ 1 <= DateFromTime t <= 31
  /\ first_of leap m + DateFromTime t - 1
     < (if (m =? 11)%nat then 365 + leap else first_of leap (S m))
  /\ t = Day t * 86400000 + HourFromTime t * 3600000 + MinFromTime t * 60000
         + SecFromTime t * 1000 + msFromTime t
  /\ 0 <= HourFromTime t < 24 /\ 0 <= MinFromTime t < 60
  /\ 0 <= SecFromTime t < 60 /\ 0 <= msFromTime t < 1000.
Proof.
  intros y m leap.
  destruct (month_fields t) as (Hm & Hd & Hd31 & Hs).
  fold y m in Hm, Hd, Hs.
  split; [apply leap_days_cases|]. split; [exact Hm|].
  split; [apply YearFromTime_spec|].
  assert (Hday : Day t = DayFromYear y + first_of leap m + DateFromTime t - 1).
  { unfold DateFromTime, DayWithinYear. fold y m.
    rewrite Hs, month_first_first. fold leap. lia. }
  split; [exact Hday|]. split; [lia|].
  split.
  { unfold days_in_month in Hd. rewrite !month_first_first in Hd.
    fold leap in Hd. destruct (m =? 11)%nat; lia. }
  unfold Day, HourFromTime, MinFromTime, SecFromTime, msFromTime, msPerDay.
  repeat split; Z.to_euclidean_division_equations; lia.
Qed.

(** For years of four digits the texts of toISOString compare as the time
    values do. *)
Theorem toISOString_compare t1 t2 :
  0 <= YearFromTime t1 <= 9999 -> 0 <= YearFromTime t2 <= 9999 ->
  compare_units (Date_toISOString t1) (Date_toISOString t2) = (t1 ?= t2).
Proof.
  intros Hy1 Hy2.
  destruct (calendar_fields t1)
    as (Hl1 & Hm1 & Hyr1 & Hday1 & Hd1 & Hn1 & Ht1 & Hh1 & Hmi1 & Hs1 & Hms1).
  destruct (calendar_fields t2)
    as (Hl2 & Hm2 & Hyr2 & Hday2 & Hd2 & Hn2 & Ht2 & Hh2 & Hmi2 & Hs2 & Hms2).
  unfold Date_toISOString, year_string.
  replace ((0 <=? YearFromTime t1) && (YearFromTime t1 <=? 9999)) with true
    by (symmetry; apply andb_true_intro; split; apply Z.leb_le; lia).
  replace ((0 <=? YearFromTime t2) && (YearFromTime t2 <=? 9999)) with true
    by (symmetry; apply andb_true_intro; split; apply Z.leb_le; lia).
  rewrite compare_units_pad by (change (10 ^ Z.of_nat 4) with 10000; lia).
  do 5 (rewrite compare_units_field by (change (10 ^ Z.of_nat 2) with 100; lia)).
  rewrite compare_units_field by (change (10 ^ Z.of_nat 3) with 1000; lia).
  change (compare_units [ch "Z"] [ch "Z"]) with Eq.
  pose proof (DayFromYear_mono (YearFromTime t1 + 1) (YearFromTime t2)) as Mono12.
  pose proof (DayFromYear_mono (YearFromTime t2 + 1) (YearFromTime t1)) as Mono21.
  pose proof (first_of_mono (leap_days (YearFromTime t1))
                (S (MonthFromTime t1)) (MonthFromTime t2) Hl1) as Fo12.
  pose proof (first_of_mono (leap_days (YearFromTime t2))
                (S (MonthFromTime t2)) (MonthFromTime t1) Hl2) as Fo21.
  generalize dependent (HourFromTime t1). generalize dependent (HourFromTime t2).
  generalize dependent (MinFromTime t1). generalize dependent (MinFromTime t2).
  generalize dependent (SecFromTime t1). generalize dependent (SecFromTime t2).
  generalize dependent (msFromTime t1). generalize dependent (msFromTime t2).
  generalize dependent (DateFromTime t1). generalize dependent (DateFromTime t2).
  generalize dependent (Day t1). generalize dependent (Day t2).
  generalize dependent (MonthFromTime t1). generalize dependent (MonthFromTime t2).
  generalize dependent (YearFromTime t1). generalize dependent (YearFromTime t2).
  intros y2 Hy2 Hl2 y1 Hy1 Hl1 Mono12 Mono21 m2 Hm2 m1 Hm1 Fo12 Fo21
    D2 Hyr2 D1 Hyr1 d2 Hday2 Hd2 Hn2 d1 Hday1 Hd1 Hn1
    ms2 Hms2 ms1 Hms1 s2 Hs2 s1 Hs1 mi2 Hmi2 mi1 Hmi1 h2 Ht2 Hh2 h1 Ht1 Hh1.
  apply lex_step; [lia | lia | intros ->].
  assert (Hm11a : (m1 < m2)%nat -> (m1 =? 11)%nat = false)
    by (intros; apply Nat.eqb_neq; lia).
  assert (Hm11b : (m2 < m1)%nat -> (m2 =? 11)%nat = false)
    by (intros; apply Nat.eqb_neq; lia).
  apply lex_step.
  { intros L. rewrite Hm11a in Hn1 by lia. specialize (Fo12 ltac:(lia) Hm2). lia. }
  { intros L. rewrite Hm11b in Hn2 by lia. specialize (Fo21 ltac:(lia) Hm1). lia. }
  intros Em. assert (m1 = m2) by lia. subst m2. clear Em.
  apply lex_step; [lia | lia | intros ->].
  assert (D1 = D2) by lia. subst D2.
  apply lex_step; [lia | lia | intros ->].
  apply lex_step; [lia | lia | intros ->].
  apply lex_step; [lia | lia | intros ->].
  apply lex_step; [lia | lia | intros ->].
  symmetry. apply Z.compare_eq_iff. lia.
Qed.

End OrderFacts.
Export OrderFacts.

(** ** The runtime model at known points

    What Node.js prints for the same inputs. *)

Module Conformance.

Example toString_tenth : Number_toString (round_dec false 1 (-1)) = js "0.1".
Proof. vm_compute. reflexivity. Qed.

Example toString_sum :
  Number_toString (round_dec false 30000000000000004 (-17))
  = js "0.30000000000000004".
Proof. vm_compute. reflexivity. Qed.

Example toString_1e21 : Number_toString (round_dec false 1 21) = js "1e+21".
Proof. vm_compute. reflexivity. Qed.

Example toString_1e20 :
  Number_toString (round_dec false 1 20) = js "100000000000000000000".
Proof. vm_compute. reflexivity. Qed.

Example toString_1e23 : Number_toString (round_dec false 1 23) = js "1e+23".
Proof. vm_compute. reflexivity. Qed.

Example toString_small : Number_toString (round_dec false 1 (-6)) = js "0.000001".
Proof. vm_compute. reflexivity. Qed.

Example toString_smaller : Number_toString (round_dec false 1 (-7)) = js "1e-7".
Proof. vm_compute. reflexivity. Qed.

Example toString_negative :
  Number_toString (round_dec true 25 (-1)) = js "-2.5".
Proof. vm_compute. reflexivity. Qed.

Example round_greatest :
  round_dec false 17976931348623157 292 = Fin false (2 ^ 53 - 1) 971.
Proof. vm_compute. reflexivity. Qed.

Example toString_2_53 :
  Number_toString (round_dec false 9007199254740993 0) = js "9007199254740992".
Proof. vm_compute. reflexivity. Qed.

Example toString_long :
  Number_toString (round_dec false 123456789012345678901234567890 0)
  = js "1.2345678901234568e+29".
Proof. vm_compute. reflexivity. Qed.

Example round_overflow : round_dec false 1 400 = Inf false.
Proof. vm_compute. reflexivity. Qed.

Example round_underflow : round_dec false 2 (-324) = Zero false.
Proof. vm_compute. reflexivity. Qed.

Example parse_keys_reordered :
  option_map json_text
    (JSON_parse (jsq " { 'b' : [1, 2.5e3, -0] , '1' : 'a' , 'b': {}, '01': [], '0':[[]] } "))
  = Some (jsq "{'0':[[]],'1':'a','b':{},'01':[]}").
Proof. vm_compute. reflexivity. Qed.

Example parse_escapes :
  option_map json_text (JSON_parse (jsq "'\u0041\n\ud800\/\u001f'"))
  = Some (jsq "'A\n\ud800/\u001f'").
Proof. vm_compute. reflexivity. Qed.

Example parse_rejects :
  map JSON_parse
    [ js ""; js "not-json"; js "01"; js "1."; js ".5"; js "+1"; js "[1,]";
      jsq "{'a':1,}"; jsq "'abc"; js "nul"; js "-"; js "1e5 x"; jsq "{a:1}";
      js "[1 2]"; js "NaN"; js "Infinity"; js "undefined" ]
  = repeat None 17.
Proof. vm_compute. reflexivity. Qed.

Example toISOString_epoch : Date_toISOString 0 = js "1970-01-01T00:00:00.000Z".
Proof. vm_compute. reflexivity. Qed.

Example toISOString_before_epoch :
  Date_toISOString (-1) = js "1969-12-31T23:59:59.999Z".
Proof. vm_compute. reflexivity. Qed.

Example toISOString_leap_day :
  Date_toISOString 951868799999 = js "2000-02-29T23:59:59.999Z".
Proof. vm_compute. reflexivity. Qed.

Example toISOString_evening :
  Date_toISOString (ms evening) = js "2026-11-02T19:00:00.123Z".
Proof. vm_compute. reflexivity. Qed.

Example toISOString_last :
  Date_toISOString 8640000000000000 = js "+275760-09-13T00:00:00.000Z".
Proof. vm_compute. reflexivity. Qed.

Example toISOString_first :
  Date_toISOString (-8640000000000000) = js "-271821-04-20T00:00:00.000Z".
Proof. vm_compute. reflexivity. Qed.

(** The line the handler logs and the response it returns for the request
    of the scenario. *)
Example handler_run :
  handler room (get_event (Some (jsq "{'x':1}"))) hello_context evening
  = ( [ js "Event: {" ++ 10%N :: jsq "  'resource': '/'," ++ 10%N
          :: jsq "  'path': '/'," ++ 10%N
          :: jsq "  'httpMethod': 'GET'," ++ 10%N
          :: jsq "  'headers': {" ++ 10%N
          :: jsq "    'Accept': '*/*'" ++ 10%N
          :: jsq "  }," ++ 10%N
          :: jsq "  'multiValueHeaders': {" ++ 10%N
          :: jsq "    'Accept': [" ++ 10%N
          :: jsq "      '*/*'" ++ 10%N
          :: jsq "    ]" ++ 10%N
          :: jsq "  }," ++ 10%N
          :: jsq "  'queryStringParameters': null," ++ 10%N
          :: jsq "  'multiValueQueryStringParameters': null," ++ 10%N
          :: jsq "  'pathParameters': null," ++ 10%N
          :: jsq "  'stageVariables': null," ++ 10%N
          :: jsq "  'requestContext': {}," ++ 10%N
          :: jsq "  'body': '{\'x\':1}'," ++ 10%N
          :: jsq "  'isBase64Encoded': false" ++ 10%N
          :: js "}" ],
      Fulfilled
        {| Result.statusCode := 200;
           Result.headers :=
             [ (js "Content-Type", js "application/json");
               (js "Access-Control-Allow-Origin", js "*") ];
           Result.body :=
             jsq "{'message':'Hello, World!','timestamp':'2026-11-02T19:00:00.123Z','requestId':'abc-123','body':{'x':1}}"
        |} ).
Proof. vm_compute. reflexivity. Qed.

End Conformance.

(** * The claims *)

Module Claims.

(** C1 (amended). For every event whose body is present and is valid JSON
    text B, when the call stack has room for JSON.stringify to write the
    event (line 5) and the response object around the value of B (line 17),
    the handler returns a response with status code 200 whose JSON-encoded
    body has a [body] field holding the value parsed from B as
    JSON.stringify writes it: with null for every number that is not finite
    and zero for the negative zero. The field deep-equals the parsed value
    whenever no number of B is read as an infinity. *)
Theorem valid_body_echoed stack event context now B v :
  Event.body event = Some B -> JSON_parse B = Some v ->
  (depth (Event.to_value event) <= stack)%nat -> (depth v < stack)%nat ->
  exists r,
    settled (handler stack event context now) = Fulfilled r
    /\ Result.statusCode r = 200
    /\ field "body" r = Some (reparsed v)
    /\ (all_finite v = true -> deep_equal (reparsed v) v = true).
Proof.
  intros Eb Ep Hlog Hroom. exists (response context now v).
  pose proof (JSON_parse_wf B v Ep) as Hwf.
  rewrite (handler_answers stack event context now v Hlog)
    by (rewrite ?(parse_body_valid event B v Eb Ep); reflexivity || exact Hroom).
  repeat split.
  - apply response_field_body, Hwf.
  - apply deep_equal_reparsed, Hwf.
Qed.

Lemma valid_body_echoed_witness :
  Event.body (get_event (Some nested_text)) = Some nested_text
  /\ JSON_parse nested_text = Some nested
  /\ (depth (Event.to_value (get_event (Some nested_text))) <= room)%nat
  /\ (depth nested < room)%nat
  /\ exists r,
       settled (handler room (get_event (Some nested_text)) hello_context evening)
       = Fulfilled r
       /\ Result.statusCode r = 200
       /\ field "body" r = Some (reparsed nested)
       /\ (all_finite nested = true -> deep_equal (reparsed nested) nested = true).
Proof.
  split; [reflexivity|]. split; [vm_compute; reflexivity|].
  split; [vm_compute; lia|]. split; [vm_compute; lia|].
  apply (valid_body_echoed _ _ _ _ nested_text);
    [reflexivity | vm_compute; reflexivity | vm_compute; lia | vm_compute; lia].
Defined.

(** C1 as stated fails twice. The body [1e400] is valid JSON and is parsed
    to Infinity, which the response writes as null. The body of 5000
    brackets around [0] is valid JSON too; JSON.stringify has no room for
    its value on a stack of 2048 levels, and the handler ends with a
    RangeError and no response. *)
Lemma overflowing_body_not_echoed :
  (Event.body (get_event (Some (js "1e400"))) = Some (js "1e400")
   /\ JSON_parse (js "1e400") = Some (JNum (Inf false))
   /\ settled (handler room (get_event (Some (js "1e400"))) hello_context evening)
      = Fulfilled (response hello_context evening (JNum (Inf false)))
   /\ field "body" (response hello_context evening (JNum (Inf false)))
      = Some JNull
   /\ deep_equal JNull (JNum (Inf false)) = false)
  /\ (Event.body (body_event (nest_text 5000 (js "0")))
      = Some (nest_text 5000 (js "0"))
      /\ JSON_parse (nest_text 5000 (js "0"))
         = Some (nest 5000 (JNum (Zero false)))
      /\ settled (handler room (body_event (nest_text 5000 (js "0")))
                    hello_context evening)
         = Rejected RangeError).
Proof.
  repeat match goal with |- _ /\ _ => split end; vm_compute; reflexivity.
Qed.

(** C2 (amended). For every event whose body is present, is not the empty
    string and is not syntactically valid JSON, the handler raises and
    produces no response: its promise is rejected with the SyntaxError of
    JSON.parse, or, for an event nested deeper than the call stack has room
    for, with the RangeError of line 5 before the body is looked at. *)
Theorem invalid_body_rejected stack event context now B :
  Event.body event = Some B -> B <> [] -> JSON_parse B = None ->
  settled (handler stack event context now)
  = Rejected (if (depth (Event.to_value event) <=? stack)%nat
              then SyntaxError else RangeError).
Proof. apply handler_rejects. Qed.

Lemma invalid_body_rejected_witness :
  Event.body (get_event (Some (js "not-json"))) = Some (js "not-json")
  /\ js "not-json" <> []
  /\ JSON_parse (js "not-json") = None
  /\ settled (handler room (get_event (Some (js "not-json"))) hello_context evening)
     = Rejected SyntaxError.
Proof.
  split; [reflexivity|]. split; [discriminate|]. split; [reflexivity|].
  refine (invalid_body_rejected room (get_event (Some (js "not-json")))
            hello_context evening (js "not-json") eq_refl _ eq_refl).
  discriminate.
Defined.

(** C2 as stated fails. The empty string is a body that is present and is
    no JSON text, and it is answered with the empty object. And where the
    handler raises, the failure is not always the one of JSON.parse: for
    the body [not-json] in an event nested 5000 deep, on a stack of 2048
    levels, it is the RangeError of line 5. *)
Lemma empty_body_not_rejected :
  (Event.body (get_event (Some [])) = Some []
   /\ JSON_parse [] = None
   /\ settled (handler room (get_event (Some [])) hello_context evening)
      = Fulfilled (response hello_context evening (JObj [])))
  /\ (Event.body (deep_event 5000 (Some (js "not-json"))) = Some (js "not-json")
      /\ JSON_parse (js "not-json") = None
      /\ settled (handler room (deep_event 5000 (Some (js "not-json")))
                    hello_context evening)
         = Rejected RangeError).
Proof.
  repeat match goal with |- _ /\ _ => split end; vm_compute; reflexivity.
Qed.

(** C3 (amended). For every input event that the call stack has room to
    write on line 5, and whose body is absent or empty (the stack having
    room for the two levels of the response object) or is valid JSON (the
    stack having room for the response object around its value), the
    handler returns a response object whose numeric status code is 200. *)
Theorem status_200 stack event context now :
  (depth (Event.to_value event) <= stack)%nat ->
  ((Event.body event = None \/ Event.body event = Some [])
   /\ (2 <= stack)%nat)
  \/ (exists B v, Event.body event = Some B /\ JSON_parse B = Some v
                  /\ (depth v < stack)%nat) ->
  exists r,
    settled (handler stack event context now) = Fulfilled r
    /\ Result.statusCode r = 200.
Proof.
  intros Hlog [[E Hroom]|(B & v & Eb & Ep & Hroom)].
  - exists (response context now (JObj [])).
    rewrite (handler_answers stack event context now (JObj []) Hlog).
    + split; reflexivity.
    + rewrite parse_body_absent by (destruct E as [E|E]; rewrite E; reflexivity).
      reflexivity.
    + exact Hroom.
  - exists (response context now v).
    rewrite (handler_answers stack event context now v Hlog).
    + split; reflexivity.
    + rewrite (parse_body_valid event B v Eb Ep). reflexivity.
    + exact Hroom.
Qed.

Lemma status_200_witness :
  (depth (Event.to_value (post_event None)) <= room)%nat
  /\ (((Event.body (post_event None) = None
        \/ Event.body (post_event None) = Some [])
       /\ (2 <= room)%nat)
      \/ (exists B v, Event.body (post_event None) = Some B
                      /\ JSON_parse B = Some v /\ (depth v < room)%nat))
  /\ exists r,
       settled (handler room (post_event None) hello_context evening)
       = Fulfilled r
       /\ Result.statusCode r = 200.
Proof.
  split; [vm_compute; lia|].
  split; [left; split; [left; reflexivity | vm_compute; lia]|].
  apply (status_200 room (post_event None));
    [vm_compute; lia | left; split; [left; reflexivity | vm_compute; lia]].
Defined.

(** C3 as stated fails: a body that is no JSON text gives no response and
    so no status code, and neither does an event with a null body that is
    nested deeper than the stack has room for. *)
Lemma invalid_body_no_status :
  settled (handler room (get_event (Some (js "not-json"))) hello_context evening)
  = Rejected SyntaxError
  /\ Event.body (deep_event 5000 None) = None
  /\ settled (handler room (deep_event 5000 None) hello_context evening)
     = Rejected RangeError.
Proof.
  repeat match goal with |- _ /\ _ => split end; vm_compute; reflexivity.
Qed.

(** C4. Whenever the handler returns a response, the [requestId] field of
    its JSON-encoded body is the string [awsRequestId] of the context,
    code unit by code unit. *)
Theorem requestId_verbatim stack event context now r :
  settled (handler stack event context now) = Fulfilled r ->
  field "requestId" r = Some (JStr (Context.awsRequestId context)).
Proof.
  intros H.
  destruct (fulfilled_response _ _ _ _ _ H) as (v & _ & Hwf & _ & _ & ->).
  apply response_field_requestId, Hwf.
Qed.

Lemma requestId_verbatim_witness :
  settled (handler room (get_event (Some nested_text)) hello_context evening)
  = Fulfilled (response hello_context evening nested)
  /\ field "requestId" (response hello_context evening nested)
     = Some (JStr (js "abc-123")).
Proof.
  split; [vm_compute; reflexivity|].
  apply (requestId_verbatim room (get_event (Some nested_text))
           hello_context evening).
  vm_compute; reflexivity.
Defined.

(** C5 (amended). For every event whose body is absent (null or missing)
    or is the empty string, when the call stack has room for JSON.stringify
    to write the event (line 5) and the two levels of the response object
    (line 17), the handler returns a response whose JSON-encoded body has a
    [body] field equal to the empty object. *)
Theorem absent_body_empty_object stack event context now :
  Event.body event = None \/ Event.body event = Some [] ->
  (depth (Event.to_value event) <= stack)%nat -> (2 <= stack)%nat ->
  exists r,
    settled (handler stack event context now) = Fulfilled r
    /\ field "body" r = Some (JObj []).
Proof.
  intros H Hlog Hroom. exists (response context now (JObj [])).
  rewrite (handler_answers stack event context now (JObj []) Hlog).
  - split; [reflexivity|].
    apply (response_field_body context now (JObj [])).
    split; [split|]; constructor.
  - rewrite parse_body_absent by (destruct H as [E|E]; rewrite E; reflexivity).
    reflexivity.
  - exact Hroom.
Qed.

Lemma absent_body_empty_object_witness :
  (Event.body empty_event = None \/ Event.body empty_event = Some [])
  /\ (depth (Event.to_value empty_event) <= room)%nat
  /\ (2 <= room)%nat
  /\ exists r,
       settled (handler room empty_event hello_context evening) = Fulfilled r
       /\ field "body" r = Some (JObj []).
Proof.
  split; [left; reflexivity|]. split; [vm_compute; lia|].
  split; [vm_compute; lia|].
  apply (absent_body_empty_object room empty_event);
    [left; reflexivity | vm_compute; lia | vm_compute; lia].
Defined.

(** C5 as stated fails: the event whose [requestContext] is nested 5000
    deep has a null body, and on a stack of 2048 levels the handler ends
    with the RangeError of line 5 and returns no response. *)
Lemma deep_event_not_answered :
  Event.body (deep_event 5000 None) = None
  /\ settled (handler room (deep_event 5000 None) hello_context evening)
     = Rejected RangeError.
Proof. split; vm_compute; reflexivity. Qed.

(** C6. Whenever the handler returns a response, its headers hold
    [Content-Type: application/json] and [Access-Control-Allow-Origin: *]. *)
Theorem response_headers stack event context now r :
  settled (handler stack event context now) = Fulfilled r ->
  obj_get (js "Content-Type") (Result.headers r) = Some (js "application/json")
  /\ obj_get (js "Access-Control-Allow-Origin") (Result.headers r)
     = Some (js "*").
Proof.
  intros H.
  destruct (fulfilled_response _ _ _ _ _ H) as (v & _ & _ & _ & _ & ->).
  split; reflexivity.
Qed.

Lemma response_headers_witness :
  settled (handler room (get_event None) hello_context evening)
  = Fulfilled (response hello_context evening (JObj []))
  /\ obj_get (js "Content-Type")
       (Result.headers (response hello_context evening (JObj [])))
     = Some (js "application/json")
  /\ obj_get (js "Access-Control-Allow-Origin")
       (Result.headers (response hello_context evening (JObj [])))
     = Some (js "*").
Proof.
  split; [reflexivity|].
  apply (response_headers room (get_event None) hello_context evening).
  reflexivity.
Defined.

(** C7. For the event with body [{"x":1}] and the context with awsRequestId
    [abc-123], the handler returns status 200 and a JSON body whose
    [message] field is the string [Hello, World!], whose [requestId] field
    is [abc-123] and whose [body] field is the object [{"x":1}]. The text of
    the body is the one of the scenario, with the ISO text of the clock
    reading as timestamp. This holds on every call stack with room for the
    event and for the two levels of the response object; the event of the
    scenario has one level. *)
Theorem scenario_x_1 stack event context now :
  Event.body event = Some (jsq "{'x':1}") ->
  Context.awsRequestId context = js "abc-123" ->
  (depth (Event.to_value event) <= stack)%nat -> (2 <= stack)%nat ->
  exists r,
    settled (handler stack event context now) = Fulfilled r
    /\ Result.statusCode r = 200
    /\ Result.body r
       = jsq "{'message':'Hello, World!','timestamp':'"
           ++ Date_toISOString (ms now)
           ++ jsq "','requestId':'abc-123','body':{'x':1}}"
    /\ field "message" r = Some (JStr (js "Hello, World!"))
    /\ field "requestId" r = Some (JStr (js "abc-123"))
    /\ field "body" r = Some (JObj [(js "x", JNum one)]).
Proof.
  intros Eb Er Hlog Hroom.
  assert (Ep : JSON_parse (jsq "{'x':1}") = Some (JObj [(js "x", JNum one)]))
    by (vm_compute; reflexivity).
  pose proof (JSON_parse_wf _ _ Ep) as Hwf.
  exists (response context now (JObj [(js "x", JNum one)])).
  rewrite (handler_answers stack event context now _ Hlog)
    by (rewrite ?(parse_body_valid event _ _ Eb Ep); reflexivity || exact Hroom).
  repeat split.
  - cbn [response Result.body]. rewrite payload_text, Er. reflexivity.
  - apply response_field_message, Hwf.
  - rewrite <- Er. apply response_field_requestId, Hwf.
  - apply response_field_body, Hwf.
Qed.

Lemma scenario_x_1_witness :
  Event.body (body_event (jsq "{'x':1}")) = Some (jsq "{'x':1}")
  /\ Context.awsRequestId hello_context = js "abc-123"
  /\ (depth (Event.to_value (body_event (jsq "{'x':1}"))) <= room)%nat
  /\ (2 <= room)%nat
  /\ exists r,
       settled (handler room (body_event (jsq "{'x':1}")) hello_context evening)
       = Fulfilled r
       /\ Result.statusCode r = 200
       /\ Result.body r
          = jsq "{'message':'Hello, World!','timestamp':'"
              ++ Date_toISOString (ms evening)
              ++ jsq "','requestId':'abc-123','body':{'x':1}}"
       /\ field "message" r = Some (JStr (js "Hello, World!"))
       /\ field "requestId" r = Some (JStr (js "abc-123"))
       /\ field "body" r = Some (JObj [(js "x", JNum one)]).
Proof.
  split; [reflexivity|]. split; [reflexivity|].
  split; [vm_compute; lia|]. split; [vm_compute; lia|].
  apply (scenario_x_1 room (body_event (jsq "{'x':1}")) hello_context evening);
    [reflexivity | reflexivity | vm_compute; lia | vm_compute; lia].
Defined.




(** C10 (amended). The handler accepts any valid JSON value as the request
    body, not only objects: for every event whose body is valid JSON text
    denoting a value that is not an object, when the call stack has room
    for JSON.stringify to write the event (line 5) and the response object
    around that value (line 17), it returns status 200 with the [body]
    field holding that value as JSON.stringify writes it, which deep-equals
    the parsed value whenever no number of the text is read as an infinity;
    a body of [null] yields a [body] field of null, not the empty object. *)
Theorem non_object_body_echoed stack event context now B v :
  Event.body event = Some B -> JSON_parse B = Some v ->
  (forall l, v <> JObj l) ->
  (depth (Event.to_value event) <= stack)%nat -> (depth v < stack)%nat ->
  exists r,
    settled (handler stack event context now) = Fulfilled r
    /\ Result.statusCode r = 200
    /\ field "body" r = Some (reparsed v)
    /\ (all_finite v = true -> deep_equal (reparsed v) v = true)
    /\ (v = JNull -> field "body" r = Some JNull).
Proof.
  intros Eb Ep _ Hlog Hroom. exists (response context now v).
  pose proof (JSON_parse_wf B v Ep) as Hwf.
  rewrite (handler_answers stack event context now v Hlog)
    by (rewrite ?(parse_body_valid event B v Eb Ep); reflexivity || exact Hroom).
  repeat split.
  - apply response_field_body, Hwf.
  - apply deep_equal_reparsed, Hwf.
  - intros ->. apply (response_field_body context now JNull). exact I.
Qed.

Lemma non_object_body_echoed_witness :
  Event.body (get_event (Some (js "null"))) = Some (js "null")
  /\ JSON_parse (js "null") = Some JNull
  /\ (forall l, JNull <> JObj l)
  /\ (depth (Event.to_value (get_event (Some (js "null")))) <= room)%nat
  /\ (depth JNull < room)%nat
  /\ exists r,
       settled (handler room (get_event (Some (js "null"))) hello_context evening)
       = Fulfilled r
       /\ Result.statusCode r = 200
       /\ field "body" r = Some (reparsed JNull)
       /\ (all_finite JNull = true -> deep_equal (reparsed JNull) JNull = true)
       /\ (JNull = JNull -> field "body" r = Some JNull).
Proof.
  split; [reflexivity|]. split; [reflexivity|]. split; [discriminate|].
  split; [vm_compute; lia|]. split; [vm_compute; lia|].
  apply (non_object_body_echoed room _ _ _ (js "null"));
    [reflexivity | reflexivity | discriminate | vm_compute; lia
     | vm_compute; lia].
Defined.

(** C10 as stated fails twice. The body [[1e999]] is valid JSON for an
    array holding Infinity, and the response holds an array of null. The
    body of 5000 brackets around [0] denotes an array too; JSON.stringify
    has no room for it on a stack of 2048 levels, and the handler ends
    with a RangeError and no response. *)
Lemma overflowing_array_not_echoed :
  (Event.body (get_event (Some (js "[1e999]"))) = Some (js "[1e999]")
   /\ JSON_parse (js "[1e999]") = Some (JArr [JNum (Inf false)])
   /\ settled (handler room (get_event (Some (js "[1e999]"))) hello_context evening)
      = Fulfilled (response hello_context evening (JArr [JNum (Inf false)]))
   /\ field "body" (response hello_context evening (JArr [JNum (Inf false)]))
      = Some (JArr [JNull])
   /\ deep_equal (JArr [JNull]) (JArr [JNum (Inf false)]) = false)
  /\ (Event.body (get_event (Some (nest_text 5000 (js "0"))))
      = Some (nest_text 5000 (js "0"))
      /\ JSON_parse (nest_text 5000 (js "0"))
         = Some (nest 5000 (JNum (Zero false)))
      /\ (forall l, nest 5000 (JNum (Zero false)) <> JObj l)
      /\ settled (handler room (get_event (Some (nest_text 5000 (js "0"))))
                    hello_context evening)
         = Rejected RangeError).
Proof.
  repeat match goal with |- _ /\ _ => split end;
    try discriminate; vm_compute; reflexivity.
Qed.

End Claims.

(** * Further properties of the handler *)

Module Properties.

(** X1. Line 5: for every event whose objects hold their properties in
    enumeration order and whose numbers are binary64 values. When the call
    stack has room for JSON.stringify to write the event, the handler,
    however it ends after that, writes one entry to the console: [Event: ]
    and the text of the event with an indentation of two spaces; JSON.parse
    reads that text back as the event, its numbers as JSON.stringify writes
    them, and the [body] of the text is the one of the event: the same
    string or null, and none where the event has none. When the event is
    nested deeper than the stack has room for, the handler writes nothing
    and ends with a RangeError. *)
Theorem event_logged stack event context now :
  wf_value (Event.to_value event) ->
  ((depth (Event.to_value event) <= stack)%nat ->
   exists o,
     console (handler stack event context now)
     = [js "Event: " ++ stringify_gap (js "  ") [] (Event.to_value event)]
     /\ JSON_parse (stringify_gap (js "  ") [] (Event.to_value event))
        = Some (JObj o)
     /\ JObj o = reparsed (Event.to_value event)
     /\ obj_get (js "body") o = obj_get (js "body") (Event.properties event))
  /\ ((stack < depth (Event.to_value event))%nat ->
      console (handler stack event context now) = []
      /\ settled (handler stack event context now) = Rejected RangeError).
Proof.
  intros Hwf. split.
  - intros Hlog.
    exists (map (fun kv => (fst kv, reparsed (snd kv))) (Event.properties event)).
    split.
    { rewrite handler_console. apply Nat.leb_le in Hlog. rewrite Hlog.
      reflexivity. }
    split.
    { change (stringify_gap (js "  ") [] (Event.to_value event))
        with (json_text_spaces 2 (Event.to_value event)).
      rewrite JSON_parse_stringify_spaces by exact Hwf. reflexivity. }
    split; [reflexivity|].
    rewrite obj_get_reparsed. apply event_body_reparsed.
  - intros Hdeep. split; [|apply handler_unlogged, Hdeep].
    rewrite handler_console. apply Nat.leb_gt in Hdeep. rewrite Hdeep.
    reflexivity.
Qed.

Lemma event_logged_witness :
  wf_value (Event.to_value (post_event (Some (js "not-json"))))
  /\ (depth (Event.to_value (post_event (Some (js "not-json")))) <= room)%nat
  /\ exists o,
       console (handler room (post_event (Some (js "not-json")))
                  hello_context evening)
       = [js "Event: "
            ++ stringify_gap (js "  ") []
                 (Event.to_value (post_event (Some (js "not-json"))))]
       /\ JSON_parse
            (stringify_gap (js "  ") []
               (Event.to_value (post_event (Some (js "not-json")))))
          = Some (JObj o)
       /\ JObj o = reparsed (Event.to_value (post_event (Some (js "not-json"))))
       /\ obj_get (js "body") o
          = obj_get (js "body")
              (Event.properties (post_event (Some (js "not-json")))).
Proof.
  assert (H : wf_value (Event.to_value (post_event (Some (js "not-json"))))).
  { cbn. unfold enumeration_order.
    repeat match goal with |- _ /\ _ => split end;
      repeat constructor; cbn; intuition discriminate. }
  split; [exact H|]. split; [vm_compute; lia|].
  apply (event_logged room (post_event (Some (js "not-json")))
           hello_context evening H).
  vm_compute; lia.
Defined.

(** X2. On a call stack with room for two levels, the handler fails in
    exactly three cases: with a RangeError when the event is nested deeper
    than the stack has room for (line 5); with the SyntaxError of
    JSON.parse when the event has been written and the body is a string
    that is not empty and is no JSON text (line 8); with a RangeError when
    the body is a JSON text whose value is nested as deep as the stack has
    room for, so that the response object around it does not fit
    (line 17). *)
Theorem rejected_iff stack event context now e :
  (2 <= stack)%nat ->
  (settled (handler stack event context now) = Rejected e <->
   (e = RangeError /\ (stack < depth (Event.to_value event))%nat)
   \/ ((depth (Event.to_value event) <= stack)%nat
       /\ exists B,
            Event.body event = Some B /\ B <> []
            /\ ((e = SyntaxError /\ JSON_parse B = None)
                \/ (e = RangeError
                    /\ exists v, JSON_parse B = Some v
                                 /\ (stack <= depth v)%nat)))).
Proof.
  intros Hstack. rewrite handler_settled.
  destruct (Nat.leb_spec (depth (Event.to_value event)) stack) as [Hlog|Hlog].
  - unfold parse_body, JSON_parse_run. split.
    + intros H. right. split; [exact Hlog|].
      destruct (Event.body event) as [[|c s]|]; cbn [truthy settled ret snd] in H.
      * destruct (Nat.ltb_spec (depth (JObj [])) stack) as [L|L];
          [discriminate | cbn in L; lia].
      * exists (c :: s). split; [reflexivity|]. split; [discriminate|].
        destruct (JSON_parse (c :: s)) as [v|] eqn:E.
        -- cbn [settled ret snd] in H.
           destruct (Nat.ltb_spec (depth v) stack) as [L|L]; [discriminate|].
           inversion H; subst. right. split; [reflexivity|].
           exists v. split; [reflexivity | exact L].
        -- inversion H; subst. left. split; reflexivity.
      * destruct (Nat.ltb_spec (depth (JObj [])) stack) as [L|L];
          [discriminate | cbn in L; lia].
    + intros [[_ H]|[_ (B & -> & Hne & H)]]; [lia|].
      destruct B as [|c s]; [contradiction|]. cbn [truthy].
      destruct H as [[-> ->]|[-> (v & -> & L)]]; [reflexivity|].
      cbn [settled ret snd]. apply Nat.ltb_ge in L. rewrite L. reflexivity.
  - split.
    + intros H. inversion H; subst. left. split; [reflexivity | exact Hlog].
    + intros [[-> _]|[H _]]; [reflexivity | lia].
Qed.

Lemma rejected_iff_witness :
  (2 <= room)%nat
  /\ (settled (handler room (body_event (nest_text 5000 (js "0")))
                 hello_context evening) = Rejected RangeError <->
      (RangeError = RangeError
       /\ (room < depth (Event.to_value (body_event (nest_text 5000 (js "0")))))%nat)
      \/ ((depth (Event.to_value (body_event (nest_text 5000 (js "0")))) <= room)%nat
          /\ exists B,
               Event.body (body_event (nest_text 5000 (js "0"))) = Some B
               /\ B <> []
               /\ ((RangeError = SyntaxError /\ JSON_parse B = None)
                   \/ (RangeError = RangeError
                       /\ exists v, JSON_parse B = Some v
                                    /\ (room <= depth v)%nat)))).
Proof.
  split; [vm_compute; lia|].
  apply (rejected_iff room (body_event (nest_text 5000 (js "0")))
           hello_context evening RangeError).
  vm_compute; lia.
Defined.

(** X3. Line 8: a body that is not empty and holds white space only (space,
    tab, line feed, carriage return) is rejected, although an empty body is
    answered: with the SyntaxError of JSON.parse, or, for an event nested
    deeper than the call stack has room for, with the RangeError of
    line 5. *)
Theorem blank_body_rejected stack event context now B :
  Event.body event = Some B -> B <> [] -> forallb is_ws B = true ->
  settled (handler stack event context now)
  = Rejected (if (depth (Event.to_value event) <=? stack)%nat
              then SyntaxError else RangeError).
Proof.
  intros Eb Hne Hws.
  apply (handler_rejects stack event context now B Eb Hne).
  apply JSON_parse_blank, Hws.
Qed.

Lemma blank_body_rejected_witness :
  Event.body (get_event (Some [ch " "; 10%N; 9%N])) = Some [ch " "; 10%N; 9%N]
  /\ [ch " "; 10%N; 9%N] <> []
  /\ forallb is_ws [ch " "; 10%N; 9%N] = true
  /\ settled (handler room (get_event (Some [ch " "; 10%N; 9%N]))
                hello_context evening)
     = Rejected SyntaxError.
Proof.
  split; [reflexivity|]. split; [discriminate|]. split; [reflexivity|].
  refine (blank_body_rejected room (get_event (Some [ch " "; 10%N; 9%N]))
            hello_context evening [ch " "; 10%N; 9%N] eq_refl _ eq_refl).
  discriminate.
Defined.

(** X4. Line 8: white space before and after the text of a body that is not
    empty changes nothing: for two events that are nested equally deep,
    as a request and the same request with a padded body are, the handler
    ends for the padded text as it does for the text itself, with the same
    response or the same error. *)
Theorem padding_ignored stack event event' context now B w1 w2 :
  Event.body event = Some B -> B <> [] ->
  forallb is_ws w1 = true -> forallb is_ws w2 = true ->
  Event.body event' = Some (w1 ++ B ++ w2) ->
  depth (Event.to_value event') = depth (Event.to_value event) ->
  settled (handler stack event' context now)
  = settled (handler stack event context now).
Proof.
  intros Eb Hne H1 H2 Eb' Hd. rewrite !handler_settled, Hd.
  assert (Hne' : w1 ++ B ++ w2 <> []).
  { destruct w1; [|discriminate]. destruct B; [contradiction | discriminate]. }
  pose proof (JSON_parse_padded w1 B w2 H1 H2) as Ep.
  destruct (JSON_parse B) as [v|] eqn:E.
  - rewrite (parse_body_valid event B v Eb E),
      (parse_body_valid event' _ v Eb' Ep). reflexivity.
  - rewrite (parse_body_invalid event B Eb Hne E),
      (parse_body_invalid event' _ Eb' Hne' Ep). reflexivity.
Qed.

Lemma padding_ignored_witness :
  Event.body (get_event (Some nested_text)) = Some nested_text
  /\ nested_text <> []
  /\ forallb is_ws [ch " "; 10%N] = true
  /\ forallb is_ws [13%N; 10%N] = true
  /\ Event.body (get_event (Some ([ch " "; 10%N] ++ nested_text ++ [13%N; 10%N])))
     = Some ([ch " "; 10%N] ++ nested_text ++ [13%N; 10%N])
  /\ depth (Event.to_value
              (get_event (Some ([ch " "; 10%N] ++ nested_text ++ [13%N; 10%N]))))
     = depth (Event.to_value (get_event (Some nested_text)))
  /\ settled (handler room
                (get_event (Some ([ch " "; 10%N] ++ nested_text ++ [13%N; 10%N])))
                hello_context evening)
     = settled (handler room (get_event (Some nested_text)) hello_context evening).
Proof.
  split; [reflexivity|]. split; [discriminate|].
  split; [reflexivity|]. split; [reflexivity|]. split; [reflexivity|].
  split; [reflexivity|].
  apply (padding_ignored room (get_event (Some nested_text)) _ _ _ nested_text
           [ch " "; 10%N] [13%N; 10%N]);
    [reflexivity | discriminate | reflexivity | reflexivity | reflexivity
     | reflexivity].
Defined.

(** X5. Lines 17 to 22: whenever the handler returns a response, its body
    is a JSON text of an object with the four properties message,
    timestamp, requestId and body, in this order and no other, whatever
    the request identifier and the request body hold: the message is
    [Hello, World!], the timestamp the ISO text of the clock reading, the
    requestId the one of the context, and no number of the echoed value is
    an infinity or NaN. *)
Theorem response_shape stack event context now r :
  settled (handler stack event context now) = Fulfilled r ->
  exists v,
    JSON_parse (Result.body r)
    = Some (JObj [ (js "message", JStr (js "Hello, World!"));
                   (js "timestamp", JStr (Date_toISOString (ms now)));
                   (js "requestId", JStr (Context.awsRequestId context));
                   (js "body", v) ])
    /\ all_finite v = true.
Proof.
  intros H.
  destruct (fulfilled_response _ _ _ _ _ H) as (v & _ & Hwf & _ & _ & ->).
  exists (reparsed v). split; [apply response_decoded, Hwf|].
  apply reparsed_finite.
Qed.

Lemma response_shape_witness :
  settled (handler room (get_event (Some (js "[1e400]"))) hello_context evening)
  = Fulfilled (response hello_context evening (JArr [JNum (Inf false)]))
  /\ exists v,
       JSON_parse (Result.body (response hello_context evening (JArr [JNum (Inf false)])))
       = Some (JObj [ (js "message", JStr (js "Hello, World!"));
                      (js "timestamp", JStr (Date_toISOString (ms evening)));
                      (js "requestId", JStr (Context.awsRequestId hello_context));
                      (js "body", v) ])
       /\ all_finite v = true.
Proof.
  split; [vm_compute; reflexivity|].
  apply (response_shape room (get_event (Some (js "[1e400]")))
           hello_context evening).
  vm_compute; reflexivity.
Defined.

(** X6. The echo is stable: when the [body] field of a response is written
    with JSON.stringify and sent as the body of a request, in any context
    and at any time, in an event the same call stack has room to write on
    line 5, the handler answers, and the [body] field of the new response
    is the same value. *)
Theorem echo_stable stack event context now r v event' context' now' :
  settled (handler stack event context now) = Fulfilled r ->
  field "body" r = Some v ->
  Event.body event' = Some (json_text v) ->
  (depth (Event.to_value event') <= stack)%nat ->
  exists r',
    settled (handler stack event' context' now') = Fulfilled r'
    /\ field "body" r' = Some v.
Proof.
  intros H Hf Eb Hlog.
  destruct (fulfilled_response _ _ _ _ _ H) as (v0 & _ & Hwf & _ & Hroom & ->).
  rewrite (response_field_body _ _ _ Hwf) in Hf. inversion Hf; subst v.
  exists (response context' now' (reparsed v0)).
  rewrite (handler_answers stack event' context' now' (reparsed v0) Hlog).
  - split; [reflexivity|].
    rewrite response_field_body by (apply reparsed_wf, Hwf).
    rewrite reparsed_idem. reflexivity.
  - rewrite (parse_body_valid event' _ _ Eb (JSON_parse_reparsed v0 Hwf)).
    reflexivity.
  - rewrite depth_reparsed. exact Hroom.
Qed.

Lemma echo_stable_witness :
  settled (handler room (get_event (Some nested_text)) hello_context evening)
  = Fulfilled (response hello_context evening nested)
  /\ field "body" (response hello_context evening nested) = Some nested
  /\ Event.body (post_event (Some (json_text nested)))
     = Some (json_text nested)
  /\ (depth (Event.to_value (post_event (Some (json_text nested)))) <= room)%nat
  /\ exists r',
       settled (handler room (post_event (Some (json_text nested)))
                  (context_of (js "other") (js "r-2")) evening)
       = Fulfilled r'
       /\ field "body" r' = Some nested.
Proof.
  split; [vm_compute; reflexivity|]. split; [vm_compute; reflexivity|].
  split; [reflexivity|]. split; [vm_compute; lia|].
  apply (echo_stable room (get_event (Some nested_text)) hello_context evening
           (response hello_context evening nested) nested);
    [vm_compute; reflexivity | vm_compute; reflexivity | reflexivity
     | vm_compute; lia].
Defined.

(** X7. Lines 17 to 22: the body of a response is one line: it holds no
    code unit below 32, so no line feed, no carriage return and no other
    control character of that range, whatever the request body and the
    request identifier hold. *)
Theorem response_one_line stack event context now r :
  settled (handler stack event context now) = Fulfilled r ->
  forallb visible (Result.body r) = true.
Proof.
  intros H.
  destruct (fulfilled_response _ _ _ _ _ H) as (v & _ & Hwf & _ & _ & ->).
  cbn [response Result.body].
  apply JSON_stringify_visible, payload_wf, Hwf.
Qed.

Lemma response_one_line_witness :
  settled (handler room (get_event (Some (jsq "'a\nb'")))
             (context_of (js "hello") [ch "i"; 10%N; ch "d"]) evening)
  = Fulfilled (response (context_of (js "hello") [ch "i"; 10%N; ch "d"]) evening
                 (JStr [ch "a"; 10%N; ch "b"]))
  /\ forallb visible
       (Result.body
          (response (context_of (js "hello") [ch "i"; 10%N; ch "d"]) evening
             (JStr [ch "a"; 10%N; ch "b"]))) = true.
Proof.
  split; [vm_compute; reflexivity|].
  apply (response_one_line room (get_event (Some (jsq "'a\nb'")))
           (context_of (js "hello") [ch "i"; 10%N; ch "d"]) evening).
  vm_compute; reflexivity.
Defined.

(** X8. Line 19: whenever the handler returns a response, the [timestamp]
    field of its body is a text of the date-time string format that
    denotes the reading of the clock, to the millisecond; it has 24 code
    units when the year of the reading has four digits. *)
Theorem timestamp_instant stack event context now r :
  settled (handler stack event context now) = Fulfilled r ->
  exists s,
    field "timestamp" r = Some (JStr s)
    /\ iso_instant s = Some (ms now)
    /\ (0 <= YearFromTime (ms now) <= 9999 -> length s = 24%nat).
Proof.
  intros H.
  destruct (fulfilled_response _ _ _ _ _ H) as (v & _ & Hwf & _ & _ & ->).
  exists (Date_toISOString (ms now)).
  split; [apply response_field_timestamp, Hwf|].
  split; [|apply toISOString_length].
  apply iso_instant_toISOString. apply Z.leb_le, (ms_range now).
Qed.

Lemma timestamp_instant_witness :
  settled (handler room (get_event None) hello_context evening)
  = Fulfilled (response hello_context evening (JObj []))
  /\ exists s,
       field "timestamp" (response hello_context evening (JObj []))
       = Some (JStr s)
       /\ iso_instant s = Some (ms evening)
       /\ (0 <= YearFromTime (ms evening) <= 9999 -> length s = 24%nat).
Proof.
  split; [reflexivity|].
  apply (timestamp_instant room (get_event None) hello_context evening).
  reflexivity.
Defined.



(** X10. Line 19: the timestamps of two responses compare, as strings, the
    way the two readings of the clock compare, when the years of both
    readings have four digits: sorting responses by the text of their
    timestamp sorts them by time. *)
Theorem timestamps_ordered stack event1 context1 now1 r1 s1
  event2 context2 now2 r2 s2 :
  settled (handler stack event1 context1 now1) = Fulfilled r1 ->
  settled (handler stack event2 context2 now2) = Fulfilled r2 ->
  field "timestamp" r1 = Some (JStr s1) ->
  field "timestamp" r2 = Some (JStr s2) ->
  0 <= YearFromTime (ms now1) <= 9999 ->
  0 <= YearFromTime (ms now2) <= 9999 ->
  compare_units s1 s2 = (ms now1 ?= ms now2).
Proof.
  intros H1 H2 F1 F2 Hy1 Hy2.
  destruct (fulfilled_response _ _ _ _ _ H1) as (v1 & _ & Hwf1 & _ & _ & ->).
  destruct (fulfilled_response _ _ _ _ _ H2) as (v2 & _ & Hwf2 & _ & _ & ->).
  rewrite (response_field_timestamp _ _ _ Hwf1) in F1.
  rewrite (response_field_timestamp _ _ _ Hwf2) in F2.
  inversion F1; subst s1. inversion F2; subst s2.
  apply toISOString_compare; assumption.
Qed.

Lemma timestamps_ordered_witness :
  settled (handler room (get_event None) hello_context
             {| ms := 946684799999; ms_range := eq_refl |})
  = Fulfilled (response hello_context
                 {| ms := 946684799999; ms_range := eq_refl |} (JObj []))
  /\ settled (handler room (post_event None) hello_context evening)
     = Fulfilled (response hello_context evening (JObj []))
  /\ field "timestamp"
       (response hello_context
          {| ms := 946684799999; ms_range := eq_refl |} (JObj []))
     = Some (JStr (js "1999-12-31T23:59:59.999Z"))
  /\ field "timestamp" (response hello_context evening (JObj []))
     = Some (JStr (js "2026-11-02T19:00:00.123Z"))
  /\ 0 <= YearFromTime 946684799999 <= 9999
  /\ 0 <= YearFromTime (ms evening) <= 9999
  /\ compare_units (js "1999-12-31T23:59:59.999Z")
       (js "2026-11-02T19:00:00.123Z")
     = (946684799999 ?= ms evening).
Proof.
  split; [reflexivity|]. split; [reflexivity|].
  split; [vm_compute; reflexivity|]. split; [vm_compute; reflexivity|].
  split; [vm_compute; split; discriminate|].
  split; [vm_compute; split; discriminate|].
  apply (timestamps_ordered room (get_event None) hello_context
           {| ms := 946684799999; ms_range := eq_refl |}
           (response hello_context
              {| ms := 946684799999; ms_range := eq_refl |} (JObj []))
           (js "1999-12-31T23:59:59.999Z")
           (post_event None) hello_context evening
           (response hello_context evening (JObj []))
           (js "2026-11-02T19:00:00.123Z"));
    [reflexivity | reflexivity | vm_compute; reflexivity
     | vm_compute; reflexivity | vm_compute; split; discriminate
     | vm_compute; split; discriminate].
Defined.

End Properties.
